(** * vision-parse: page-extraction pipeline

    A shallow embedding of [src/vision_parse/llm.py] and
    [src/vision_parse/parser.py]: the exception classes, the fenced-block
    stripping regex, the retry decorator around the Gemini call, the
    per-page extraction ([LLM.generate_markdown]), page rasterisation
    ([VisionParser._calculate_matrix], [_convert_page]) and the batch
    driver ([_convert_pages_batch], [convert_file]).

    Coroutines are embedded as finite effect trees ([prog]); the event
    loop is a pair of interpreters over an explicit world (the mutable
    [detailed_extraction] attribute and the trace of effects). *)

From Stdlib Require Import List String Ascii Bool Arith ZArith QArith Lia.
From Stdlib Require Import DecimalString.
Import ListNotations.

Local Open Scope list_scope.
Local Open Scope string_scope.

(** ** Strings *)

Module Str.

(** Python's ["\n"]. *)
Definition nl : string := String (ascii_of_nat 10) EmptyString.


(** [s[len(p):]] when [s.startswith(p)]. *)
Fixpoint strip_prefix (p s : string) : option string :=
  match p with
  | EmptyString => Some s
  | String a p' =>
      match s with
      | EmptyString => None
      | String b s' => if Ascii.eqb a b then strip_prefix p' s' else None
      end
  end.

(** [str.lower] on the ASCII range; the only letters compared against
    below are ASCII, and no non-ASCII code point lowers to one of them. *)
Definition lower_ascii (c : ascii) : ascii :=
  let n := nat_of_ascii c in
  if (65 <=? n)%nat && (n <=? 90)%nat then ascii_of_nat (n + 32) else c.

Fixpoint lower (s : string) : string :=
  match s with
  | EmptyString => EmptyString
  | String c s' => String (lower_ascii c) (lower s')
  end.

(** Membership of a string in a list, Python's [x in [..]]. *)
Fixpoint mem (x : string) (l : list string) : bool :=
  match l with
  | [] => false
  | y :: l' => String.eqb x y || mem x l'
  end.

(** Decimal rendering of a natural number, as an f-string does. *)
Definition of_nat (n : nat) : string := NilEmpty.string_of_uint (Nat.to_uint n).


(** [sep.join(l)]. *)
Fixpoint join (sep : string) (l : list string) : string :=
  match l with
  | [] => EmptyString
  | x :: l' =>
      match l' with
      | [] => x
      | _ :: _ => x ++ sep ++ join sep l'
      end
  end.

End Str.

(** ** Python exceptions and results *)

(** The exception classes that occur in the two modules.  The four classes
    the repository declares all derive from [BaseException] directly
    ([class LLMError(BaseException)] and so on), so an [except Exception]
    clause does not catch them; the built-in and third-party ones below
    derive from [Exception]. *)
Inductive exn_class : Type :=
| FileNotFoundError
| OSError                  (* any other OSError of [os.stat], PermissionError say *)
| ValueError
| IndexError
| UnboundLocalError
| ValidationError          (* pydantic, a ValueError *)
| RuntimeError             (* any other Exception of a collaborator *)
| UnsupportedFileError     (* parser.py, BaseException *)
| VisionParserError        (* parser.py, BaseException *)
| UnsupportedModelError    (* llm.py, BaseException *)
| LLMError                 (* llm.py, BaseException *)
| KeyboardInterrupt.       (* built-in, BaseException *)

Record exn : Type := mk_exn { exn_cls : exn_class; exn_msg : string }.

(** [isinstance(e, Exception)]. *)
Definition is_Exception (e : exn) : bool :=
  match exn_cls e with
  | FileNotFoundError | OSError | ValueError | IndexError | UnboundLocalError
  | ValidationError | RuntimeError => true
  | UnsupportedFileError | VisionParserError | UnsupportedModelError
  | LLMError | KeyboardInterrupt => false
  end.

(** [str(e)] for an exception built from one message. *)
Definition str_exn (e : exn) : string := exn_msg e.

Inductive result (A : Type) : Type :=
| Ok (a : A)
| Raise (e : exn).
Arguments Ok {A} a.
Arguments Raise {A} e.

(** ** The fenced-block regex of [_gemini]

    [re.sub(r"```(?:markdown)?\n(.*?)\n```", r"\1", text, flags=re.DOTALL)]:
    scanning from the left, at each position the pattern is tried; a match
    is replaced by its group 1 and scanning resumes after the match. *)

Module Fence.
Import Str.

Definition opening : string := "```".
Definition closing : string := nl ++ "```".

(** The lazy group [(.*?)] followed by the closing fence: split at the first
    occurrence of [closing]. *)
Fixpoint split_close (s : string) : option (string * string) :=
  match strip_prefix closing s with
  | Some rest => Some (EmptyString, rest)
  | None =>
      match s with
      | EmptyString => None
      | String c s' =>
          match split_close s' with
          | Some (g, rest) => Some (String c g, rest)
          | None => None
          end
      end
  end.

(** The pattern tried at the head of [s]: the group and the text left
    after the match.  The optional group is greedy; when the attempt with
    [markdown] consumed fails the matcher backtracks to the attempt without
    it. *)
Definition after_newline (r : string) : option (string * string) :=
  match strip_prefix nl r with
  | Some body => split_close body
  | None => None
  end.

Definition match_here (s : string) : option (string * string) :=
  match strip_prefix opening s with
  | None => None
  | Some r =>
      match strip_prefix "markdown" r with
      | Some r1 =>
          match after_newline r1 with
          | Some m => Some m
          | None => after_newline r
          end
      | None => after_newline r
      end
  end.

Fixpoint sub_fences (fuel : nat) (s : string) : string :=
  match fuel with
  | O => s
  | S fuel' =>
      match s with
      | EmptyString => EmptyString
      | String c s' =>
          match match_here s with
          | Some (g, rest) => g ++ sub_fences fuel' rest
          | None => String c (sub_fences fuel' s')
          end
      end
  end.

(** Every step consumes at least one character, so the length of the
    subject is enough fuel. *)
Definition strip_fences (s : string) : string := sub_fences (String.length s) s.

End Fence.

(** ** Paths (pathlib)

    [Path(file_path)], on POSIX, drops empty and [.] components, so a
    trailing slash does not count; [Path.name] is the last component left
    and [Path.suffix] its last dotted extension: with
    [i = name.rfind('.')], the suffix is [name[i:]] when
    [0 < i < len(name) - 1] and empty otherwise.  [str(path)], which the
    f-strings of the error messages call, joins the root and the components
    left with single slashes. *)

Module Path.
Import Str.

(** [s.split('/')]. *)
Fixpoint components (s : string) : list string :=
  match s with
  | EmptyString => [EmptyString]
  | String c s' =>
      if Ascii.eqb c "/"%char then EmptyString :: components s'
      else match components s' with
           | x :: l => String c x :: l
           | [] => [String c EmptyString]
           end
  end.

Definition kept (component : string) : bool :=
  negb (String.eqb component "" || String.eqb component ".").

Definition name (path : string) : string :=
  last (filter kept (components path)) EmptyString.

(** [nm.rfind('.')], [None] for -1. *)
Fixpoint rfind_dot (nm : string) : option nat :=
  match nm with
  | EmptyString => None
  | String c s' =>
      match rfind_dot s' with
      | Some i => Some (S i)
      | None => if Ascii.eqb c "."%char then Some O else None
      end
  end.

Definition suffix (path : string) : string :=
  let nm := name path in
  match rfind_dot nm with
  | Some i =>
      if (0 <? i)%nat && (i <? String.length nm - 1)%nat
      then substring i (String.length nm - i) nm
      else EmptyString
  | None => EmptyString
  end.

(** The root of a path: exactly two leading slashes are kept, any other
    number of them is one. *)
Definition root (path : string) : string :=
  match strip_prefix "///" path with
  | Some _ => "/"
  | None =>
      match strip_prefix "//" path with
      | Some _ => "//"
      | None =>
          match strip_prefix "/" path with
          | Some _ => "/"
          | None => EmptyString
          end
      end
  end.

(** [str(Path(path))]; the empty path is [.]. *)
Definition to_str (path : string) : string :=
  match root path ++ join "/" (filter kept (components path)) with
  | EmptyString => "."
  | s => s
  end.

End Path.

(** ** Transformation matrices (fitz.Matrix)

    A matrix [(a, b, c, d, e, f)] acts on row vectors.  Python floats are
    idealised as rationals. *)

Record Matrix : Type := mkMatrix { ma : Q; mb : Q; mc : Q; md : Q; me : Q; mf : Q }.

(** [fitz.Matrix(sx, sy)]: scaling. *)
Definition Matrix_scale (sx sy : Q) : Matrix := mkMatrix sx 0 0 sy 0 0.

(** [theta] reduced to [[0, 360)] by the two [while] loops of [prerotate]. *)
Definition norm_angle (theta : Z) : Z := (theta mod 360)%Z.

(** [Matrix.prerotate(theta)].  The quarter turns are exact; any other
    angle goes through [math.cos] and [math.sin], given here by [trig]. *)
Definition prerotate (trig : Z -> Q * Q) (m : Matrix) (theta : Z) : Matrix :=
  let t := norm_angle theta in
  if (t =? 0)%Z then m
  else if (t =? 90)%Z then mkMatrix (mc m) (md m) (- ma m) (- mb m) (me m) (mf m)
  else if (t =? 180)%Z then mkMatrix (- ma m) (- mb m) (- mc m) (- md m) (me m) (mf m)
  else if (t =? 270)%Z then mkMatrix (- mc m) (- md m) (ma m) (mb m) (me m) (mf m)
  else
    let '(c, s) := trig t in
    mkMatrix (c * ma m + s * mc m) (c * mb m + s * md m)
             (- s * ma m + c * mc m) (- s * mb m + c * md m) (me m) (mf m).

(** Matrix product [one * two] ([fitz.Matrix.concat]). *)
Definition Matrix_concat (one two : Matrix) : Matrix :=
  mkMatrix (ma one * ma two + mb one * mc two)
           (ma one * mb two + mb one * md two)
           (mc one * ma two + md one * mc two)
           (mc one * mb two + md one * md two)
           (me one * ma two + mf one * mc two + me two)
           (me one * mb two + mf one * md two + mf two).

Definition Matrix_eq (m n : Matrix) : Prop :=
  ma m == ma n /\ mb m == mb n /\ mc m == mc n /\
  md m == md n /\ me m == me n /\ mf m == mf n.

(** ** Data model *)

Record PDFPageConfig : Type := mkPDFPageConfig {
  dpi : Z;
  color_space : string;
  include_annotations : bool;
  preserve_transparency : bool
}.

Definition default_page_config : PDFPageConfig :=
  mkPDFPageConfig 150 "RGB" true false.

(** A rendered page: what
    [base64.b64encode(pix.tobytes("png")).decode("utf-8")] gives for it,
    the image as text or the exception of [pix.tobytes]. *)
Record Pixmap : Type := mkPixmap { png_base64 : result string }.

(** A [fitz.Page]: its rotation and its renderer
    [get_pixmap(matrix, alpha, colorspace, annots)]. *)
Record Page : Type := mkPage {
  rotation : Z;
  get_pixmap : Matrix -> bool -> string -> bool -> result Pixmap
}.

(** [utils.ImageData], the two attributes [generate_markdown] reads. *)
Record ImageData : Type := mkImageData {
  image_url : string;
  base64_encoded : string
}.

(** [Literal["Yes", "No"]]. *)
Inductive yes_no : Type := Yes | No.

Definition yes_no_str (v : yes_no) : string :=
  match v with Yes => "Yes" | No => "No" end.

Record ImageDescription : Type := mkImageDescription {
  text_detected : yes_no;
  tables_detected : yes_no;
  images_detected : yes_no;
  latex_equations_detected : yes_no;
  extracted_text : string;
  confidence_score_text : Q
}.

(** What [client.generate_content] is given: the image, the prompt and the
    generation config. *)
Record request : Type := mkRequest {
  req_image : string;
  req_prompt : string;
  req_structured : bool;      (* response_mime_type / response_schema set *)
  req_temperature : Q;
  req_top_p : Q
}.

(** What a path designates.  [Path.exists()] and [Path.is_file()] both ask
    [os.stat]: [is_file] is whether the path is a regular file, or the
    [OSError] that [os.stat] raised and that neither method swallows
    (permission denied on a directory of the path, say).  Then what
    [fitz.open(path)] and [page.insert_image(rect, filename=path)] make of
    the content. *)
Record FileEntry : Type := mkFileEntry {
  is_file : result bool;
  open_pdf : result (list Page);
  open_image : result Page
}.

(** The collaborators of the two modules.  [extract_images] lives in
    [utils.py] and the two prompts in [.j2] templates, none of them part of
    the sources at hand; they are parameters of the model, like the Gemini
    service and pydantic's decoder. *)
Record Env : Type := mkEnv {
  (* the answer of the service to its n-th call, counting from 0 *)
  backend : nat -> request -> result string;
  (* ImageData.extract_images(pix, image_mode, page_number) *)
  extract_images : Pixmap -> string -> nat -> result (list ImageData);
  (* ImageDescription.model_validate_json *)
  model_validate_json : string -> result ImageDescription;
  (* LLM._image_analysis_prompt.render() *)
  image_analysis_prompt : string;
  (* LLM._md_prompt_template.render(extracted_text, tables_detected,
     latex_equations_detected, confidence_score_text, custom_prompt) *)
  md_prompt : string -> string -> string -> Q -> option string -> string;
  (* math.cos and math.sin of an angle in degrees *)
  trig : Z -> Q * Q
}.

(** The file system: what [Path(file_path)] designates, if anything;
    [None] is a path for which [os.stat] finds nothing. *)
Definition filesystem : Type := string -> option FileEntry.

(** The attributes of [LLM] that the extraction reads and never writes.
    [detailed_extraction], the one it does write, lives in the [World]. *)
Record LLM : Type := mkLLM {
  temperature : Q;
  top_p : Q;
  image_mode : option string;
  custom_prompt : option string;
  llm_enable_concurrency : bool
}.

Record VisionParser : Type := mkVisionParser {
  page_config : PDFPageConfig;
  num_workers : Z;
  enable_concurrency : bool;
  llm : LLM
}.

(** ** Coroutines as effect trees

    An [async def] is a finite tree of the effects it performs; the
    continuation of a node receives what the effect returned.  [CallModel]
    with [async = true] ([generate_content_async]) and [Sleep]
    ([asyncio.sleep]) are the points where a coroutine is suspended. *)

Inductive prog (A : Type) : Type :=
| Ret (a : A)
| Throw (e : exn)
| ReadFlag (k : bool -> prog A)        (* read self.detailed_extraction *)
| ClearFlag (k : prog A)               (* self.detailed_extraction = False *)
| CallModel (async : bool) (req : request) (k : result string -> prog A)
| ExtractImages (pix : Pixmap) (mode : string) (page_number : nat)
                (k : result (list ImageData) -> prog A)
| Sleep (secs : Q) (k : prog A).
Arguments Ret {A} a.
Arguments Throw {A} e.
Arguments ReadFlag {A} k.
Arguments ClearFlag {A} k.
Arguments CallModel {A} async req k.
Arguments ExtractImages {A} pix mode page_number k.
Arguments Sleep {A} secs k.

Fixpoint bind {A B : Type} (p : prog A) (f : A -> prog B) : prog B :=
  match p with
  | Ret a => f a
  | Throw e => Throw e
  | ReadFlag k => ReadFlag (fun b => bind (k b) f)
  | ClearFlag k => ClearFlag (bind k f)
  | CallModel async req k => CallModel async req (fun o => bind (k o) f)
  | ExtractImages pix mode pn k => ExtractImages pix mode pn (fun o => bind (k o) f)
  | Sleep secs k => Sleep secs (bind k f)
  end.

(** [try: p except BaseException as e: h(e)]. *)
Fixpoint on_raise {A : Type} (p : prog A) (h : exn -> prog A) : prog A :=
  match p with
  | Ret a => Ret a
  | Throw e => h e
  | ReadFlag k => ReadFlag (fun b => on_raise (k b) h)
  | ClearFlag k => ClearFlag (on_raise k h)
  | CallModel async req k => CallModel async req (fun o => on_raise (k o) h)
  | ExtractImages pix mode pn k => ExtractImages pix mode pn (fun o => on_raise (k o) h)
  | Sleep secs k => Sleep secs (on_raise k h)
  end.

(** [try: p except Exception as e: h(e)]: anything that is not an
    [Exception] passes through. *)
Definition except_Exception {A : Type} (p : prog A) (h : exn -> prog A) : prog A :=
  on_raise p (fun e => if is_Exception e then h e else Throw e).

(** [try: p finally: q]: [q] runs once, on either exit, and an exception
    of [q] replaces the outcome of [p]. *)
Fixpoint try_finally {A : Type} (p : prog A) (q : prog unit) : prog A :=
  match p with
  | Ret a => bind q (fun _ => Ret a)
  | Throw e => bind q (fun _ => Throw e)
  | ReadFlag k => ReadFlag (fun b => try_finally (k b) q)
  | ClearFlag k => ClearFlag (try_finally k q)
  | CallModel async req k => CallModel async req (fun o => try_finally (k o) q)
  | ExtractImages pix mode pn k =>
      ExtractImages pix mode pn (fun o => try_finally (k o) q)
  | Sleep secs k => Sleep secs (try_finally k q)
  end.

Declare Scope prog_scope.
Delimit Scope prog_scope with prog.
Notation "x <- p ;; q" := (bind p (fun x => q))
  (at level 100, p at next level, right associativity) : prog_scope.

(** Lifting a pure computation that may raise. *)
Definition lift {A : Type} (r : result A) : prog A :=
  match r with Ok a => Ret a | Raise e => Throw e end.

(** ** The retry decorator (tenacity)

    [@retry(reraise=True, stop=stop_after_attempt(3),
            wait=wait_exponential(multiplier=1, min=4, max=10))].
    No [retry=] argument is given, so the condition is tenacity's default,
    [retry_if_exception_type()], which retries on instances of [Exception].
    After an attempt that raised [e]: if the condition rejects [e] it is
    re-raised at once; otherwise, if the stop condition holds, [reraise]
    re-raises [e]; otherwise the wrapper sleeps and tries again. *)

Module Tenacity.

Definition retry_if_exception_type (e : exn) : bool := is_Exception e.

(** [wait_exponential(multiplier, min, max)] after attempt [n] (from 1):
    [max(max(0, min), min(multiplier * 2 ** (n - 1), max))]. *)
Definition wait_exponential (multiplier wmin wmax : Z) (attempt_number : nat) : Z :=
  Z.max (Z.max 0 wmin) (Z.min (multiplier * 2 ^ Z.of_nat (attempt_number - 1)) wmax).

(** The loop of the wrapper; [left] is how many attempts
    [stop_after_attempt] still allows after the current one. *)
Fixpoint attempts {A : Type} (retry_on : exn -> bool) (wait : nat -> Z)
    (left attempt_number : nat) (fn : prog A) : prog A :=
  on_raise fn (fun e =>
    if retry_on e then
      match left with
      | O => Throw e
      | S left' =>
          Sleep (inject_Z (wait attempt_number))
                (attempts retry_on wait left' (S attempt_number) fn)
      end
    else Throw e).

Definition retry {A : Type} (retry_on : exn -> bool) (stop_after_attempt : nat)
    (wait : nat -> Z) (fn : prog A) : prog A :=
  attempts retry_on wait (stop_after_attempt - 1) 1 fn.

End Tenacity.

(** ** llm.py *)

Definition generation_request (self : LLM) (base64_encoded prompt : string)
    (structured : bool) : request :=
  mkRequest base64_encoded prompt structured
            (if structured then 0 else temperature self)
            (if structured then 4 # 10 else top_p self).

(** The body of [LLM._gemini]: one call of the client, the regex applied to
    [response.text], and every [Exception] turned into an [LLMError]. *)
Definition _gemini_body (self : LLM) (base64_encoded prompt : string)
    (structured : bool) : prog string :=
  except_Exception
    (CallModel (llm_enable_concurrency self)
               (generation_request self base64_encoded prompt structured)
               (fun response =>
                  match response with
                  | Ok text => Ret (Fence.strip_fences text)
                  | Raise e => Throw e
                  end))
    (fun e => Throw (mk_exn LLMError ("Gemini Model processing failed: " ++ str_exn e))).

(** [LLM._gemini], decorated. *)
Definition _gemini (self : LLM) (base64_encoded prompt : string)
    (structured : bool) : prog string :=
  Tenacity.retry Tenacity.retry_if_exception_type 3
                 (Tenacity.wait_exponential 1 4 10)
                 (_gemini_body self base64_encoded prompt structured).

Definition _get_response (self : LLM) (base64_encoded prompt : string)
    (structured : bool) : prog string :=
  _gemini self base64_encoded prompt structured.

(** The prompt of the simple path. *)
Definition simple_prompt (env : Env) (self : LLM) : string :=
  md_prompt env "" "Yes" "No" 0 (custom_prompt self).

(** The prompt built from a structured description. *)
Definition detailed_prompt (env : Env) (self : LLM) (d : ImageDescription) : string :=
  md_prompt env (extracted_text d) (yes_no_str (tables_detected d))
            (yes_no_str (latex_equations_detected d))
            (confidence_score_text d) (custom_prompt self).

(** The two [for] loops that append image references. *)
Definition url_reference (markdown_content : string) (image_data : ImageData) : string :=
  markdown_content ++ Str.nl ++ Str.nl ++ "![" ++ image_url image_data ++ "]("
                   ++ image_url image_data ++ ")".

Definition base64_reference (markdown_content : string) (image_data : ImageData) : string :=
  markdown_content ++ Str.nl ++ Str.nl ++ "![" ++ image_url image_data ++ "]("
                   ++ base64_encoded image_data ++ ")".

Definition append_references (mode : option string) (extracted_images : list ImageData)
    (markdown_content : string) : string :=
  match extracted_images with
  | [] => markdown_content
  | _ :: _ =>
      match mode with
      | Some m =>
          if String.eqb m "url" then
            fold_left url_reference extracted_images markdown_content
          else if String.eqb m "base64" then
            fold_left base64_reference extracted_images markdown_content
          else markdown_content
      | None => markdown_content
      end
  end.

(** How the [try] block of [generate_markdown] is left: by [return ""], or
    by falling through with [prompt] and [extracted_images] as they are
    bound at that point ([prompt] is unbound after the [except] clause). *)
Inductive analysis : Type :=
| Returned (markdown : string)
| Fell_through (prompt : option string) (extracted_images : list ImageData).

Definition analyse (env : Env) (self : LLM) (base64_encoded : string) (pix : Pixmap)
    (page_number : nat) : prog analysis :=
  (response <- _get_response self base64_encoded (image_analysis_prompt env) true ;;
   json_response <- lift (model_validate_json env response) ;;
   match text_detected json_response with
   | No => Ret (Returned "")
   | Yes =>
       extracted_images <-
         match images_detected json_response, image_mode self with
         | Yes, Some mode => ExtractImages pix mode page_number lift
         | _, _ => Ret []
         end ;;
       Ret (Fell_through (Some (detailed_prompt env self json_response)) extracted_images)
   end)%prog.

(** The statements of [generate_markdown] after the [try]: the flag is read
    again, the prompt chosen, the markdown requested and the image
    references appended. *)
Definition generate_and_assemble (env : Env) (self : LLM) (base64_encoded : string)
    (a : analysis) : prog string :=
  match a with
  | Returned markdown => Ret markdown
  | Fell_through prompt extracted_images =>
      ReadFlag (fun detailed' =>
        match (if negb detailed' then Some (simple_prompt env self) else prompt) with
        | None =>
            Throw (mk_exn UnboundLocalError
              "cannot access local variable 'prompt' where it is not associated with a value")
        | Some prompt' =>
            (markdown_content <- _get_response self base64_encoded prompt' false ;;
             Ret (append_references (image_mode self) extracted_images markdown_content))%prog
        end)
  end.

(** [LLM.generate_markdown]. *)
Definition generate_markdown (env : Env) (self : LLM) (base64_encoded : string)
    (pix : Pixmap) (page_number : nat) : prog string :=
  ReadFlag (fun detailed =>
   (a <- (if detailed then
            except_Exception (analyse env self base64_encoded pix page_number)
                             (fun _ => ClearFlag (Ret (Fell_through None [])))
          else Ret (Fell_through None [])) ;;
    generate_and_assemble env self base64_encoded a)%prog).

(** ** parser.py *)

(** [VisionParser._calculate_matrix]. *)
Definition _calculate_matrix (env : Env) (cfg : PDFPageConfig) (page : Page) : Matrix :=
  let zoom := inject_Z (dpi cfg) / 72 in
  let matrix := Matrix_scale (zoom * 2) (zoom * 2) in
  if negb (rotation page =? 0)%Z then prerotate (trig env) matrix (rotation page)
  else matrix.

(** [VisionParser._convert_page].  [pix] is bound only when [get_pixmap]
    returned; the [finally] clause reads it either way.  The encoding of
    the pixmap happens inside the [try], with [pix] bound. *)
Definition _convert_page (env : Env) (self : VisionParser) (page : Page)
    (page_number : nat) : prog string :=
  let matrix := _calculate_matrix env (page_config self) page in
  let pix := get_pixmap page matrix
               (preserve_transparency (page_config self))
               (color_space (page_config self))
               (include_annotations (page_config self)) in
  try_finally
    (except_Exception
       (match pix with
        | Ok px =>
            match png_base64 px with
            | Ok base64_encoded =>
                generate_markdown env (llm self) base64_encoded px page_number
            | Raise e => Throw e
            end
        | Raise e => Throw e
        end)
       (fun e => Throw (mk_exn VisionParserError
          ("Failed to convert page " ++ Str.of_nat (page_number + 1)
           ++ " to base64-encoded PNG: " ++ str_exn e))))
    (match pix with
     | Ok _ => Ret tt
     | Raise _ =>
         Throw (mk_exn UnboundLocalError
           "cannot access local variable 'pix' where it is not associated with a value")
     end).

(** ** The world and the event loop *)

(** Who performed an effect: the task converting a page (tagged with its
    page number, a label used for specification only) or the batch driver. *)
Inductive owner : Type :=
| Task (page_number : nat)
| Driver.

Inductive event : Type :=
| EvReadFlag (b : bool)
| EvClearFlag
| EvCall (async : bool) (req : request) (out : result string)
| EvExtract (mode : string) (page_number : nat) (out : result (list ImageData))
| EvSleep (secs : Q).

Record World : Type := mkWorld {
  detailed_extraction : bool;          (* LLM.detailed_extraction *)
  trace : list (owner * event)         (* every effect so far, oldest first *)
}.

Definition log (o : owner) (ev : event) (w : World) : World :=
  mkWorld (detailed_extraction w) (trace w ++ [(o, ev)])%list.

Definition clear_flag (w : World) : World := mkWorld false (trace w).

Definition is_call (x : owner * event) : bool :=
  match snd x with EvCall _ _ _ => true | _ => false end.

(** How many calls the service has received. *)
Definition calls_made (w : World) : nat := List.length (filter is_call (trace w)).

(** [asyncio.run(p)] for a coroutine that is the only task of the loop:
    it runs to completion, suspensions are not observable. *)
Fixpoint run_task {A : Type} (env : Env) (o : owner) (p : prog A) (w : World)
    : result A * World :=
  match p with
  | Ret a => (Ok a, w)
  | Throw e => (Raise e, w)
  | ReadFlag k =>
      run_task env o (k (detailed_extraction w))
               (log o (EvReadFlag (detailed_extraction w)) w)
  | ClearFlag k => run_task env o k (log o EvClearFlag (clear_flag w))
  | CallModel async req k =>
      let out := backend env (calls_made w) req in
      run_task env o (k out) (log o (EvCall async req out) w)
  | ExtractImages pix mode pn k =>
      let out := extract_images env pix mode pn in
      run_task env o (k out) (log o (EvExtract mode pn out) w)
  | Sleep secs k => run_task env o k (log o (EvSleep secs) w)
  end.

(** A task of the loop: suspended with the code it runs when resumed, or
    finished. *)
Inductive task (A : Type) : Type :=
| Suspended (p : prog A)
| Finished (r : result A).
Arguments Suspended {A} p.
Arguments Finished {A} r.

(** One step of a task: it runs, without interleaving, up to its next
    suspension point or to its end. *)
Fixpoint advance {A : Type} (env : Env) (o : owner) (p : prog A) (w : World)
    : task A * World :=
  match p with
  | Ret a => (Finished (Ok a), w)
  | Throw e => (Finished (Raise e), w)
  | ReadFlag k =>
      advance env o (k (detailed_extraction w))
              (log o (EvReadFlag (detailed_extraction w)) w)
  | ClearFlag k => advance env o k (log o EvClearFlag (clear_flag w))
  | CallModel async req k =>
      let out := backend env (calls_made w) req in
      let w' := log o (EvCall async req out) w in
      if async then (Suspended (k out), w') else advance env o (k out) w'
  | ExtractImages pix mode pn k =>
      let out := extract_images env pix mode pn in
      advance env o (k out) (log o (EvExtract mode pn out) w)
  | Sleep secs k => (Suspended k, log o (EvSleep secs) w)
  end.

(** The tasks of one [asyncio.gather], the first exception any of them
    raised, and the world. *)
Record pool (A : Type) : Type := mkPool {
  slots : list (task A);
  first_exc : option exn;
  pool_world : World
}.
Arguments mkPool {A} slots first_exc pool_world.
Arguments slots {A} p.
Arguments first_exc {A} p.
Arguments pool_world {A} p.

Fixpoint set_slot {A : Type} (i : nat) (t : task A) (l : list (task A)) : list (task A) :=
  match l, i with
  | [], _ => []
  | _ :: l', O => t :: l'
  | x :: l', S i' => x :: set_slot i' t l'
  end.

(** The loop resumes task [i] of the pool; a finished task, or an index
    outside the pool, is skipped. *)
Definition resume {A : Type} (env : Env) (start_idx : nat) (i : nat) (P : pool A) : pool A :=
  match nth_error (slots P) i with
  | Some (Suspended p) =>
      let (t, w') := advance env (Task (start_idx + i)) p (pool_world P) in
      mkPool (set_slot i t (slots P))
             (match first_exc P, t with
              | None, Finished (Raise e) => Some e
              | exc, _ => exc
              end)
             w'
  | _ => P
  end.

Definition run_schedule {A : Type} (env : Env) (start_idx : nat) (sched : list nat)
    (P : pool A) : pool A :=
  fold_left (fun P i => resume env start_idx i P) sched P.

(** Once the schedule is used up, the tasks still suspended complete in
    index order; the first failure ends the wait. *)
Fixpoint drain {A : Type} (env : Env) (idx : nat) (ts : list (task A)) (w : World)
    : result (list A) * World :=
  match ts with
  | [] => (Ok [], w)
  | t :: ts' =>
      let (r, w1) := match t with
                     | Finished r => (r, w)
                     | Suspended p => run_task env (Task idx) p w
                     end in
      match r with
      | Raise e => (Raise e, w1)
      | Ok a =>
          let (rs, w2) := drain env (S idx) ts' w1 in
          (match rs with Ok l => Ok (a :: l) | Raise e => Raise e end, w2)
      end
  end.

(** [await asyncio.gather] over [coros]: every task is started in order,
    then the loop resumes tasks as their awaited results arrive, in the
    order [sched] gives.  The results come back in the order of [coros].
    If a task raised, its exception is what the [await] raises; [gather]
    does not cancel the others, which go on for as long as [sched] lasts. *)
Definition gather {A : Type} (env : Env) (start_idx : nat) (sched : list nat)
    (coros : list (prog A)) (w : World) : result (list A) * World :=
  let P := run_schedule env start_idx (seq 0 (List.length coros) ++ sched)%list
                        (mkPool (map Suspended coros) None w) in
  match first_exc P with
  | Some e => (Raise e, pool_world P)
  | None => drain env start_idx (slots P) (pool_world P)
  end.

(** [enumerate(pages)] turned into the coroutines of a batch. *)
Fixpoint batch_tasks (env : Env) (self : VisionParser) (pages : list Page)
    (start_idx : nat) : list (prog string) :=
  match pages with
  | [] => []
  | page :: pages' =>
      _convert_page env self page start_idx :: batch_tasks env self pages' (S start_idx)
  end.

(** [asyncio.run(self._convert_pages_batch(pages, start_idx))]; the
    [finally] clause pauses for half a second on either exit. *)
Definition _convert_pages_batch (env : Env) (self : VisionParser) (sched : list nat)
    (pages : list Page) (start_idx : nat) (w : World) : result (list string) * World :=
  let (r, w1) := gather env start_idx sched (batch_tasks env self pages start_idx) w in
  (r, log Driver (EvSleep (1 # 2)) w1).

(** [range(0, stop, step)] as a list. *)
Definition range_step (stop step : Z) : result (list Z) :=
  if (step =? 0)%Z then Raise (mk_exn ValueError "range() arg 3 must not be zero")
  else if (step <? 0)%Z then Ok []
  else Ok (map (fun k => (Z.of_nat k * step)%Z)
               (seq 0 (Z.to_nat ((stop + step - 1) / step)))).

(** [[pdf_document[j] for j in js]]. *)
Fixpoint load_pages (pdf_document : list Page) (js : list nat) : result (list Page) :=
  match js with
  | [] => Ok []
  | j :: js' =>
      match nth_error pdf_document j with
      | None => Raise (mk_exn IndexError "page not in document")
      | Some page =>
          match load_pages pdf_document js' with
          | Ok l => Ok (page :: l)
          | Raise e => Raise e
          end
      end
  end.

(** The loop over batches of [convert_file]. *)
Fixpoint convert_batches (env : Env) (self : VisionParser) (sched : nat -> list nat)
    (pdf_document : list Page) (starts : list Z) (converted_pages : list string)
    (w : World) : result (list string) * World :=
  match starts with
  | [] => (Ok converted_pages, w)
  | i :: starts' =>
      let total_pages := Z.of_nat (List.length pdf_document) in
      let batch_size := Z.min (num_workers self) (total_pages - i) in
      match load_pages pdf_document (seq (Z.to_nat i) (Z.to_nat batch_size)) with
      | Raise e => (Raise e, w)
      | Ok batch_pages =>
          match _convert_pages_batch env self (sched (Z.to_nat i)) batch_pages (Z.to_nat i) w with
          | (Ok batch_results, w') =>
              convert_batches env self sched pdf_document starts'
                              (converted_pages ++ batch_results)%list w'
          | (Raise e, w') => (Raise e, w')
          end
      end
  end.

(** The loop over single pages of [convert_file]. *)
Fixpoint convert_each (env : Env) (self : VisionParser) (pdf_document : list Page)
    (page_numbers : list nat) (converted_pages : list string) (w : World)
    : result (list string) * World :=
  match page_numbers with
  | [] => (Ok converted_pages, w)
  | page_number :: rest =>
      match nth_error pdf_document page_number with
      | None => (Raise (mk_exn IndexError "page not in document"), w)
      | Some page =>
          match run_task env (Task page_number)
                         (_convert_page env self page page_number) w with
          | (Ok text, w') =>
              convert_each env self pdf_document rest (converted_pages ++ [text])%list w'
          | (Raise e, w') => (Raise e, w')
          end
      end
  end.

Definition supported_suffixes : list string := [".pdf"; ".png"; ".jpg"; ".jpeg"].
Definition image_suffixes : list string := [".png"; ".jpg"; ".jpeg"].

(** The [try] block of [convert_file]. *)
Definition convert_opened (env : Env) (self : VisionParser) (sched : nat -> list nat)
    (entry : FileEntry) (suffix : string) (w : World) : result (list string) * World :=
  if Str.mem suffix image_suffixes then
    match open_image entry with
    | Raise e => (Raise e, w)
    | Ok page =>
        match run_task env (Task 0) (_convert_page env self page 0) w with
        | (Ok text, w') => (Ok [text], w')
        | (Raise e, w') => (Raise e, w')
        end
    end
  else
    match open_pdf entry with
    | Raise e => (Raise e, w)
    | Ok pdf_document =>
        let total_pages := List.length pdf_document in
        if enable_concurrency self then
          match range_step (Z.of_nat total_pages) (num_workers self) with
          | Raise e => (Raise e, w)
          | Ok starts => convert_batches env self sched pdf_document starts [] w
          end
        else convert_each env self pdf_document (seq 0 total_pages) [] w
    end.

(** [VisionParser.convert_file].  [sched] gives, for the batch starting at
    a page, the order in which the loop resumes its tasks.  The two checks
    come before the [try]: what [os.stat] raises there leaves as it is. *)
Definition convert_file (env : Env) (fs : filesystem) (self : VisionParser)
    (sched : nat -> list nat) (file_path : string) (w : World)
    : result (list string) * World :=
  let not_found :=
    mk_exn FileNotFoundError ("File not found: " ++ Path.to_str file_path) in
  match fs file_path with
  | None => (Raise not_found, w)
  | Some entry =>
      match is_file entry with
      | Raise e => (Raise e, w)
      | Ok false => (Raise not_found, w)
      | Ok true =>
          let suffix := Str.lower (Path.suffix file_path) in
          if negb (Str.mem suffix supported_suffixes) then
            (Raise (mk_exn UnsupportedFileError
                      ("Unsupported file type: " ++ Path.to_str file_path)), w)
          else
            match convert_opened env self sched entry suffix w with
            | (Ok converted_pages, w') => (Ok converted_pages, w')
            | (Raise e, w') =>
                if is_Exception e then
                  (Raise (mk_exn VisionParserError
                     ("Failed to convert PDF file into markdown content: " ++ str_exn e)), w')
                else (Raise e, w')
            end
      end
  end.

(** ** constants.py and the constructors *)

(** [SUPPORTED_MODELS], in insertion order. *)
Definition SUPPORTED_MODELS : list (string * string) :=
  [("gemini-1.5-flash", "gemini");
   ("gemini-2.0-flash-exp", "gemini");
   ("gemini-1.5-pro", "gemini")].

(** [d[key]]; [None] stands for the [KeyError]. *)
Fixpoint dict_get (d : list (string * string)) (key : string) : option string :=
  match d with
  | [] => None
  | (k, v) :: d' => if String.eqb key k then Some v else dict_get d' key
  end.

(** The [google.generativeai] package as [_init_llm] meets it: whether the
    import succeeds, and what [genai.configure(api_key=...)] followed by
    [genai.GenerativeModel(model_name=...)] does. *)
Record Genai : Type := mkGenai {
  importable : bool;
  make_client : option string -> string -> result unit
}.

(** How a constructor ends: with the object, with the [ImportError] of
    [_init_llm] (an [Exception]), or with another exception. *)
Inductive built (A : Type) : Type :=
| Built (a : A)
| Import_failed (msg : string)
| Init_raised (e : exn).
Arguments Built {A} a.
Arguments Import_failed {A} msg.
Arguments Init_raised {A} e.

(** [LLM._get_provider_name]. *)
Definition _get_provider_name (model_name : string) : result string :=
  match dict_get SUPPORTED_MODELS model_name with
  | Some provider => Ok provider
  | None =>
      let supported_models :=
        Str.join ", " (map (fun mp => "'" ++ fst mp ++ "' from " ++ snd mp) SUPPORTED_MODELS) in
      Raise (mk_exn UnsupportedModelError
               ("Model '" ++ model_name ++ "' is not supported. "
                ++ "Supported models are: " ++ supported_models))
  end.

(** [LLM._init_llm]. *)
Definition _init_llm (genai : Genai) (provider model_name : string)
    (api_key : option string) : built unit :=
  if negb (String.eqb provider "gemini") then
    Init_raised (mk_exn UnsupportedModelError
      ("Only Gemini models are supported. Model '" ++ model_name ++ "' is not supported."))
  else if negb (importable genai) then
    Import_failed
      "Gemini is not installed. Please install it using pip install 'vision-parse[gemini]'."
  else
    match make_client genai api_key model_name with
    | Ok _ => Built tt
    | Raise e =>
        if is_Exception e then
          Init_raised (mk_exn LLMError ("Unable to initialize Gemini client: " ++ str_exn e))
        else Init_raised e
    end.

(** [LLM.__init__]: the object, and the initial value of its
    [detailed_extraction] attribute.  [gemini_config], [device] and
    [num_workers] are stored and never read; [kwargs] is passed on to the
    generation config of every call. *)
Definition LLM_init (genai : Genai) (model_name : string) (api_key : option string)
    (temperature top_p : Q) (image_mode custom_prompt : option string)
    (detailed_extraction enable_concurrency : bool) : built (LLM * bool) :=
  match _get_provider_name model_name with
  | Raise e => Init_raised e
  | Ok provider =>
      match _init_llm genai provider model_name api_key with
      | Built _ =>
          Built (mkLLM temperature top_p image_mode custom_prompt enable_concurrency,
                 detailed_extraction)
      | Import_failed msg => Import_failed msg
      | Init_raised e => Init_raised e
      end
  end.

(** [VisionParser.__init__]; [workers] is the second component of
    [get_device_config()], a function of [utils.py]. *)
Definition VisionParser_init (genai : Genai) (workers : Z)
    (page_config : option PDFPageConfig) (model_name : string) (api_key : option string)
    (temperature top_p : Q) (image_mode custom_prompt : option string)
    (detailed_extraction enable_concurrency : bool) : built (VisionParser * bool) :=
  match LLM_init genai model_name api_key temperature top_p image_mode custom_prompt
                 detailed_extraction enable_concurrency with
  | Built (llm, detailed) =>
      Built (mkVisionParser
               (match page_config with Some cfg => cfg | None => default_page_config end)
               workers enable_concurrency llm,
             detailed)
  | Import_failed msg => Import_failed msg
  | Init_raised e => Init_raised e
  end.

(** ** main.py: the upload view *)

(** [s.split(sep)] for a one-character separator. *)
Fixpoint split_char (sep : ascii) (s : string) : list string :=
  match s with
  | EmptyString => [EmptyString]
  | String c s' =>
      if Ascii.eqb c sep then EmptyString :: split_char sep s'
      else match split_char sep s' with
           | x :: l => String c x :: l
           | [] => [String c EmptyString]
           end
  end.

(** [s.endswith(suffix)]. *)
Fixpoint ends_with (s suffix : string) : bool :=
  String.eqb s suffix ||
  match s with
  | EmptyString => false
  | String _ s' => ends_with s' suffix
  end.

(** The uploaded part [request.files['file']]: its client-side name and
    what its bytes are once written to disk. *)
Record upload : Type := mkUpload {
  filename : string;
  content : FileEntry
}.

(** The operating system under the view: [file.save(path)] and
    [os.remove(path)], with the file system they leave. *)
Record Host : Type := mkHost {
  file_save : filesystem -> string -> FileEntry -> result unit * filesystem;
  os_remove : filesystem -> string -> result unit * filesystem
}.

(** A JSON body: [{'error': msg}] or the list of
    [{"page": n, "content": text}]. *)
Inductive body : Type :=
| Error_body (msg : string)
| Pages_body (pages : list (nat * string)).

Record response : Type := mkResponse { status : nat; json : body }.

(** What the process holds between requests: the files on disk and the
    state of the module-level [parser]. *)
Record Server : Type := mkServer { files : filesystem; world : World }.

(** The module-level [parser] once built: [model_name="gemini-1.5-flash"],
    [temperature=0.2], [top_p=0.4], [image_mode="url"],
    [detailed_extraction=True], everything else by default. *)
Definition main_parser (workers : Z) : VisionParser :=
  mkVisionParser default_page_config workers false
                 (mkLLM (2 # 10) (4 # 10) (Some "url") None false).

(** [file.filename.split('.')[-1]]. *)
Definition extension (name : string) : string :=
  last (split_char "."%char name) EmptyString.

(** [temp_path]. *)
Definition temp_path (file : upload) : string := "temp." ++ extension (filename file).

(** [enumerate(l)]. *)
Definition enumerate {A : Type} (l : list A) : list (nat * A) :=
  combine (seq 0 (List.length l)) l.

(** How the [try] block of [process_file] is left.  [parser.convert_image]
    is looked up on a class that has no such attribute, which raises
    [AttributeError], an [Exception]. *)
Inductive attempt : Type :=
| Responds (r : response)
| Raises (e : exn)
| Raises_AttributeError (msg : string).

(** The [try] block of [process_file]; logging is left out. *)
Definition process_file_try (env : Env) (host : Host) (workers : Z)
    (file_part : option upload) (s : Server) : attempt * Server :=
  match file_part with
  | None => (Responds (mkResponse 400 (Error_body "No file part")), s)
  | Some file =>
      if String.eqb (filename file) "" then
        (Responds (mkResponse 400 (Error_body "No selected file")), s)
      else
        match file_save host (files s) (temp_path file) (content file) with
        | (Raise e, fs1) => (Raises e, mkServer fs1 (world s))
        | (Ok _, fs1) =>
            if ends_with (Str.lower (temp_path file)) ".pdf" then
              match convert_file env fs1 (main_parser workers) (fun _ => [])
                                 (temp_path file) (world s) with
              | (Raise e, w') => (Raises e, mkServer fs1 w')
              | (Ok markdown_pages, w') =>
                  match os_remove host fs1 (temp_path file) with
                  | (Raise e, fs2) => (Raises e, mkServer fs2 w')
                  | (Ok _, fs2) =>
                      (Responds
                         (mkResponse 200
                            (Pages_body (map (fun ic => (fst ic + 1, snd ic))%nat
                                             (enumerate markdown_pages)))),
                       mkServer fs2 w')
                  end
              end
            else if existsb (ends_with (Str.lower (temp_path file)))
                            [".jpg"; ".jpeg"; ".png"] then
              (Raises_AttributeError "'VisionParser' object has no attribute 'convert_image'",
               mkServer fs1 (world s))
            else
              (Responds (mkResponse 400 (Error_body "Unsupported file type")),
               mkServer fs1 (world s))
        end
  end.

(** [process_file]: what the [try] block returns, or a 500 for an
    [Exception]; anything else leaves the view. *)
Definition process_file (env : Env) (host : Host) (workers : Z)
    (file_part : option upload) (s : Server) : result response * Server :=
  match process_file_try env host workers file_part s with
  | (Responds r, s') => (Ok r, s')
  | (Raises e, s') =>
      if is_Exception e then (Ok (mkResponse 500 (Error_body (str_exn e))), s')
      else (Raise e, s')
  | (Raises_AttributeError msg, s') => (Ok (mkResponse 500 (Error_body msg)), s')
  end.

(** ** Specification vocabulary *)

Definition owner_eqb (a b : owner) : bool :=
  match a, b with
  | Task i, Task j => Nat.eqb i j
  | Driver, Driver => true
  | _, _ => false
  end.

(** The effects of one owner within a trace, oldest first. *)
Definition events_of (o : owner) (tr : list (owner * event)) : list event :=
  map snd (filter (fun x => owner_eqb (fst x) o) tr).

(** The effects [evs], all performed by [o]. *)
Definition tagged (o : owner) (evs : list event) : list (owner * event) :=
  map (pair o) evs.

(** One markdown image reference. *)
Definition reference (target : ImageData -> string) (image_data : ImageData) : string :=
  Str.nl ++ Str.nl ++ "![" ++ image_url image_data ++ "](" ++ target image_data ++ ")".

Fixpoint concat_strings (l : list string) : string :=
  match l with
  | [] => EmptyString
  | s :: l' => s ++ concat_strings l'
  end.

(** The request of the structured analysis of a page. *)
Definition analysis_request (env : Env) (self : LLM) (base64_encoded : string) : request :=
  generation_request self base64_encoded (image_analysis_prompt env) true.

(** The request of the simple path. *)
Definition simple_request (env : Env) (self : LLM) (base64_encoded : string) : request :=
  generation_request self base64_encoded (simple_prompt env self) false.

(** What [page.get_pixmap] returns for the settings of the parser. *)
Definition rendered (self : VisionParser) (env : Env) (page : Page) : result Pixmap :=
  get_pixmap page (_calculate_matrix env (page_config self) page)
             (preserve_transparency (page_config self))
             (color_space (page_config self))
             (include_annotations (page_config self)).

(** The effects performed between two worlds. *)
Definition new_events (w w' : World) : list (owner * event) :=
  skipn (List.length (trace w)) (trace w').

(** The images handed back by the extractions recorded in a trace. *)
Definition extracted (evs : list (owner * event)) : list ImageData :=
  flat_map (fun x => match snd x with
                     | EvExtract _ _ (Ok l) => l
                     | _ => []
                     end) evs.

(** The references that a list of images contributes under a mode. *)
Definition references (mode : option string) (imgs : list ImageData) : string :=
  match mode with
  | Some m =>
      if String.eqb m "url" then concat_strings (map (reference image_url) imgs)
      else if String.eqb m "base64" then concat_strings (map (reference base64_encoded) imgs)
      else EmptyString
  | None => EmptyString
  end.

(** A coroutine replayed against the effects it observed: what is left of
    it afterwards. *)
Fixpoint feed {A : Type} (p : prog A) (evs : list event) {struct evs} : option (prog A) :=
  match evs with
  | [] => Some p
  | ev :: evs' =>
      match p, ev with
      | ReadFlag k, EvReadFlag b => feed (k b) evs'
      | ClearFlag k, EvClearFlag => feed k evs'
      | CallModel _ _ k, EvCall _ _ out => feed (k out) evs'
      | ExtractImages _ _ _ k, EvExtract _ _ out => feed (k out) evs'
      | Sleep _ k, EvSleep _ => feed k evs'
      | _, _ => None
      end
  end.

(** What is left to run of a task. *)
Definition residual {A : Type} (t : task A) : prog A :=
  match t with
  | Suspended p => p
  | Finished (Ok a) => Ret a
  | Finished (Raise e) => Throw e
  end.

(** An effect of the simple path: the flag is read as off, the service is
    asked for free text with the default prompt, no image is extracted. *)
Definition simple_event (env : Env) (self : LLM) (x : owner * event) : Prop :=
  match snd x with
  | EvReadFlag b => b = false
  | EvClearFlag => True
  | EvCall _ req _ => req_structured req = false /\ req_prompt req = simple_prompt env self
  | EvExtract _ _ _ => False
  | EvSleep _ => True
  end.

(** A coroutine that, as long as it reads the flag as off, stays on the
    simple path. *)
Inductive simple_prog {A : Type} (env : Env) (self : LLM) : prog A -> Prop :=
| simple_Ret a : simple_prog env self (Ret a)
| simple_Throw e : simple_prog env self (Throw e)
| simple_ReadFlag k :
    simple_prog env self (k false) -> simple_prog env self (ReadFlag k)
| simple_ClearFlag k :
    simple_prog env self k -> simple_prog env self (ClearFlag k)
| simple_CallModel async req k :
    req_structured req = false ->
    req_prompt req = simple_prompt env self ->
    (forall out, simple_prog env self (k out)) ->
    simple_prog env self (CallModel async req k)
| simple_Sleep secs k :
    simple_prog env self k -> simple_prog env self (Sleep secs k).

Definition is_extract (x : owner * event) : bool :=
  match snd x with EvExtract _ _ _ => true | _ => false end.

(** The exact rotation matrix of an angle: [(cos, sin, -sin, cos, 0, 0)]. *)
Definition cos_sin (env : Env) (theta : Z) : Q * Q :=
  let t := norm_angle theta in
  if (t =? 0)%Z then (1, 0)
  else if (t =? 90)%Z then (0, 1)
  else if (t =? 180)%Z then (-(1), 0)
  else if (t =? 270)%Z then (0, -(1))
  else trig env t.

Definition rotation_matrix (env : Env) (theta : Z) : Matrix :=
  let '(c, s) := cos_sin env theta in mkMatrix c s (- s) c 0 0.

(** Since [w0] the flag is off and every effect belongs to the simple path. *)
Definition simple_since (env : Env) (self : LLM) (w0 w : World) : Prop :=
  detailed_extraction w = false /\
  exists evs, trace w = (trace w0 ++ evs)%list /\ Forall (simple_event env self) evs.

(** A pool on the simple path. *)
Definition pool_simple {A : Type} (env : Env) (self : LLM) (w0 : World) (P : pool A) : Prop :=
  Forall (fun t => simple_prog env self (residual t)) (slots P) /\
  simple_since env self w0 (pool_world P).

(** Every slot holds what is left of its coroutine after the effects its
    task performed so far; nobody else left a mark. *)
Definition pool_replays {A : Type} (env : Env) (coros : list (prog A)) (start_idx : nat)
    (w0 : World) (P : pool A) : Prop :=
  exists evs,
    trace (pool_world P) = (trace w0 ++ evs)%list /\
    List.length (slots P) = List.length coros /\
    (forall j c t,
       nth_error coros j = Some c -> nth_error (slots P) j = Some t ->
       feed c (events_of (Task (start_idx + j)) evs) = Some (residual t)) /\
    (forall o, (forall j, (j < List.length coros)%nat -> o <> Task (start_idx + j)) ->
       events_of o evs = []).

(** Pages [0 .. c) are converted: [acc] holds their markdown in page order,
    each entry being what the coroutine of its page returns on the effects
    of that page's own task, and no later page has left a mark. *)
Definition converted_upto (env : Env) (self : VisionParser) (pdf_document : list Page)
    (c : nat) (acc : list string) (evs : list (owner * event)) : Prop :=
  List.length acc = c /\
  (forall i page, (i < c)%nat -> nth_error pdf_document i = Some page ->
     exists text, nth_error acc i = Some text /\
       feed (_convert_page env self page i) (events_of (Task i) evs) = Some (Ret text)) /\
  (forall m, (c <= m)%nat -> events_of (Task m) evs = []).

(** [starts] cuts pages [c .. n) into consecutive batches of at most [W]
    pages. *)
Fixpoint batches_from (n W c : nat) (starts : list Z) : Prop :=
  match starts with
  | [] => c = n
  | i :: rest =>
      (0 <= i)%Z /\ Z.to_nat i = c /\ (c < n)%nat /\
      batches_from n W (c + Nat.min W (n - c)) rest
  end.

(** What a coroutine is bound to do when every call of the service is
    answered.  [off] records that the flag is known to be off; [Q] and [E]
    are what must hold when it returns or raises. *)
Fixpoint wp {A : Type} (env : Env) (off : bool) (p : prog A)
    (Q : bool -> A -> Prop) (E : bool -> exn -> Prop) : Prop :=
  match p with
  | Ret a => Q off a
  | Throw e => E off e
  | ReadFlag k =>
      wp env true (k false) Q E /\ (off = false -> wp env false (k true) Q E)
  | ClearFlag k => wp env true k Q E
  | CallModel _ _ k => forall text, wp env off (k (Ok text)) Q E
  | ExtractImages pix mode pn k => wp env off (k (extract_images env pix mode pn)) Q E
  | Sleep _ k => wp env off k Q E
  end.

(** A coroutine that returns whenever the service answers. *)
Definition returns {A : Type} (env : Env) (p : prog A) : Prop :=
  wp env false p (fun _ _ => True) (fun _ _ => False).

(** The service answers every call. *)
Definition always_answers (env : Env) : Prop :=
  forall n req, exists text, backend env n req = Ok text.

(** The decoder and the extractor fail with an [Exception] when they fail. *)
Definition collaborators_raise_exceptions (env : Env) : Prop :=
  (forall s e, model_validate_json env s = Raise e -> is_Exception e = true) /\
  (forall pix mode n e, extract_images env pix mode n = Raise e -> is_Exception e = true).

(** Every page of the document can be rendered and encoded. *)
Definition renders (doc : list Page) : Prop :=
  forall page, In page doc ->
  forall m alpha cs annots,
    exists pix image,
      get_pixmap page m alpha cs annots = Ok pix /\ png_base64 pix = Ok image.

(** A slot whose task returns, given what it may assume about the flag. *)
Definition slot_returns {A : Type} (env : Env) (w : World) (t : task A) : Prop :=
  exists off,
    wp env off (residual t) (fun _ _ => True) (fun _ _ => False) /\
    (off = true -> detailed_extraction w = false).

(** ** Further vocabulary *)

Module Text.

(** [p in s]. *)
Fixpoint occurs (p s : string) : bool :=
  match Str.strip_prefix p s with
  | Some _ => true
  | None =>
      match s with
      | EmptyString => false
      | String _ s' => occurs p s'
      end
  end.

(** [c not in s]. *)
Fixpoint lacks (c : ascii) (s : string) : bool :=
  match s with
  | EmptyString => true
  | String d s' => negb (Ascii.eqb d c) && lacks c s'
  end.


End Text.

(** The pages of the batch that starts at page [i]:
    [range(i, i + min(num_workers, total_pages - i))]. *)
Definition batch_range (total_pages num_workers i : Z) : list nat :=
  seq (Z.to_nat i) (Z.to_nat (Z.min num_workers (total_pages - i))).

(** The determinant of the linear part of a matrix. *)
Definition det (m : Matrix) : Q := ma m * md m - mb m * mc m.


(** The server after a sequence of requests. *)
Definition serve (env : Env) (host : Host) (workers : Z)
    (requests : list (option upload)) (s : Server) : Server :=
  fold_left (fun s file_part => snd (process_file env host workers file_part s)) requests s.

(** ** Invariants of tasks *)

(** The world moved from [w] to [w'] by effects of [o] alone; the flag is
    only ever cleared. *)
Definition stepped (o : owner) (w w' : World) : Prop :=
  (exists evs, trace w' = (trace w ++ tagged o evs)%list) /\
  (detailed_extraction w = false -> detailed_extraction w' = false).

(** A property [G i w p] of the task of page [i], of the world and of what
    is left of the task, that the task keeps when it runs and that the
    effects of anybody else leave alone. *)
Record task_invariant {A : Type} (env : Env) (G : nat -> World -> prog A -> Prop)
    : Prop := mk_task_invariant {
  inv_advance : forall i p w,
    G i w p ->
    G i (snd (advance env (Task i) p w)) (residual (fst (advance env (Task i) p w)));
  inv_run : forall i p w,
    G i w p ->
    G i (snd (run_task env (Task i) p w))
        (residual (Finished (fst (run_task env (Task i) p w))));
  inv_frame : forall i o p w w',
    o <> Task i -> stepped o w w' -> G i w p -> G i w' p
}.

(** A property of the world that the tasks of pages [lo .. hi) leave
    alone. *)
Definition closed_under (lo hi : nat) (Fr : World -> Prop) : Prop :=
  forall k w w', (lo <= k < hi)%nat -> stepped (Task k) w w' -> Fr w -> Fr w'.

(** A pool whose slots satisfy [G]; the exception it recorded is that of
    one of its finished tasks. *)
Definition pool_holds {A : Type} (G : nat -> World -> prog A -> Prop)
    (Fr : World -> Prop) (start_idx : nat) (P : pool A) : Prop :=
  (forall j t, nth_error (slots P) j = Some t ->
     G (start_idx + j)%nat (pool_world P) (residual t)) /\
  Fr (pool_world P) /\
  (forall e, first_exc P = Some e ->
     exists j, nth_error (slots P) j = Some (Finished (Raise e))).

(** Between two batches: pages [0 .. c) were handed to a task, [acc] holds
    what the finished ones returned, the pages from [c] on are untouched. *)
Definition pages_hold (env : Env) (self : VisionParser) (doc : list Page)
    (G : nat -> World -> prog string -> Prop) (Fr : World -> Prop)
    (c : nat) (acc : list string) (w : World) : Prop :=
  Fr w /\ List.length acc = c /\
  (forall i text, nth_error acc i = Some text -> G i w (Ret text)) /\
  (forall i page, nth_error doc i = Some page ->
     if (i <? c)%nat then exists p, G i w p
     else G i w (_convert_page env self page i)).

(** At the end of a conversion: every page has a task state satisfying
    [G], and a returned list holds what the tasks returned. *)
Definition pages_held (doc : list Page) (G : nat -> World -> prog string -> Prop)
    (Fr : World -> Prop) (out : result (list string) * World) : Prop :=
  Fr (snd out) /\
  (forall i page, nth_error doc i = Some page -> exists p, G i (snd out) p) /\
  match fst out with
  | Ok results =>
      (List.length results <= List.length doc)%nat /\
      forall i text, nth_error results i = Some text -> G i (snd out) (Ret text)
  | Raise _ => True
  end.

(** What a coroutine is bound to do when its task runs on the loop among
    others that may clear the flag.  [evs] are the effects the task has had
    so far and [off] records that the flag is known to be off.  [I] holds
    of the effects of the task at every step; [Q] holds of them and of the
    outcome at the end. *)
Fixpoint holds {A : Type} (env : Env) (off : bool) (evs : list event) (p : prog A)
    (I : list event -> Prop) (Q : bool -> list event -> result A -> Prop) : Prop :=
  I evs /\
  match p with
  | Ret a => Q off evs (Ok a)
  | Throw e => Q off evs (Raise e)
  | ReadFlag k =>
      holds env true (evs ++ [EvReadFlag false]) (k false) I Q /\
      (off = false -> holds env false (evs ++ [EvReadFlag true]) (k true) I Q)
  | ClearFlag k => holds env true (evs ++ [EvClearFlag]) k I Q
  | CallModel async req k =>
      forall n,
        holds env off (evs ++ [EvCall async req (backend env n req)])
              (k (backend env n req)) I Q
  | ExtractImages pix mode pn k =>
      holds env off (evs ++ [EvExtract mode pn (extract_images env pix mode pn)])
            (k (extract_images env pix mode pn)) I Q
  | Sleep secs k => holds env off (evs ++ [EvSleep secs]) k I Q
  end.

(** The task of page [i], in a world reached from [w0], with [p] left to
    run: [p] is bound to keep [I i] and to end in [Q i], given the effects
    the task has had since [w0]. *)
Definition task_holds {A : Type} (env : Env) (w0 : World)
    (I : nat -> list event -> Prop) (Q : nat -> bool -> list event -> result A -> Prop)
    (i : nat) (w : World) (p : prog A) : Prop :=
  exists off evs,
    trace w = (trace w0 ++ evs)%list /\
    holds env off (events_of (Task i) evs) p (I i) (Q i) /\
    (off = true -> detailed_extraction w = false).

(** An effect of the task of one of the first [n] pages, or a pause of the
    batch driver. *)
Definition page_task_or_pause (n : nat) (x : owner * event) : Prop :=
  match fst x with
  | Task k => (k < n)%nat
  | Driver => snd x = EvSleep (1 # 2)
  end.

(** Since [w0], the tasks of the first [n] pages and the pauses of the
    driver are all that happened. *)
Definition only_pages (w0 : World) (n : nat) (w : World) : Prop :=
  exists evs, trace w = (trace w0 ++ evs)%list /\ Forall (page_task_or_pause n) evs.

(** The pages that [convert_file] converts: the page made of an image, or
    the pages of a PDF. *)
Definition opened_pages (entry : FileEntry) (suffix : string) : result (list Page) :=
  if Str.mem suffix image_suffixes then
    match open_image entry with
    | Ok page => Ok [page]
    | Raise e => Raise e
    end
  else open_pdf entry.

(** How many calls of the service a list of effects holds. *)
Definition calls_in (evs : list event) : nat :=
  List.length (filter (fun ev => match ev with EvCall _ _ _ => true | _ => false end) evs).

(** An effect that the conversion of a page may have: a read or a reset of
    the flag, a call that carries the image of that page with one of the
    three requests of [generate_markdown] through the client method chosen
    by [enable_concurrency], or the extraction of the images of that page.
    It never sleeps. *)
Definition page_effect (env : Env) (self : LLM) (base64_encoded : string)
    (page_number : nat) (ev : event) : Prop :=
  match ev with
  | EvReadFlag _ | EvClearFlag => True
  | EvCall async req _ =>
      async = llm_enable_concurrency self /\
      (req = analysis_request env self base64_encoded \/
       req = simple_request env self base64_encoded \/
       exists d, req = generation_request self base64_encoded
                                          (detailed_prompt env self d) false)
  | EvExtract mode pn _ => image_mode self = Some mode /\ pn = page_number
  | EvSleep _ => False
  end.

(** The effects of a task that converts a page: allowed effects, with at
    most [limit] calls among them. *)
Definition page_run (env : Env) (self : LLM) (base64_encoded : string)
    (page_number limit : nat) (evs : list event) : Prop :=
  Forall (page_effect env self base64_encoded page_number) evs /\
  (calls_in evs <= limit)%nat.

(** The image of a page that [_convert_page] hands to the model. *)
Definition page_image (self : VisionParser) (env : Env) (page : Page) : result string :=
  match rendered self env page with
  | Ok pix => png_base64 pix
  | Raise e => Raise e
  end.

(** The effects of the task of page [i] of a document, for the image the
    page is rendered to; a page that cannot be rendered or encoded has
    none. *)
Definition page_task_run (env : Env) (self : VisionParser) (doc : list Page)
    (limit i : nat) (evs : list event) : Prop :=
  forall page, nth_error doc i = Some page ->
    match page_image self env page with
    | Ok image => page_run env (llm self) image i limit evs
    | Raise _ => evs = []
    end.

(** The markdown of a page on the simple path: the unfenced answer to a
    call that carried the image of the page with the default prompt. *)
Definition simple_markdown (env : Env) (self : VisionParser) (page : Page)
    (text : string) : Prop :=
  exists image n answer,
    page_image self env page = Ok image /\
    backend env n (simple_request env (llm self) image) = Ok answer /\
    text = Fence.strip_fences answer.

(** A service whose answer depends on the request alone. *)
Definition stateless (env : Env) : Prop :=
  forall n m req, backend env n req = backend env m req.

(** The effects of a conversion of [doc]: those of the task of a page are
    effects of that page, rendered with the settings of the parser; the
    driver only pauses, for half a second. *)
Definition footprint (env : Env) (self : VisionParser) (doc : list Page)
    (x : owner * event) : Prop :=
  match fst x with
  | Task i =>
      exists page image,
        nth_error doc i = Some page /\ page_image self env page = Ok image /\
        page_effect env (llm self) image i (snd x)
  | Driver => snd x = EvSleep (1 # 2)
  end.

(** Since [w0] the driver paused [k] times, half a second each, and did
    nothing else. *)
Definition paused (w0 : World) (k : nat) (w : World) : Prop :=
  exists evs,
    trace w = (trace w0 ++ evs)%list /\
    events_of Driver evs = repeat (EvSleep (1 # 2)) k.

(** Task [i] of a join replays: what is left of it is what is left of its
    coroutine after the effects the task has had since [w0]. *)
Definition task_replays {A : Type} (w0 : World) (start_idx : nat) (coros : list (prog A))
    (i : nat) (w : World) (p : prog A) : Prop :=
  exists evs c,
    trace w = (trace w0 ++ evs)%list /\
    nth_error coros (i - start_idx) = Some c /\
    feed c (events_of (Task i) evs) = Some p.

(** Since [w0] only the tasks of pages [lo .. hi) had effects. *)
Definition only_tasks (w0 : World) (lo hi : nat) (w : World) : Prop :=
  exists evs,
    trace w = (trace w0 ++ evs)%list /\
    forall o, (forall k, (lo <= k < hi)%nat -> o <> Task k) -> events_of o evs = [].

(** How a loop over the pages fails: the conversion of a page [k] ended
    with [e], [k] lying in a window of [width] pages that starts at [c];
    the pages before [c] were converted, the pages after the window were
    not touched. *)
Definition failed_in_window (env : Env) (self : VisionParser) (doc : list Page)
    (w0 : World) (width : nat) (e : exn) (w' : World) : Prop :=
  exists evs c k page,
    trace w' = (trace w0 ++ evs)%list /\
    (c <= k < c + width)%nat /\
    nth_error doc k = Some page /\
    feed (_convert_page env self page k) (events_of (Task k) evs) = Some (Throw e) /\
    (forall i pg, (i < c)%nat -> nth_error doc i = Some pg ->
       exists text,
         feed (_convert_page env self pg i) (events_of (Task i) evs) = Some (Ret text)) /\
    (forall m, (c + width <= m)%nat -> events_of (Task m) evs = []).


(** ** Answers with fenced blocks *)









(** ** The fallback *)







(** ** A concrete setting for examples *)

Module Demo.

Definition page (tag : string) : Page :=
  mkPage 0 (fun _ _ _ _ => Ok (mkPixmap (Ok tag))).

(** A page that cannot be rendered. *)
Definition broken_page : Page :=
  mkPage 0 (fun _ _ _ _ => Raise (mk_exn RuntimeError "cannot render")).

(** A page that is rendered to a pixmap that cannot be encoded. *)
Definition blank_page : Page :=
  mkPage 0 (fun _ _ _ _ => Ok (mkPixmap (Raise (mk_exn ValueError "cannot encode")))).

Definition ten_pages : list Page :=
  [page "p0"; page "p1"; page "p2"; page "p3"; page "p4";
   page "p5"; page "p6"; page "p7"; page "p8"; page "p9"].

Definition files (path : string) : option FileEntry :=
  if String.eqb path "missing.pdf" then None
  else if String.eqb path "two.pdf" then
    Some (mkFileEntry (Ok true) (Ok [page "p0"; page "p1"]) (Raise (mk_exn RuntimeError "not an image")))
  else if String.eqb path "broken.pdf" then
    Some (mkFileEntry (Ok true) (Ok [broken_page]) (Raise (mk_exn RuntimeError "not an image")))
  else
    Some (mkFileEntry (Ok true) (Ok ten_pages) (Ok (page "img"))).

Definition render (extracted_text tables latex : string) (confidence : Q)
    (custom : option string) : string :=
  "text=" ++ extracted_text ++ ";tables=" ++ tables ++ ";latex=" ++ latex
  ++ match custom with Some c => ";" ++ c | None => "" end.

Definition no_text : ImageDescription := mkImageDescription No No No No "" 0.

Definition figure : ImageData := mkImageData "img/p0_1.png" "aGVsbG8=".

Definition with_images : ImageDescription :=
  mkImageDescription Yes No Yes No "A figure" (9 # 10).

(** A decoder that knows two documents. *)
Definition decode (s : string) : result ImageDescription :=
  if String.eqb s "{no text}" then Ok no_text
  else if String.eqb s "{images}" then Ok with_images
  else Raise (mk_exn ValidationError "invalid JSON").

(** An environment around a given service. *)
Definition env_of (service : nat -> request -> result string) : Env :=
  mkEnv service (fun _ _ _ => Ok [figure]) decode "analyse this page" render
        (fun _ => (0, 0)).

(** A service that always answers, echoing the image. *)
Definition echo (n : nat) (req : request) : result string :=
  Ok ("# " ++ req_image req).

(** A service whose first [k] calls fail. *)
Definition flaky (k : nat) (n : nat) (req : request) : result string :=
  if (n <? k)%nat then Raise (mk_exn RuntimeError "503 unavailable")
  else Ok ("# " ++ req_image req).

(** A service that fails on one page only. *)
Definition fails_on (tag : string) (n : nat) (req : request) : result string :=
  if String.eqb (req_image req) tag then Raise (mk_exn RuntimeError "503 unavailable")
  else Ok ("# " ++ req_image req).

(** A service that answers a structured call with [description] and any
    other call with markdown. *)
Definition describing (description : string) (n : nat) (req : request) : result string :=
  if req_structured req then Ok description else Ok ("# " ++ req_image req).



Definition an_llm (mode : option string) (concurrent : bool) : LLM :=
  mkLLM (7 # 10) (7 # 10) mode None concurrent.

Definition parser (workers : Z) (concurrent : bool) : VisionParser :=
  mkVisionParser default_page_config workers concurrent (an_llm None concurrent).

Definition fresh (detailed : bool) : World := mkWorld detailed [].

End Demo.

(** ** A concrete host for examples *)

Module DemoHost.

Definition write (fs : filesystem) (path : string) (c : FileEntry) : filesystem :=
  fun p => if String.eqb p path then Some c else fs p.

Definition delete (fs : filesystem) (path : string) : filesystem :=
  fun p => if String.eqb p path then None else fs p.

(** A disk on which saving and removing succeed. *)
Definition disk : Host :=
  mkHost (fun fs path c => (Ok tt, write fs path c))
         (fun fs path => (Ok tt, delete fs path)).

Definition nothing : filesystem := fun _ => None.

Definition two_pages : FileEntry :=
  mkFileEntry (Ok true) (Ok [Demo.page "p0"; Demo.page "p1"])
              (Raise (mk_exn RuntimeError "not an image")).

Definition picture : FileEntry :=
  mkFileEntry (Ok true) (Raise (mk_exn RuntimeError "not a PDF")) (Ok (Demo.page "img")).

Definition no_pages : FileEntry :=
  mkFileEntry (Ok true) (Ok []) (Raise (mk_exn RuntimeError "not an image")).

(** The server as it starts: nothing on disk, detailed extraction on. *)
Definition started : Server := mkServer nothing (Demo.fresh true).

Definition installed : Genai := mkGenai true (fun _ _ => Ok tt).

End DemoHost.

(** * Facts *)

Module StrFacts.
Import Str.

Lemma append_assoc (a b c : string) : (a ++ b) ++ c = a ++ (b ++ c).
Proof. induction a as [|x a IH]; simpl; [reflexivity | now rewrite IH]. Qed.

Lemma append_nil_r (a : string) : a ++ "" = a.
Proof. induction a as [|x a IH]; simpl; [reflexivity | now rewrite IH]. Qed.

Lemma length_append (a b : string) :
  String.length (a ++ b) = (String.length a + String.length b)%nat.
Proof. induction a as [|x a IH]; simpl; [reflexivity | now rewrite IH]. Qed.

Lemma strip_prefix_length p s r :
  strip_prefix p s = Some r ->
  String.length s = (String.length p + String.length r)%nat.
Proof.
  revert s; induction p as [|a p IH]; intros s H; simpl in *.
  - now inversion H.
  - destruct s as [|b s]; [discriminate|].
    destruct (Ascii.eqb a b); [|discriminate].
    simpl; f_equal; now apply IH.
Qed.



End StrFacts.

(** ** The regex *)

Module FenceFacts.
Import Str StrFacts Fence.

Lemma split_close_length s g rest :
  split_close s = Some (g, rest) ->
  String.length s = (String.length g + 4 + String.length rest)%nat.
Proof.
  revert g rest; induction s as [|c s IH]; intros g rest H.
  - discriminate.
  - cbn [split_close] in H.
    destruct (strip_prefix closing (String c s)) as [r|] eqn:E.
    + inversion H; subst. apply strip_prefix_length in E.
      rewrite E; reflexivity.
    + destruct (split_close s) as [[g' rest']|] eqn:E'; [|discriminate].
      inversion H; subst. simpl. rewrite (IH _ _ eq_refl). lia.
Qed.





Lemma strip_fences_skip c s :
  match_here (String c s) = None ->
  strip_fences (String c s) = String c (strip_fences s).
Proof.
  intros E. unfold strip_fences. cbn [String.length sub_fences]. now rewrite E.
Qed.

Lemma strip_fences_empty : strip_fences "" = "".
Proof. reflexivity. Qed.





End FenceFacts.

(** ** The interpreters *)

Module LoopFacts.

Lemma run_task_bind {A B : Type} env o (p : prog A) (f : A -> prog B) w :
  run_task env o (bind p f) w =
  match run_task env o p w with
  | (Ok a, w1) => run_task env o (f a) w1
  | (Raise e, w1) => (Raise e, w1)
  end.
Proof. revert w; induction p; intros w; simpl; auto. Qed.

Lemma run_task_on_raise {A : Type} env o (p : prog A) h w :
  run_task env o (on_raise p h) w =
  match run_task env o p w with
  | (Ok a, w1) => (Ok a, w1)
  | (Raise e, w1) => run_task env o (h e) w1
  end.
Proof. revert w; induction p; intros w; simpl; auto. Qed.

Lemma run_task_except {A : Type} env o (p : prog A) h w :
  run_task env o (except_Exception p h) w =
  match run_task env o p w with
  | (Ok a, w1) => (Ok a, w1)
  | (Raise e, w1) => if is_Exception e then run_task env o (h e) w1 else (Raise e, w1)
  end.
Proof.
  unfold except_Exception. rewrite run_task_on_raise.
  destruct (run_task env o p w) as [[a|e] w1]; [reflexivity|].
  destruct (is_Exception e); reflexivity.
Qed.

Lemma run_task_finally {A : Type} env o (p : prog A) q w :
  run_task env o (try_finally p q) w =
  match run_task env o p w with
  | (Ok a, w1) =>
      match run_task env o q w1 with
      | (Ok _, w2) => (Ok a, w2)
      | (Raise e, w2) => (Raise e, w2)
      end
  | (Raise e, w1) =>
      match run_task env o q w1 with
      | (Ok _, w2) => (Raise e, w2)
      | (Raise e', w2) => (Raise e', w2)
      end
  end.
Proof.
  revert w; induction p; intros w; cbn [try_finally run_task]; auto.
  - rewrite run_task_bind. destruct (run_task env o q w) as [[u|e] w1]; reflexivity.
  - rewrite run_task_bind. destruct (run_task env o q w) as [[u|e'] w1]; reflexivity.
Qed.

Lemma run_task_lift {A : Type} env o (r : result A) w :
  run_task env o (lift r) w = (r, w).
Proof. destruct r; reflexivity. Qed.

(** The flag is only ever cleared. *)
Lemma run_task_flag {A : Type} env o (p : prog A) w :
  detailed_extraction w = false ->
  detailed_extraction (snd (run_task env o p w)) = false.
Proof. revert w; induction p; intros w Hw; simpl; auto. Qed.

Lemma advance_flag {A : Type} env o (p : prog A) w :
  detailed_extraction w = false ->
  detailed_extraction (snd (advance env o p w)) = false.
Proof.
  revert w; induction p; intros w Hw; simpl; auto.
  destruct async; simpl; auto.
Qed.

(** A decorated call of the service: what one run of [_gemini] does.  The
    first attempt is the only one: whatever the client raises leaves the
    body as an [LLMError] or as some other [BaseException], and the retry
    condition accepts neither. *)
Lemma run_gemini env o self base64_encoded prompt structured w :
  run_task env o (_gemini self base64_encoded prompt structured) w =
  let req := generation_request self base64_encoded prompt structured in
  let out := backend env (calls_made w) req in
  (match out with
   | Ok text => Ok (Fence.strip_fences text)
   | Raise e =>
       Raise (if is_Exception e
              then mk_exn LLMError ("Gemini Model processing failed: " ++ str_exn e)
              else e)
   end,
   log o (EvCall (llm_enable_concurrency self) req out) w).
Proof.
  unfold _gemini, Tenacity.retry, _gemini_body. cbn [Nat.sub Tenacity.attempts].
  rewrite run_task_on_raise, run_task_except. cbn [run_task].
  destruct (backend env (calls_made w) _) as [text|e]; cbn [run_task]; [reflexivity|].
  destruct (is_Exception e) eqn:E; cbn [run_task].
  - reflexivity.
  - unfold Tenacity.retry_if_exception_type. rewrite E. reflexivity.
Qed.

End LoopFacts.

(** ** The world *)

Module WorldFacts.

Lemma new_events_app w w' evs :
  trace w' = (trace w ++ evs)%list -> new_events w w' = evs.
Proof.
  unfold new_events; intros ->.
  rewrite skipn_app, Nat.sub_diag, skipn_all. reflexivity.
Qed.

Lemma calls_made_log o ev w :
  calls_made (log o ev w) =
  (calls_made w + if is_call (o, ev) then 1 else 0)%nat.
Proof.
  unfold calls_made, log; cbn [trace].
  rewrite filter_app, length_app. cbn [filter].
  destruct (is_call (o, ev)); reflexivity.
Qed.

Lemma log_log o1 e1 o2 e2 w :
  log o2 e2 (log o1 e1 w) =
  mkWorld (detailed_extraction w) (trace w ++ [(o1, e1); (o2, e2)])%list.
Proof. unfold log; cbn. now rewrite <- app_assoc. Qed.

End WorldFacts.

(** ** Extraction of one page *)

Module ExtractionFacts.
Import Str StrFacts Fence FenceFacts LoopFacts WorldFacts.

Lemma trace_log o ev w : trace (log o ev w) = (trace w ++ [(o, ev)])%list.
Proof. reflexivity. Qed.

Lemma flag_log o ev w : detailed_extraction (log o ev w) = detailed_extraction w.
Proof. reflexivity. Qed.

Lemma fold_url imgs : forall acc,
  fold_left url_reference imgs acc
  = acc ++ concat_strings (map (reference image_url) imgs).
Proof.
  induction imgs as [|i imgs IH]; intros acc; cbn [fold_left map concat_strings].
  - now rewrite append_nil_r.
  - rewrite IH. change (url_reference acc i) with (acc ++ reference image_url i).
    now rewrite append_assoc.
Qed.

Lemma fold_base64 imgs : forall acc,
  fold_left base64_reference imgs acc
  = acc ++ concat_strings (map (reference base64_encoded) imgs).
Proof.
  induction imgs as [|i imgs IH]; intros acc; cbn [fold_left map concat_strings].
  - now rewrite append_nil_r.
  - rewrite IH. change (base64_reference acc i) with (acc ++ reference base64_encoded i).
    now rewrite append_assoc.
Qed.

Lemma references_nil mode : references mode [] = "".
Proof.
  destruct mode as [m|]; [|reflexivity]. unfold references.
  destruct (String.eqb m "url"); [reflexivity|].
  destruct (String.eqb m "base64"); reflexivity.
Qed.

(** The two loops append one reference per image, in order. *)
Lemma append_references_spec mode imgs markdown :
  append_references mode imgs markdown = markdown ++ references mode imgs.
Proof.
  unfold append_references, references.
  destruct imgs as [|i imgs].
  - destruct mode as [m|]; [|now rewrite append_nil_r].
    destruct (String.eqb m "url"); [now rewrite append_nil_r|].
    destruct (String.eqb m "base64"); now rewrite append_nil_r.
  - destruct mode as [m|]; [|now rewrite append_nil_r].
    destruct (String.eqb m "url"); [apply fold_url|].
    destruct (String.eqb m "base64"); [apply fold_base64 | now rewrite append_nil_r].
Qed.

(** Symbolic execution of a run: unfold one layer, or split on what the
    environment answered. *)
Ltac run_step H :=
  first
  [ rewrite run_task_bind in H
  | rewrite run_task_except in H
  | rewrite run_gemini in H
  | rewrite run_task_lift in H
  | progress cbn [run_task] in H
  | progress cbv zeta in H
  | rewrite flag_log in H ].

Ltac run_case H :=
  match type of H with
  | context [match backend ?e ?n ?r with _ => _ end] =>
      let E := fresh "Hcall" in destruct (backend e n r) eqn:E
  | context [match model_validate_json ?e ?s with _ => _ end] =>
      let E := fresh "Hdecode" in destruct (model_validate_json e s) eqn:E
  | context [match extract_images ?e ?p ?m ?n with _ => _ end] =>
      let E := fresh "Hextract" in destruct (extract_images e p m n) eqn:E
  | context [if is_Exception ?e then _ else _] =>
      let E := fresh "Hexc" in destruct (is_Exception e) eqn:E
  | context [match text_detected ?d with _ => _ end] =>
      let E := fresh "Htext" in destruct (text_detected d) eqn:E
  | context [match images_detected ?d with _ => _ end] =>
      let E := fresh "Himages" in destruct (images_detected d) eqn:E
  | context [match image_mode ?s with _ => _ end] =>
      let E := fresh "Hmode" in destruct (image_mode s) eqn:E
  | context [if detailed_extraction ?w then _ else _] =>
      let E := fresh "Hflag" in destruct (detailed_extraction w) eqn:E
  | context [negb (detailed_extraction ?w)] =>
      let E := fresh "Hflag" in destruct (detailed_extraction w) eqn:E
  end.

Ltac run_all H :=
  repeat (first [ run_step H | run_case H
                | progress cbn [negb clear_flag detailed_extraction] in H ]).

Ltac new_events_norm :=
  erewrite !new_events_app
    by (cbn [trace log clear_flag]; rewrite <- ?app_assoc; cbn [app]; reflexivity).

Lemma short_circuit_run env self base64_encoded pix page_number o w text d :
  detailed_extraction w = true ->
  backend env (calls_made w) (analysis_request env self base64_encoded) = Ok text ->
  model_validate_json env (strip_fences text) = Ok d ->
  text_detected d = No ->
  run_task env o (generate_markdown env self base64_encoded pix page_number) w =
  (Ok "",
   mkWorld true
     (trace w ++
      [(o, EvReadFlag true);
       (o, EvCall (llm_enable_concurrency self)
                  (analysis_request env self base64_encoded) (Ok text))])%list).
Proof.
  intros Hflag Hcall Hdecode Htext.
  unfold generate_markdown, generate_and_assemble, analyse, _get_response,
    analysis_request in *.
  cbn [run_task]. rewrite Hflag.
  rewrite run_task_bind, run_task_except, run_task_bind, run_gemini.
  rewrite calls_made_log. cbn [is_call snd]. rewrite Nat.add_0_r.
  cbv zeta. rewrite Hcall.
  rewrite run_task_bind, run_task_lift, Hdecode, Htext.
  cbn [run_task]. rewrite log_log, Hflag. reflexivity.
Qed.

(** The same on the event loop, whatever the other tasks do: a task that
    read the flag as on and whose structured call was answered with [text]
    is finished with the empty string; it performs no further effect. *)
Lemma short_circuit_replay env self b64 pix pn async req text d rest p' :
  model_validate_json env (strip_fences text) = Ok d ->
  text_detected d = No ->
  feed (generate_markdown env self b64 pix pn)
       (EvReadFlag true :: EvCall async req (Ok text) :: rest) = Some p' ->
  rest = [] /\ p' = Ret "".
Proof.
  intros Hd Ht H.
  unfold generate_markdown, analyse, _get_response, _gemini, Tenacity.retry,
    _gemini_body, except_Exception in H.
  cbn [feed bind on_raise Tenacity.attempts Nat.sub] in H.
  rewrite Hd in H. cbn [lift bind on_raise] in H. rewrite Ht in H.
  cbn [bind on_raise generate_and_assemble] in H.
  destruct rest as [|ev rest]; cbn [feed] in H.
  - inversion H. split; reflexivity.
  - destruct ev; discriminate.
Qed.

(** C3: when the structured answer of a page decodes to a description with
    [text_detected = "No"], [generate_markdown] returns the empty string.
    Run on its own with detailed extraction on, its whole run is the flag
    read and the structured call; on the event loop, a task that read the
    flag as on and received that answer is finished with the empty string.
    Either way no markdown-generation call and no image extraction happen
    for the page. *)
Theorem no_text_short_circuit env self base64_encoded pix page_number text d :
  model_validate_json env (strip_fences text) = Ok d ->
  text_detected d = No ->
  (forall o w,
     detailed_extraction w = true ->
     backend env (calls_made w) (analysis_request env self base64_encoded) = Ok text ->
     run_task env o (generate_markdown env self base64_encoded pix page_number) w =
     (Ok "",
      mkWorld true
        (trace w ++
         [(o, EvReadFlag true);
          (o, EvCall (llm_enable_concurrency self)
                     (analysis_request env self base64_encoded) (Ok text))])%list))
  /\
  (forall async req rest p',
     feed (generate_markdown env self base64_encoded pix page_number)
          (EvReadFlag true :: EvCall async req (Ok text) :: rest) = Some p' ->
     rest = [] /\ p' = Ret "").
Proof.
  intros Hdecode Htext. split.
  - intros o w Hflag Hcall. now apply (short_circuit_run env self _ _ _ o w text d).
  - intros async req rest p'. now apply (short_circuit_replay env self _ _ _ _ _ text d).
Qed.

Lemma no_text_short_circuit_witness :
  let env := Demo.env_of (Demo.describing "{no text}") in
  let self := Demo.an_llm (Some "url") false in
  run_task env (Task 0) (generate_markdown env self "p0" (mkPixmap (Ok "p0")) 0) (Demo.fresh true)
  = (Ok "",
     mkWorld true
       [(Task 0, EvReadFlag true);
        (Task 0, EvCall false (analysis_request env self "p0") (Ok "{no text}"))]).
Proof.
  exact (proj1 (no_text_short_circuit (Demo.env_of (Demo.describing "{no text}"))
                  (Demo.an_llm (Some "url") false) "p0" (mkPixmap (Ok "p0")) 0
                  "{no text}" Demo.no_text eq_refl eq_refl)
           (Task 0) (Demo.fresh true) eq_refl eq_refl).
Defined.

(** When the decoder rejects the structured answer, the flag is cleared and
    the page is converted with the default prompt. *)
Lemma decode_failure_falls_back env self base64_encoded pix page_number o w text e text2 :
  detailed_extraction w = true ->
  backend env (calls_made w) (analysis_request env self base64_encoded) = Ok text ->
  model_validate_json env (strip_fences text) = Raise e ->
  is_Exception e = true ->
  backend env (S (calls_made w)) (simple_request env self base64_encoded) = Ok text2 ->
  run_task env o (generate_markdown env self base64_encoded pix page_number) w =
  (Ok (strip_fences text2),
   mkWorld false
     (trace w ++
      [(o, EvReadFlag true);
       (o, EvCall (llm_enable_concurrency self)
                  (analysis_request env self base64_encoded) (Ok text));
       (o, EvClearFlag);
       (o, EvReadFlag false);
       (o, EvCall (llm_enable_concurrency self)
                  (simple_request env self base64_encoded) (Ok text2))])%list).
Proof.
  intros Hflag Hcall Hdecode He Hcall2.
  unfold generate_markdown, generate_and_assemble, analyse, _get_response,
    analysis_request, simple_request in *.
  cbn [run_task]. rewrite Hflag.
  rewrite run_task_bind, run_task_except, run_task_bind, run_gemini.
  rewrite calls_made_log. cbn [is_call snd]. rewrite Nat.add_0_r.
  cbv zeta. rewrite Hcall.
  rewrite run_task_bind, run_task_lift, Hdecode, He.
  cbn [run_task]. rewrite !flag_log. cbn [clear_flag detailed_extraction negb].
  rewrite run_task_bind, run_gemini. cbv zeta.
  rewrite !calls_made_log.
  change (calls_made (mkWorld false ?t)) with (calls_made (mkWorld true t)).
  cbn [is_call snd]. rewrite !Nat.add_0_r.
  replace (calls_made _) with (S (calls_made w)).
  - rewrite Hcall2. cbn [run_task append_references].
    unfold log, clear_flag; cbn [trace detailed_extraction].
    rewrite <- !app_assoc. reflexivity.
  - unfold calls_made, log, clear_flag; cbn [trace].
    rewrite <- !app_assoc, filter_app, length_app. cbn. lia.
Qed.

(** C2 (the call-failure half, as the code runs it): when the structured
    call of a page fails, [_gemini] raises an [LLMError]; that class derives
    from [BaseException], so neither the retry condition nor the
    [except Exception] clause of [generate_markdown] takes it.  The page
    yields no markdown, and detailed extraction stays on, whatever the
    service would answer to a later call. *)
Theorem failed_analysis_call_escapes_fallback env self base64_encoded pix page_number
    o w e :
  detailed_extraction w = true ->
  backend env (calls_made w) (analysis_request env self base64_encoded) = Raise e ->
  is_Exception e = true ->
  run_task env o (generate_markdown env self base64_encoded pix page_number) w
  = (Raise (mk_exn LLMError ("Gemini Model processing failed: " ++ str_exn e)),
     mkWorld true
       (trace w ++
        [(o, EvReadFlag true);
         (o, EvCall (llm_enable_concurrency self)
                    (analysis_request env self base64_encoded) (Raise e))])%list).
Proof.
  intros Hflag Hcall He.
  unfold generate_markdown, analyse, _get_response, analysis_request in *.
  cbn [run_task]. rewrite Hflag.
  rewrite run_task_bind, run_task_except, run_task_bind, run_gemini.
  rewrite calls_made_log. cbn [is_call snd]. rewrite Nat.add_0_r.
  cbv zeta. rewrite Hcall, He. cbn [is_Exception exn_cls].
  rewrite log_log, Hflag. reflexivity.
Qed.

Lemma failed_analysis_call_escapes_fallback_witness :
  let env := Demo.env_of (Demo.flaky 1) in
  let self := Demo.an_llm None false in
  run_task env (Task 0) (generate_markdown env self "p0" (mkPixmap (Ok "p0")) 0) (Demo.fresh true)
  = (Raise (mk_exn LLMError "Gemini Model processing failed: 503 unavailable"),
     mkWorld true
       [(Task 0, EvReadFlag true);
        (Task 0, EvCall false (analysis_request env self "p0")
                        (Raise (mk_exn RuntimeError "503 unavailable")))])
  /\ Demo.flaky 1 1 (simple_request env self "p0") = Ok "# p0".
Proof.
  split; [|reflexivity].
  exact (failed_analysis_call_escapes_fallback (Demo.env_of (Demo.flaky 1))
           (Demo.an_llm None false) "p0" (mkPixmap (Ok "p0")) 0 (Task 0) (Demo.fresh true)
           (mk_exn RuntimeError "503 unavailable") eq_refl eq_refl eq_refl).
Defined.

(** C4 (as the code runs it): when the client raises, the decorated
    [_gemini] has made one attempt, does not wait, and raises the
    [LLMError] of that attempt, whatever the service would answer to a
    second or third call. *)
Theorem gemini_is_attempted_once env self base64_encoded prompt structured o w e :
  backend env (calls_made w) (generation_request self base64_encoded prompt structured)
  = Raise e ->
  is_Exception e = true ->
  run_task env o (_gemini self base64_encoded prompt structured) w
  = (Raise (mk_exn LLMError ("Gemini Model processing failed: " ++ str_exn e)),
     log o (EvCall (llm_enable_concurrency self)
                   (generation_request self base64_encoded prompt structured)
                   (Raise e)) w).
Proof.
  intros Hcall He. rewrite run_gemini. cbv zeta. rewrite Hcall, He. reflexivity.
Qed.

Lemma gemini_is_attempted_once_witness :
  let env := Demo.env_of (Demo.flaky 2) in
  let self := Demo.an_llm None false in
  run_task env (Task 0) (_gemini self "p0" "transcribe" false) (Demo.fresh false)
  = (Raise (mk_exn LLMError "Gemini Model processing failed: 503 unavailable"),
     mkWorld false
       [(Task 0, EvCall false (generation_request self "p0" "transcribe" false)
                        (Raise (mk_exn RuntimeError "503 unavailable")))])
  /\ Demo.flaky 2 2 (generation_request self "p0" "transcribe" false) = Ok "# p0".
Proof.
  split; [|reflexivity].
  exact (gemini_is_attempted_once (Demo.env_of (Demo.flaky 2)) (Demo.an_llm None false)
           "p0" "transcribe" false (Task 0) (Demo.fresh false)
           (mk_exn RuntimeError "503 unavailable") eq_refl eq_refl).
Defined.

(** The waits the decorator asks for lie between 4 and 10. *)
Remark wait_exponential_bounds n :
  (4 <= Tenacity.wait_exponential 1 4 10 n <= 10)%Z.
Proof. unfold Tenacity.wait_exponential. lia. Qed.

(** The loop of the decorator itself does retry an exception its condition
    accepts: under a condition that takes every exception, the same call
    succeeds on the third attempt after two waits of 4. *)
Remark retry_loop_reaches_third_attempt :
  let env := Demo.env_of (Demo.flaky 2) in
  let self := Demo.an_llm None false in
  let r := run_task env (Task 0)
             (Tenacity.retry (fun _ => true) 3 (Tenacity.wait_exponential 1 4 10)
                             (_gemini_body self "p0" "transcribe" false))
             (Demo.fresh false) in
  fst r = Ok "# p0" /\
  calls_made (snd r) = 3%nat /\
  events_of (Task 0) (filter (fun x => negb (is_call x)) (trace (snd r)))
  = [EvSleep (inject_Z 4); EvSleep (inject_Z 4)].
Proof. repeat split; reflexivity. Qed.

(** What [_gemini] leaves after its call, whatever follows it. *)
Lemma gemini_resumed {B : Type} self b64 prompt structured (f : string -> prog B)
    async req out :
  exists after,
    (forall evs,
       feed (bind (_gemini self b64 prompt structured) f) (EvCall async req out :: evs)
       = feed after evs) /\
    match out with
    | Ok text => after = f (strip_fences text)
    | Raise e => exists e', after = Throw e'
    end.
Proof.
  unfold _gemini, Tenacity.retry, _gemini_body, except_Exception.
  cbn [feed bind on_raise Tenacity.attempts Nat.sub].
  destruct out as [text|e]; cbn [bind on_raise].
  - eexists. split; [reflexivity | reflexivity].
  - destruct (is_Exception e) eqn:E; cbn [bind on_raise].
    + eexists. split; [reflexivity|]. eexists; reflexivity.
    + unfold Tenacity.retry_if_exception_type. rewrite E. cbn [bind on_raise].
      eexists. split; [reflexivity|]. eexists; reflexivity.
Qed.

Lemma feed_Throw {A : Type} (e : exn) evs (q : prog A) :
  feed (Throw e) evs = Some q -> evs = [] /\ q = Throw e.
Proof. destruct evs as [|[]]; cbn; intros H; inversion H; auto. Qed.

Lemma feed_Ret {A : Type} (a : A) evs (q : prog A) :
  feed (Ret a) evs = Some q -> evs = [] /\ q = Ret a.
Proof. destruct evs as [|[]]; cbn; intros H; inversion H; auto. Qed.

(** The assembly step on the event loop, whatever the other tasks do: what
    follows the [try] reads the flag, makes one free-text call, and returns
    the stripped answer followed by the references of the images it was
    given. *)
Lemma assemble_replay env self b64 prompt imgs evs markdown :
  feed (generate_and_assemble env self b64 (Fell_through prompt imgs)) evs
  = Some (Ret markdown) ->
  exists b async req text,
    evs = [EvReadFlag b; EvCall async req (Ok text)] /\
    markdown = strip_fences text ++ references (image_mode self) imgs.
Proof.
  intros H. cbn [generate_and_assemble] in H.
  destruct evs as [|ev evs]; [discriminate|].
  destruct ev as [b| |? ? ?|? ? ?|?]; try discriminate. cbn [feed] in H.
  destruct (if negb b then Some (simple_prompt env self) else prompt) as [prompt'|];
    [|apply feed_Throw in H; destruct H; discriminate].
  destruct evs as [|ev evs].
  { cbn [feed] in H. inversion H. }
  destruct ev as [?| |async req out|? ? ?|?];
    try (unfold _get_response, _gemini, Tenacity.retry, _gemini_body, except_Exception in H;
         cbn in H; discriminate).
  unfold _get_response in H.
  destruct (gemini_resumed self b64 prompt' false
              (fun markdown_content =>
                 Ret (append_references (image_mode self) imgs markdown_content))
              async req out) as (after & Hfeed & Hafter).
  rewrite Hfeed in H.
  destruct out as [text|e].
  - subst after. apply feed_Ret in H. destruct H as [-> H]. inversion H.
    exists b, async, req, text. split; [reflexivity|]. apply append_references_spec.
  - destruct Hafter as [e' ->]. apply feed_Throw in H. destruct H; discriminate.
Qed.

Lemma page_references env self base64_encoded pix page_number o w markdown w' :
  run_task env o (generate_markdown env self base64_encoded pix page_number) w
  = (Ok markdown, w') ->
  let evs := new_events w w' in
  ((markdown = "" /\ extracted evs = [])
   \/ exists async req text,
        last evs (o, EvClearFlag) = (o, EvCall async req (Ok text)) /\
        req_structured req = false /\
        markdown = strip_fences text ++ references (image_mode self) (extracted evs))
  /\ (forall m n out, In (o, EvExtract m n out) evs ->
        image_mode self = Some m /\ n = page_number /\
        exists async req text d,
          In (o, EvCall async req (Ok text)) evs /\ req_structured req = true /\
          model_validate_json env (strip_fences text) = Ok d /\
          images_detected d = Yes)
  /\ (image_mode self = None ->
        filter is_extract evs = [] /\ references (image_mode self) (extracted evs) = "").
Proof.
  intros H.
  unfold generate_markdown, generate_and_assemble, analyse, _get_response in H.
  run_all H.
  all: try discriminate.
  all: inversion H; subst; clear H.
  all: cbv zeta; new_events_norm.
  all: cbn [extracted flat_map snd app last filter is_extract].
  all: rewrite ?app_nil_r, ?append_references_spec.
  all: split; [ first [ left; split; reflexivity
                      | right; do 3 eexists; repeat split; try reflexivity ] | ].
  all: rewrite ?references_nil, ?append_nil_r; try reflexivity.
  all: split.
  all: try (intros Hnone; try discriminate Hnone; split; reflexivity).
  all: intros m' n' out' HIn; cbn [In] in HIn;
       repeat (destruct HIn as [HIn|HIn]); try contradiction; try discriminate HIn.
  all: inversion HIn; subst; clear HIn.
  all: split; [reflexivity|]; split; [reflexivity|].
  all: match goal with
       | Hd : model_validate_json _ (strip_fences ?t) = Ok ?d |- _ =>
           exists (llm_enable_concurrency self),
                  (generation_request self base64_encoded (image_analysis_prompt env) true),
                  t, d
       end.
  all: split; [cbn [In]; right; left; reflexivity|].
  all: split; [reflexivity|]; split; assumption.
Qed.

(** C6: the assembly appends one reference per extracted image, pointing
    at the locator under [url] and carrying the payload under [base64]
    ([references]), and nothing under any other mode or none.  A page that
    [generate_markdown] converts either was left by the short circuit, or
    its markdown is the stripped free-text answer followed by the
    references of the images extracted for it.  The extractor runs only
    when a mode is configured and the decoded analysis reports images; with
    no mode nothing is extracted and nothing appended. *)
Theorem image_references_follow_mode env self page_png pix page_number :
  (forall imgs,
     references (Some "url") imgs = concat_strings (map (reference image_url) imgs) /\
     references (Some "base64") imgs
     = concat_strings (map (reference base64_encoded) imgs) /\
     references None imgs = "")
  /\
  (forall prompt imgs evs markdown,
     feed (generate_and_assemble env self page_png (Fell_through prompt imgs)) evs
     = Some (Ret markdown) ->
     exists b async req text,
       evs = [EvReadFlag b; EvCall async req (Ok text)] /\
       markdown = strip_fences text ++ references (image_mode self) imgs)
  /\
  (forall o w markdown w',
     run_task env o (generate_markdown env self page_png pix page_number) w
     = (Ok markdown, w') ->
     let evs := new_events w w' in
     ((markdown = "" /\ extracted evs = [])
      \/ exists async req text,
           last evs (o, EvClearFlag) = (o, EvCall async req (Ok text)) /\
           req_structured req = false /\
           markdown = strip_fences text ++ references (image_mode self) (extracted evs))
     /\ (forall m n out, In (o, EvExtract m n out) evs ->
           image_mode self = Some m /\ n = page_number /\
           exists async req text d,
             In (o, EvCall async req (Ok text)) evs /\ req_structured req = true /\
             model_validate_json env (strip_fences text) = Ok d /\
             images_detected d = Yes)
     /\ (image_mode self = None ->
           filter is_extract evs = [] /\
           references (image_mode self) (extracted evs) = "")).
Proof.
  split; [|split].
  - intros imgs. repeat split.
  - intros prompt imgs evs markdown. apply assemble_replay.
  - intros o w markdown w'. apply page_references.
Qed.

Lemma image_references_follow_mode_witness :
  let env := Demo.env_of (Demo.describing "{images}") in
  let self := Demo.an_llm (Some "url") false in
  let r := run_task env (Task 0) (generate_markdown env self "p0" (mkPixmap (Ok "p0")) 0)
                    (Demo.fresh true) in
  fst r = Ok ("# p0" ++ nl ++ nl ++ "![img/p0_1.png](img/p0_1.png)") /\
  extracted (new_events (Demo.fresh true) (snd r)) = [Demo.figure] /\
  (forall m n out,
     In (Task 0, EvExtract m n out) (new_events (Demo.fresh true) (snd r)) ->
     Some "url" = Some m /\ n = 0%nat /\
     exists async req text d,
       In (Task 0, EvCall async req (Ok text)) (new_events (Demo.fresh true) (snd r)) /\
       req_structured req = true /\
       Demo.decode (strip_fences text) = Ok d /\ images_detected d = Yes).
Proof.
  split; [reflexivity|]. split; [reflexivity|].
  exact (proj1 (proj2
    (proj2 (proj2
       (image_references_follow_mode (Demo.env_of (Demo.describing "{images}"))
          (Demo.an_llm (Some "url") false) "p0" (mkPixmap (Ok "p0")) 0))
       (Task 0) (Demo.fresh true)
       ("# p0" ++ nl ++ nl ++ "![img/p0_1.png](img/p0_1.png)")
       (snd (run_task (Demo.env_of (Demo.describing "{images}")) (Task 0)
               (generate_markdown (Demo.env_of (Demo.describing "{images}"))
                  (Demo.an_llm (Some "url") false) "p0" (mkPixmap (Ok "p0")) 0)
               (Demo.fresh true)))
       eq_refl))).
Defined.

End ExtractionFacts.

(** ** Replaying a task *)

Module TaskFacts.
Import LoopFacts WorldFacts.

Lemma owner_eqb_refl o : owner_eqb o o = true.
Proof. destruct o; simpl; [apply Nat.eqb_refl | reflexivity]. Qed.

Lemma owner_eqb_eq a b : owner_eqb a b = true <-> a = b.
Proof.
  destruct a, b; simpl; split; intros H; try discriminate; try reflexivity.
  - apply Nat.eqb_eq in H. now subst.
  - inversion H. apply Nat.eqb_refl.
Qed.

Lemma events_of_app o l1 l2 :
  events_of o (l1 ++ l2)%list = (events_of o l1 ++ events_of o l2)%list.
Proof. unfold events_of. now rewrite filter_app, map_app. Qed.

Lemma events_of_tagged_same o evs : events_of o (tagged o evs) = evs.
Proof.
  unfold events_of, tagged. induction evs as [|ev evs IH]; cbn; [reflexivity|].
  rewrite owner_eqb_refl. cbn. now rewrite IH.
Qed.

Lemma events_of_tagged_other o o' evs : o <> o' -> events_of o (tagged o' evs) = [].
Proof.
  intros H. unfold events_of, tagged. induction evs as [|ev evs IH]; cbn; [reflexivity|].
  destruct (owner_eqb o' o) eqn:E; [|exact IH].
  apply owner_eqb_eq in E. congruence.
Qed.

Lemma feed_app {A : Type} (l1 l2 : list event) : forall (p q : prog A),
  feed p l1 = Some q -> feed p (l1 ++ l2)%list = feed q l2.
Proof.
  induction l1 as [|ev l1 IH]; intros p q H.
  - cbn in H. inversion H; subst. reflexivity.
  - cbn [app]. destruct p, ev; cbn [feed] in *; try discriminate; eauto.
Qed.

(** A run is determined by what the task observed: replaying the
    coroutine against its own effects gives back its outcome. *)
Lemma run_task_feed {A : Type} env o (p : prog A) : forall w,
  exists evs,
    trace (snd (run_task env o p w)) = (trace w ++ tagged o evs)%list /\
    feed p evs = Some (residual (Finished (fst (run_task env o p w)))).
Proof.
  induction p as [a|e|k IH|k IH|async req k IH|pix mode pn k IH|secs k IH]; intros w.
  - exists []. cbn. now rewrite app_nil_r.
  - exists []. cbn. now rewrite app_nil_r.
  - destruct (IH (detailed_extraction w) (log o (EvReadFlag (detailed_extraction w)) w))
      as (evs & Ht & Hf).
    exists (EvReadFlag (detailed_extraction w) :: evs). cbn [run_task feed]. split; [|exact Hf].
    rewrite Ht. cbn. now rewrite <- app_assoc.
  - destruct (IH (log o EvClearFlag (clear_flag w))) as (evs & Ht & Hf).
    exists (EvClearFlag :: evs). cbn [run_task feed]. split; [|exact Hf].
    rewrite Ht. cbn. now rewrite <- app_assoc.
  - destruct (IH (backend env (calls_made w) req)
                 (log o (EvCall async req (backend env (calls_made w) req)) w))
      as (evs & Ht & Hf).
    exists (EvCall async req (backend env (calls_made w) req) :: evs).
    cbn [run_task feed]. split; [|exact Hf].
    rewrite Ht. cbn. now rewrite <- app_assoc.
  - destruct (IH (extract_images env pix mode pn)
                 (log o (EvExtract mode pn (extract_images env pix mode pn)) w))
      as (evs & Ht & Hf).
    exists (EvExtract mode pn (extract_images env pix mode pn) :: evs).
    cbn [run_task feed]. split; [|exact Hf].
    rewrite Ht. cbn. now rewrite <- app_assoc.
  - destruct (IH (log o (EvSleep secs) w)) as (evs & Ht & Hf).
    exists (EvSleep secs :: evs). cbn [run_task feed]. split; [|exact Hf].
    rewrite Ht. cbn. now rewrite <- app_assoc.
Qed.

Lemma advance_feed {A : Type} env o (p : prog A) : forall w,
  exists evs,
    trace (snd (advance env o p w)) = (trace w ++ tagged o evs)%list /\
    feed p evs = Some (residual (fst (advance env o p w))).
Proof.
  induction p as [a|e|k IH|k IH|async req k IH|pix mode pn k IH|secs k IH]; intros w.
  - exists []. cbn. now rewrite app_nil_r.
  - exists []. cbn. now rewrite app_nil_r.
  - destruct (IH (detailed_extraction w) (log o (EvReadFlag (detailed_extraction w)) w))
      as (evs & Ht & Hf).
    exists (EvReadFlag (detailed_extraction w) :: evs). cbn [advance feed]. split; [|exact Hf].
    rewrite Ht. cbn. now rewrite <- app_assoc.
  - destruct (IH (log o EvClearFlag (clear_flag w))) as (evs & Ht & Hf).
    exists (EvClearFlag :: evs). cbn [advance feed]. split; [|exact Hf].
    rewrite Ht. cbn. now rewrite <- app_assoc.
  - cbn [advance]. destruct async.
    + exists [EvCall true req (backend env (calls_made w) req)]. cbn. split; reflexivity.
    + destruct (IH (backend env (calls_made w) req)
                   (log o (EvCall false req (backend env (calls_made w) req)) w))
        as (evs & Ht & Hf).
      exists (EvCall false req (backend env (calls_made w) req) :: evs).
      cbn [feed]. split; [|exact Hf].
      rewrite Ht. cbn. now rewrite <- app_assoc.
  - destruct (IH (extract_images env pix mode pn)
                 (log o (EvExtract mode pn (extract_images env pix mode pn)) w))
      as (evs & Ht & Hf).
    exists (EvExtract mode pn (extract_images env pix mode pn) :: evs).
    cbn [advance feed]. split; [|exact Hf].
    rewrite Ht. cbn. now rewrite <- app_assoc.
  - exists [EvSleep secs]. cbn. split; reflexivity.
Qed.

End TaskFacts.

(** ** The simple path *)

Module SimpleFacts.
Import LoopFacts WorldFacts.

Section Simple.
Variables (env : Env) (self : LLM).

Lemma simple_since_refl w : detailed_extraction w = false -> simple_since env self w w.
Proof. intros H. split; [exact H|]. exists []. now rewrite app_nil_r. Qed.

Lemma simple_since_trans w0 w1 w2 :
  simple_since env self w0 w1 -> simple_since env self w1 w2 -> simple_since env self w0 w2.
Proof.
  intros [_ (e1 & T1 & F1)] [H2 (e2 & T2 & F2)]. split; [exact H2|].
  exists (e1 ++ e2)%list. split.
  - now rewrite T2, T1, app_assoc.
  - apply Forall_app; now split.
Qed.

Lemma simple_since_log w o ev :
  detailed_extraction w = false -> simple_event env self (o, ev) ->
  simple_since env self w (log o ev w).
Proof.
  intros H Hev. split; [exact H|]. exists [(o, ev)]. split; [reflexivity|].
  now constructor.
Qed.

Lemma simple_bind {A B : Type} (p : prog A) (f : A -> prog B) :
  simple_prog env self p -> (forall a, simple_prog env self (f a)) ->
  simple_prog env self (bind p f).
Proof. induction 1; intros Hf; cbn; try constructor; auto. Qed.

Lemma simple_on_raise {A : Type} (p : prog A) h :
  simple_prog env self p -> (forall e, simple_prog env self (h e)) ->
  simple_prog env self (on_raise p h).
Proof. induction 1; intros Hf; cbn; try constructor; auto. Qed.

Lemma simple_except {A : Type} (p : prog A) h :
  simple_prog env self p -> (forall e, simple_prog env self (h e)) ->
  simple_prog env self (except_Exception p h).
Proof.
  intros Hp Hh. apply simple_on_raise; [exact Hp|].
  intros e. destruct (is_Exception e); [apply Hh | constructor].
Qed.

Lemma simple_finally {A : Type} (p : prog A) q :
  simple_prog env self p -> simple_prog env self q ->
  simple_prog env self (try_finally p q).
Proof.
  induction 1; intros Hq; cbn [try_finally]; try (constructor; auto).
  - apply simple_bind; [exact Hq | constructor].
  - apply simple_bind; [exact Hq | constructor].
Qed.

Lemma simple_attempts {A : Type} retry_on wait (fn : prog A) :
  simple_prog env self fn ->
  forall left n, simple_prog env self (Tenacity.attempts retry_on wait left n fn).
Proof.
  intros Hfn. induction left as [|left IH]; intros n; cbn [Tenacity.attempts];
    apply simple_on_raise; try exact Hfn; intros e; destruct (retry_on e);
    repeat constructor. apply IH.
Qed.

Lemma simple_gemini base64_encoded :
  simple_prog env self (_gemini self base64_encoded (simple_prompt env self) false).
Proof.
  unfold _gemini, Tenacity.retry. apply simple_attempts.
  unfold _gemini_body. apply simple_except.
  - constructor; [reflexivity | reflexivity |].
    intros [text|e]; constructor.
  - intros e; constructor.
Qed.

Lemma simple_generate_markdown base64_encoded pix page_number :
  simple_prog env self (generate_markdown env self base64_encoded pix page_number).
Proof.
  unfold generate_markdown. constructor. cbn [bind generate_and_assemble].
  constructor. cbn [negb].
  apply simple_bind; [apply simple_gemini|]. intros a; constructor.
Qed.

End Simple.

Lemma simple_convert_page env vp page page_number :
  simple_prog env (llm vp) (_convert_page env vp page page_number).
Proof.
  unfold _convert_page. apply simple_finally.
  - apply simple_except; [|intros e; constructor].
    destruct (get_pixmap page _ _ _ _) as [px|e]; [|constructor].
    destruct (png_base64 px); [apply simple_generate_markdown | constructor].
  - destruct (get_pixmap page _ _ _ _); constructor.
Qed.

Section Runs.
Variables (env : Env) (self : LLM).

Lemma run_task_simple {A : Type} o (p : prog A) :
  simple_prog env self p -> forall w,
  detailed_extraction w = false ->
  simple_since env self w (snd (run_task env o p w)).
Proof.
  induction 1 as [a|e|k Hk IH|k Hk IH|async req k Hs Hp Hk IH|secs k Hk IH];
    intros w Hw; cbn [run_task].
  - now apply simple_since_refl.
  - now apply simple_since_refl.
  - rewrite Hw. eapply simple_since_trans; [|apply IH; exact Hw].
    apply simple_since_log; [exact Hw | reflexivity].
  - eapply simple_since_trans; [|apply IH; reflexivity].
    split; [reflexivity|]. exists [(o, EvClearFlag)]. split; [reflexivity|].
    constructor; [exact I | constructor].
  - eapply simple_since_trans; [|apply IH; exact Hw].
    apply simple_since_log; [exact Hw | split; assumption].
  - eapply simple_since_trans; [|apply IH; exact Hw].
    apply simple_since_log; [exact Hw | exact I].
Qed.

Lemma advance_simple {A : Type} o (p : prog A) :
  simple_prog env self p -> forall w,
  detailed_extraction w = false ->
  simple_since env self w (snd (advance env o p w)) /\
  simple_prog env self (residual (fst (advance env o p w))).
Proof.
  induction 1 as [a|e|k Hk IH|k Hk IH|async req k Hs Hp Hk IH|secs k Hk IH];
    intros w Hw; cbn [advance].
  - split; [now apply simple_since_refl | constructor].
  - split; [now apply simple_since_refl | constructor].
  - rewrite Hw.
    destruct (IH (log o (EvReadFlag false) w) Hw) as [H1 H2]. split; [|exact H2].
    eapply simple_since_trans; [|exact H1].
    apply simple_since_log; [exact Hw | reflexivity].
  - destruct (IH (log o EvClearFlag (clear_flag w)) eq_refl) as [H1 H2]. split; [|exact H2].
    eapply simple_since_trans; [|exact H1].
    split; [reflexivity|]. exists [(o, EvClearFlag)]. split; [reflexivity|].
    constructor; [exact I | constructor].
  - destruct async.
    + cbn [fst snd residual]. split; [|apply Hk].
      apply simple_since_log; [exact Hw | split; assumption].
    + destruct (IH (backend env (calls_made w) req)
                   (log o (EvCall false req (backend env (calls_made w) req)) w) Hw)
        as [H1 H2].
      split; [|exact H2].
      eapply simple_since_trans; [|exact H1].
      apply simple_since_log; [exact Hw | split; assumption].
  - cbn [fst snd residual]. split; [|exact Hk].
    apply simple_since_log; [exact Hw | exact I].
Qed.

End Runs.
End SimpleFacts.

(** ** The pool of a join *)

Module PoolFacts.
Import LoopFacts WorldFacts TaskFacts SimpleFacts.

Lemma length_set_slot {A : Type} (t : task A) : forall l i,
  List.length (set_slot i t l) = List.length l.
Proof. induction l as [|x l IH]; intros [|i]; cbn; auto. Qed.

Lemma nth_error_set_slot_same {A : Type} (t : task A) : forall l i x,
  nth_error l i = Some x -> nth_error (set_slot i t l) i = Some t.
Proof. induction l as [|y l IH]; intros [|i] x H; cbn in *; try discriminate; eauto. Qed.

Lemma nth_error_set_slot_other {A : Type} (t : task A) : forall l i j,
  i <> j -> nth_error (set_slot i t l) j = nth_error l j.
Proof.
  induction l as [|y l IH]; intros [|i] [|j] H; cbn; try reflexivity; try congruence.
  apply IH. congruence.
Qed.

Lemma Forall_set_slot {A : Type} (P : task A -> Prop) (t : task A) : forall l i,
  Forall P l -> P t -> Forall P (set_slot i t l).
Proof.
  induction l as [|y l IH]; intros [|i] Hl Ht; cbn; inversion Hl; subst;
    constructor; auto.
Qed.

Lemma resume_cases {A : Type} env start_idx i (P : pool A) :
  (exists p, nth_error (slots P) i = Some (Suspended p) /\
     resume env start_idx i P =
     mkPool (set_slot i (fst (advance env (Task (start_idx + i)) p (pool_world P))) (slots P))
            (match first_exc P, fst (advance env (Task (start_idx + i)) p (pool_world P)) with
             | None, Finished (Raise e) => Some e
             | exc, _ => exc
             end)
            (snd (advance env (Task (start_idx + i)) p (pool_world P))))
  \/ resume env start_idx i P = P.
Proof.
  unfold resume. destruct (nth_error (slots P) i) as [[p|r]|] eqn:E; auto.
  left. exists p. split; [reflexivity|].
  destruct (advance env (Task (start_idx + i)) p (pool_world P)); reflexivity.
Qed.

Section SimplePool.
Variables (env : Env) (self : LLM).

Lemma resume_simple {A : Type} start_idx i w0 (P : pool A) :
  pool_simple env self w0 P -> pool_simple env self w0 (resume env start_idx i P).
Proof.
  intros [Hs Hw].
  destruct (resume_cases env start_idx i P) as [(p & Hp & ->) | ->]; [|now split].
  assert (Hsp : simple_prog env self p).
  { apply nth_error_In in Hp. rewrite Forall_forall in Hs. exact (Hs _ Hp). }
  destruct (advance_simple env self (Task (start_idx + i)) p Hsp (pool_world P) (proj1 Hw))
    as [H1 H2].
  split; cbn [slots pool_world].
  - apply Forall_set_slot; assumption.
  - eapply simple_since_trans; eassumption.
Qed.

Lemma run_schedule_simple {A : Type} start_idx sched : forall w0 (P : pool A),
  pool_simple env self w0 P -> pool_simple env self w0 (run_schedule env start_idx sched P).
Proof.
  unfold run_schedule. induction sched as [|i sched IH]; intros w0 P H; cbn [fold_left].
  - exact H.
  - apply IH. now apply resume_simple.
Qed.

Lemma drain_simple {A : Type} : forall (ts : list (task A)) idx w,
  Forall (fun t => simple_prog env self (residual t)) ts ->
  detailed_extraction w = false ->
  simple_since env self w (snd (drain env idx ts w)).
Proof.
  induction ts as [|t ts IH]; intros idx w Hts Hw; cbn [drain].
  - now apply simple_since_refl.
  - inversion Hts as [|? ? Ht Hts']; subst.
    assert (H1 : simple_since env self w
                   (snd (match t with
                         | Finished r => (r, w)
                         | Suspended p => run_task env (Task idx) p w
                         end))).
    { destruct t as [p|r]; [now apply run_task_simple | now apply simple_since_refl]. }
    destruct (match t with
              | Finished r => (r, w)
              | Suspended p => run_task env (Task idx) p w
              end) as [[a|e] w1]; cbn [snd] in *; [|exact H1].
    specialize (IH (S idx) w1 Hts' (proj1 H1)).
    destruct (drain env (S idx) ts w1) as [rs w2]; cbn [snd] in *.
    eapply simple_since_trans; eassumption.
Qed.

Lemma gather_simple {A : Type} start_idx sched (coros : list (prog A)) w :
  Forall (simple_prog env self) coros ->
  detailed_extraction w = false ->
  simple_since env self w (snd (gather env start_idx sched coros w)).
Proof.
  intros Hc Hw. unfold gather.
  pose proof (run_schedule_simple start_idx (seq 0 (List.length coros) ++ sched) w
                (mkPool (map Suspended coros) None w)) as H.
  destruct H as [Hs Hp].
  { split; cbn [slots pool_world]; [|now apply simple_since_refl].
    rewrite Forall_map. exact Hc. }
  destruct (first_exc _); cbn [snd]; [exact Hp|].
  eapply simple_since_trans; [exact Hp|].
  apply drain_simple; [exact Hs | exact (proj1 Hp)].
Qed.

End SimplePool.


Section FeedPool.
Variable env : Env.

Lemma resume_replays {A : Type} (coros : list (prog A)) start_idx w0 i P :
  pool_replays env coros start_idx w0 P ->
  pool_replays env coros start_idx w0 (resume env start_idx i P).
Proof.
  intros (evs & Ht & Hl & Hf & Ho).
  destruct (resume_cases env start_idx i P) as [(p & Hp & ->) | ->];
    [|exists evs; auto].
  destruct (advance_feed env (Task (start_idx + i)) p (pool_world P)) as (new & Hn & Hfn).
  assert (Hi : (i < List.length coros)%nat).
  { rewrite <- Hl. apply nth_error_Some. congruence. }
  exists (evs ++ tagged (Task (start_idx + i)) new)%list. cbn [slots pool_world].
  split; [now rewrite Hn, Ht, app_assoc|].
  split; [now rewrite length_set_slot|].
  split.
  - intros j c t Hc Hj. rewrite events_of_app.
    destruct (Nat.eq_dec i j) as [<-|Hij].
    + rewrite (nth_error_set_slot_same _ _ _ _ Hp) in Hj. inversion Hj; subst.
      rewrite events_of_tagged_same.
      rewrite (feed_app _ _ _ _ (Hf _ _ _ Hc Hp)). exact Hfn.
    + rewrite nth_error_set_slot_other in Hj by assumption.
      rewrite events_of_tagged_other, app_nil_r; [now apply Hf|].
      intros E; inversion E; lia.
  - intros o H. rewrite events_of_app, (Ho o H), events_of_tagged_other; [reflexivity|].
    now apply H.
Qed.

Lemma run_schedule_replays {A : Type} (coros : list (prog A)) start_idx w0 sched :
  forall P,
  pool_replays env coros start_idx w0 P ->
  pool_replays env coros start_idx w0 (run_schedule env start_idx sched P).
Proof.
  unfold run_schedule. induction sched as [|i sched IH]; intros P H; cbn [fold_left].
  - exact H.
  - apply IH. now apply resume_replays.
Qed.

Lemma drain_replays {A : Type} : forall (ts : list (task A)) idx w rs w',
  drain env idx ts w = (Ok rs, w') ->
  exists evs,
    trace w' = (trace w ++ evs)%list /\
    List.length rs = List.length ts /\
    (forall j t, nth_error ts j = Some t ->
       exists a, nth_error rs j = Some a /\
                 feed (residual t) (events_of (Task (idx + j)) evs) = Some (Ret a)) /\
    (forall o, (forall j, (j < List.length ts)%nat -> o <> Task (idx + j)) ->
       events_of o evs = []).
Proof.
  induction ts as [|t ts IH]; intros idx w rs w' H; cbn [drain] in H.
  - inversion H; subst. exists []. rewrite app_nil_r.
    repeat split; try reflexivity.
    intros [|j] t Hj; discriminate.
  - assert (Hhead : exists new,
              trace (snd (match t with
                          | Finished r => (r, w)
                          | Suspended p => run_task env (Task idx) p w
                          end)) = (trace w ++ tagged (Task idx) new)%list /\
              feed (residual t) new
              = Some (residual (Finished (fst (match t with
                          | Finished r => (r, w)
                          | Suspended p => run_task env (Task idx) p w
                          end))))).
    { destruct t as [p|r].
      - apply run_task_feed.
      - exists []. cbn. now rewrite app_nil_r. }
    destruct Hhead as (new & Hn & Hfn).
    destruct (match t with
              | Finished r => (r, w)
              | Suspended p => run_task env (Task idx) p w
              end) as [[a|e] w1]; [|discriminate].
    cbn [fst snd] in *.
    destruct (drain env (S idx) ts w1) as [[l|e] w2] eqn:E; [|discriminate].
    inversion H; subst. clear H.
    destruct (IH _ _ _ _ E) as (evs & Ht & Hl & Hf & Ho).
    exists (tagged (Task idx) new ++ evs)%list.
    split; [now rewrite Ht, Hn, app_assoc|].
    split; [cbn; now rewrite Hl|].
    split.
    + intros [|j] t' Hj; cbn [nth_error] in *.
      * inversion Hj; subst. exists a. split; [reflexivity|].
        rewrite Nat.add_0_r, events_of_app, events_of_tagged_same.
        rewrite Ho, app_nil_r; [exact Hfn|].
        intros j Hj' E'; inversion E'; lia.
      * destruct (Hf _ _ Hj) as (a' & Ha & Hfa). exists a'. split; [exact Ha|].
        rewrite events_of_app, events_of_tagged_other, app_nil_l.
        -- now rewrite Nat.add_succ_r.
        -- intros E'; inversion E'; lia.
    + intros o H. rewrite events_of_app, events_of_tagged_other.
      * apply Ho. intros j Hj. specialize (H (S j)). cbn [List.length] in H.
        rewrite Nat.add_succ_r in H. apply H. lia.
      * specialize (H 0%nat). rewrite Nat.add_0_r in H. apply H. cbn; lia.
Qed.

(** The join hands back, at each index, what the coroutine at that index
    returned, whatever the order in which the tasks were resumed. *)
Lemma gather_replays {A : Type} start_idx sched (coros : list (prog A)) w rs w' :
  gather env start_idx sched coros w = (Ok rs, w') ->
  exists evs,
    trace w' = (trace w ++ evs)%list /\
    List.length rs = List.length coros /\
    (forall j c, nth_error coros j = Some c ->
       exists a, nth_error rs j = Some a /\
                 feed c (events_of (Task (start_idx + j)) evs) = Some (Ret a)) /\
    (forall o, (forall j, (j < List.length coros)%nat -> o <> Task (start_idx + j)) ->
       events_of o evs = []).
Proof.
  unfold gather. intros H.
  pose proof (run_schedule_replays coros start_idx w
                (seq 0 (List.length coros) ++ sched)
                (mkPool (map Suspended coros) None w)) as HP.
  destruct HP as (evs & Ht & Hl & Hf & Ho).
  { exists []. cbn [slots pool_world]. rewrite app_nil_r, length_map.
    repeat split; try reflexivity.
    intros j c t Hc Hj. rewrite nth_error_map, Hc in Hj. inversion Hj; subst.
    reflexivity. }
  destruct (first_exc _); [discriminate|].
  destruct (drain_replays _ _ _ _ _ H) as (evs' & Ht' & Hl' & Hf' & Ho').
  exists (evs ++ evs')%list.
  split; [now rewrite Ht', Ht, app_assoc|].
  split; [congruence|].
  split.
  - intros j c Hc.
    destruct (nth_error (slots (run_schedule env start_idx
                (seq 0 (List.length coros) ++ sched)
                (mkPool (map Suspended coros) None w))) j) as [t|] eqn:Ej.
    + destruct (Hf' _ _ Ej) as (a & Ha & Hfa). exists a. split; [exact Ha|].
      rewrite events_of_app. rewrite (feed_app _ _ _ _ (Hf _ _ _ Hc Ej)). exact Hfa.
    + apply nth_error_None in Ej. rewrite Hl in Ej.
      assert (j < List.length coros)%nat by (apply nth_error_Some; congruence). lia.
  - intros o H'. rewrite events_of_app, (Ho o H'), Ho'; [reflexivity|].
    rewrite Hl. exact H'.
Qed.

End FeedPool.

End PoolFacts.

(** ** The batch driver *)

Module DriverFacts.
Import LoopFacts WorldFacts TaskFacts SimpleFacts PoolFacts.

Lemma batch_tasks_length env self : forall pages start_idx,
  List.length (batch_tasks env self pages start_idx) = List.length pages.
Proof. induction pages as [|p pages IH]; intros s; cbn; auto. Qed.

Lemma batch_tasks_nth env self : forall pages start_idx j,
  nth_error (batch_tasks env self pages start_idx) j
  = option_map (fun page => _convert_page env self page (start_idx + j))
               (nth_error pages j).
Proof.
  induction pages as [|p pages IH]; intros s [|j]; cbn; try reflexivity.
  - now rewrite Nat.add_0_r.
  - rewrite IH. now rewrite Nat.add_succ_r.
Qed.

Lemma batch_tasks_simple env self : forall pages start_idx,
  Forall (simple_prog env (llm self)) (batch_tasks env self pages start_idx).
Proof.
  induction pages as [|p pages IH]; intros s; cbn; constructor; auto.
  apply simple_convert_page.
Qed.

Lemma batch_replays env self sched pages start_idx w rs w' :
  _convert_pages_batch env self sched pages start_idx w = (Ok rs, w') ->
  exists evs,
    trace w' = (trace w ++ evs)%list /\
    List.length rs = List.length pages /\
    (forall j page, nth_error pages j = Some page ->
       exists text, nth_error rs j = Some text /\
         feed (_convert_page env self page (start_idx + j))
              (events_of (Task (start_idx + j)) evs) = Some (Ret text)) /\
    (forall m, (m < start_idx \/ start_idx + List.length pages <= m)%nat ->
       events_of (Task m) evs = []).
Proof.
  unfold _convert_pages_batch. intros H.
  destruct (gather env start_idx sched (batch_tasks env self pages start_idx) w)
    as [r w1] eqn:E.
  inversion H; subst; clear H.
  destruct (gather_replays _ _ _ _ _ _ _ E) as (evs & Ht & Hl & Hf & Ho).
  rewrite batch_tasks_length in *.
  exists (evs ++ [(Driver, EvSleep (1 # 2))])%list.
  split; [cbn; now rewrite Ht, app_assoc|].
  split; [exact Hl|].
  split.
  - intros j page Hj.
    destruct (Hf j (_convert_page env self page (start_idx + j))) as (a & Ha & Hfa).
    { now rewrite batch_tasks_nth, Hj. }
    exists a. split; [exact Ha|].
    rewrite events_of_app. cbn. now rewrite app_nil_r.
  - intros m Hm. rewrite events_of_app. cbn. rewrite app_nil_r.
    apply Ho. intros j Hj E'. inversion E'. lia.
Qed.

Lemma load_pages_spec doc : forall b c ps,
  load_pages doc (seq c b) = Ok ps ->
  List.length ps = b /\
  forall j, (j < b)%nat ->
    exists page, nth_error ps j = Some page /\ nth_error doc (c + j) = Some page.
Proof.
  induction b as [|b IH]; intros c ps H; cbn in H.
  - inversion H; subst. split; [reflexivity|]. intros j Hj; lia.
  - destruct (nth_error doc c) as [page|] eqn:E; [|discriminate].
    destruct (load_pages doc (seq (S c) b)) as [l|e] eqn:El; [|discriminate].
    inversion H; subst. destruct (IH _ _ El) as [Hl Hn].
    split; [cbn; now rewrite Hl|].
    intros [|j] Hj; cbn.
    + exists page. now rewrite Nat.add_0_r.
    + destruct (Hn j) as (pg & H1 & H2); [lia|].
      exists pg. split; [exact H1|]. now rewrite Nat.add_succ_r.
Qed.

Section Order.
Variables (env : Env) (self : VisionParser) (doc : list Page).

Lemma converted_start : converted_upto env self doc 0 [] [].
Proof.
  split; [reflexivity|]. split; [intros i page Hi; lia | reflexivity].
Qed.

Lemma converted_extend c acc evs b rs evs' :
  converted_upto env self doc c acc evs ->
  List.length rs = b ->
  (forall j page, (j < b)%nat -> nth_error doc (c + j) = Some page ->
     exists text, nth_error rs j = Some text /\
       feed (_convert_page env self page (c + j)) (events_of (Task (c + j)) evs')
       = Some (Ret text)) ->
  (forall m, (m < c \/ c + b <= m)%nat -> events_of (Task m) evs' = []) ->
  converted_upto env self doc (c + b) (acc ++ rs)%list (evs ++ evs')%list.
Proof.
  intros (Hl & Hold & Hlate) Hb Hnew Hout.
  split; [rewrite length_app; lia|]. split.
  - intros i page Hi Hpage. rewrite events_of_app.
    destruct (Nat.lt_ge_cases i c) as [Hlt|Hge].
    + destruct (Hold i page Hlt Hpage) as (text & H1 & H2).
      exists text. split.
      * rewrite nth_error_app1 by lia. exact H1.
      * rewrite Hout by lia. now rewrite app_nil_r.
    + replace i with (c + (i - c))%nat in Hpage |- * by lia.
      destruct (Hnew (i - c)%nat page) as (text & H1 & H2); [lia | exact Hpage |].
      exists text. split.
      * rewrite nth_error_app2 by lia. rewrite Hl.
        replace (c + (i - c) - c)%nat with (i - c)%nat by lia. exact H1.
      * rewrite Hlate by lia. exact H2.
  - intros m Hm. rewrite events_of_app, Hlate, Hout by lia. reflexivity.
Qed.

Lemma convert_each_replays w0 : forall n c acc w rs w' evs0,
  trace w = (trace w0 ++ evs0)%list ->
  converted_upto env self doc c acc evs0 ->
  convert_each env self doc (seq c n) acc w = (Ok rs, w') ->
  exists evs,
    trace w' = (trace w0 ++ evs)%list /\
    converted_upto env self doc (c + n) rs evs.
Proof.
  induction n as [|n IH]; intros c acc w rs w' evs0 Ht Hinv H; cbn in H.
  - inversion H; subst. exists evs0. rewrite Nat.add_0_r. auto.
  - destruct (nth_error doc c) as [page|] eqn:Ep; [|discriminate].
    destruct (run_task_feed env (Task c) (_convert_page env self page c) w)
      as (new & Hn & Hf).
    destruct (run_task env (Task c) (_convert_page env self page c) w)
      as [[text|e] w1]; [|discriminate].
    cbn [fst snd residual] in *.
    destruct (IH (S c) (acc ++ [text])%list w1 rs w'
                 (evs0 ++ tagged (Task c) new)%list) as (evs & H1 & H2).
    + now rewrite Hn, Ht, app_assoc.
    + replace (S c) with (c + 1)%nat by lia.
      apply converted_extend; [exact Hinv | reflexivity | |].
      * intros j pg Hj Hpg. assert (j = 0)%nat by lia. subst j.
        rewrite Nat.add_0_r in *. rewrite Ep in Hpg. inversion Hpg; subst.
        exists text. split; [reflexivity|]. now rewrite events_of_tagged_same.
      * intros m Hm. apply events_of_tagged_other. intros E; inversion E; lia.
    + exact H.
    + exists evs. split; [exact H1|]. now rewrite Nat.add_succ_r.
Qed.

Lemma batch_size_nat c (nw : Z) n :
  (1 <= nw)%Z -> (c < n)%nat ->
  Z.to_nat (Z.min nw (Z.of_nat n - Z.of_nat c)) = Nat.min (Z.to_nat nw) (n - c).
Proof. intros. lia. Qed.

Lemma convert_batches_replays sched w0 :
  (1 <= num_workers self)%Z ->
  forall starts c acc w rs w' evs0,
  batches_from (List.length doc) (Z.to_nat (num_workers self)) c starts ->
  trace w = (trace w0 ++ evs0)%list ->
  converted_upto env self doc c acc evs0 ->
  convert_batches env self sched doc starts acc w = (Ok rs, w') ->
  exists evs,
    trace w' = (trace w0 ++ evs)%list /\
    converted_upto env self doc (List.length doc) rs evs.
Proof.
  intros Hnw.
  induction starts as [|i starts IH]; intros c acc w rs w' evs0 Hb Ht Hinv H;
    cbn [convert_batches batches_from] in *.
  - inversion H; subst. exists evs0. auto.
  - destruct Hb as (Hi & Hic & Hcn & Hb).
    assert (Ei : i = Z.of_nat c) by lia. subst i.
    rewrite Nat2Z.id in *.
    rewrite batch_size_nat in H by assumption.
    set (b := Nat.min (Z.to_nat (num_workers self)) (List.length doc - c)) in *.
    destruct (load_pages doc (seq c b)) as [batch_pages|e] eqn:El; [|discriminate].
    destruct (load_pages_spec _ _ _ _ El) as [Hlen Hnth].
    destruct (_convert_pages_batch env self (sched c) batch_pages c w)
      as [[batch_results|e] w1] eqn:Eb; [|discriminate].
    destruct (batch_replays _ _ _ _ _ _ _ _ Eb) as (evs' & Ht' & Hl' & Hf' & Ho').
    apply (IH (c + b)%nat (acc ++ batch_results)%list w1 rs w' (evs0 ++ evs')%list).
    + exact Hb.
    + now rewrite Ht', Ht, app_assoc.
    + apply converted_extend; [exact Hinv | congruence | |].
      * intros j page Hj Hpage.
        destruct (Hnth j Hj) as (pg & H1 & H2).
        rewrite H2 in Hpage. inversion Hpage; subst.
        exact (Hf' _ _ H1).
      * intros m Hm. apply Ho'. lia.
    + exact H.
Qed.

End Order.

(** [range(0, n, nw)] cuts the pages into consecutive batches. *)
Lemma range_step_batches n nw starts :
  (1 <= nw)%Z ->
  range_step (Z.of_nat n) nw = Ok starts ->
  batches_from n (Z.to_nat nw) 0 starts.
Proof.
  intros Hnw. unfold range_step.
  destruct (nw =? 0)%Z eqn:E0; [apply Z.eqb_eq in E0; lia|].
  destruct (nw <? 0)%Z eqn:E1; [apply Z.ltb_lt in E1; lia|].
  intros H; inversion H; subst; clear H.
  set (q := ((Z.of_nat n + nw - 1) / nw)%Z).
  assert (Hq1 : (nw * q <= Z.of_nat n + nw - 1)%Z) by (apply Z.mul_div_le; lia).
  assert (Hq2 : (Z.of_nat n + nw - 1 < nw * Z.succ q)%Z)
    by (apply Z.mul_succ_div_gt; lia).
  assert (Hq0 : (0 <= q)%Z) by (apply Z.div_pos; lia).
  set (W := Z.to_nat nw). set (cnt := Z.to_nat q).
  assert (HW : Z.of_nat W = nw) by (subst W; lia).
  assert (Hc : Z.of_nat cnt = q) by (subst cnt; lia).
  assert (P2 : (n <= cnt * W)%nat) by nia.
  assert (P1 : forall k, (k < cnt)%nat -> (k * W < n)%nat) by (intros k Hk; nia).
  assert (G : forall cnt' k0, (k0 + cnt' = cnt)%nat ->
            batches_from n W (Nat.min (k0 * W) n)
              (map (fun k => (Z.of_nat k * nw)%Z) (seq k0 cnt'))).
  { induction cnt' as [|cnt' IH]; intros k0 Hk; cbn [seq map batches_from].
    - assert (k0 = cnt) by lia. subst k0. lia.
    - assert (Hlt : (k0 * W < n)%nat) by (apply P1; lia).
      split; [nia|]. split; [nia|]. split; [lia|].
      replace (Nat.min (k0 * W) n + Nat.min W (n - Nat.min (k0 * W) n))%nat
        with (Nat.min (S k0 * W) n) by nia.
      apply IH. lia. }
  apply (G cnt 0%nat). lia.
Qed.

End DriverFacts.

(** ** Files and matrices *)

Module ParserFacts.

(** C8: the matrix of a page is the scaling by [2 * (dpi / 72)] on both
    axes, multiplied on the left by the rotation of the page (a
    pre-rotation); a page whose rotation is 0 gets the scaling alone, any
    other page the scaling pre-rotated by [Matrix.prerotate]. *)
Theorem calculate_matrix_is_rotated_scaling env cfg page :
  let s := 2 * (inject_Z (dpi cfg) / 72) in
  Matrix_eq (_calculate_matrix env cfg page)
            (Matrix_concat (rotation_matrix env (rotation page)) (Matrix_scale s s))
  /\ (rotation page = 0%Z ->
      Matrix_eq (_calculate_matrix env cfg page) (Matrix_scale s s))
  /\ (rotation page <> 0%Z ->
      Matrix_eq (_calculate_matrix env cfg page)
                (prerotate (trig env) (Matrix_scale s s) (rotation page))).
Proof.
  intros s. unfold _calculate_matrix.
  split; [|split].
  - destruct (rotation page =? 0)%Z eqn:E; cbn [negb].
    + apply Z.eqb_eq in E. rewrite E. unfold Matrix_eq; cbn. subst s.
      repeat split; ring.
    + unfold prerotate, rotation_matrix, cos_sin.
      destruct (norm_angle (rotation page) =? 0)%Z;
        [|destruct (norm_angle (rotation page) =? 90)%Z;
          [|destruct (norm_angle (rotation page) =? 180)%Z;
            [|destruct (norm_angle (rotation page) =? 270)%Z;
              [|destruct (trig env (norm_angle (rotation page))) as [c sn]]]]];
        unfold Matrix_eq; cbn; subst s; repeat split; ring.
  - intros ->. unfold Matrix_eq; cbn. subst s. repeat split; ring.
  - intros H. apply Z.eqb_neq in H. rewrite H. cbn [negb].
    unfold prerotate.
    destruct (norm_angle (rotation page) =? 0)%Z;
        [|destruct (norm_angle (rotation page) =? 90)%Z;
          [|destruct (norm_angle (rotation page) =? 180)%Z;
            [|destruct (norm_angle (rotation page) =? 270)%Z;
              [|destruct (trig env (norm_angle (rotation page))) as [c sn]]]]];
        unfold Matrix_eq; cbn; subst s; repeat split; ring.
Qed.

Lemma calculate_matrix_witness :
  let env := Demo.env_of Demo.echo in
  let turned := mkPage 90 (fun _ _ _ _ => Ok (mkPixmap (Ok "p"))) in
  let s := 2 * (inject_Z 150 / 72) in
  s == 25 # 6 /\
  Matrix_eq (_calculate_matrix env default_page_config (Demo.page "p"))
            (Matrix_scale s s) /\
  Matrix_eq (_calculate_matrix env default_page_config turned)
            (prerotate (trig env) (Matrix_scale s s) 90) /\
  Matrix_eq (_calculate_matrix env default_page_config turned)
            (Matrix_concat (mkMatrix 0 1 (-(1)) 0 0 0) (Matrix_scale s s)).
Proof.
  pose proof (calculate_matrix_is_rotated_scaling (Demo.env_of Demo.echo)
                default_page_config (Demo.page "p")) as [_ [H0 _]].
  pose proof (calculate_matrix_is_rotated_scaling (Demo.env_of Demo.echo)
                default_page_config (mkPage 90 (fun _ _ _ _ => Ok (mkPixmap (Ok "p")))))
    as [Hrot [_ H90]].
  split; [reflexivity|].
  split; [exact (H0 eq_refl)|].
  split; [|exact Hrot].
  apply H90. discriminate.
Defined.

(** C7: [convert_file] raises [FileNotFoundError] when the path does not
    exist (or is not a regular file) and [UnsupportedFileError] when the
    lower-cased suffix is not [.pdf], [.png], [.jpg] or [.jpeg]; both leave
    the world untouched, so no call of the service is made; the message
    names the path as [str(Path(file_path))] writes it.  The file is
    classified by its name alone: two files under the same name that agree
    on what the opener chosen by the suffix returns are converted alike. *)
Theorem convert_file_rejects_by_name env fs self sched file_path w :
  ((fs file_path = None \/
    exists entry, fs file_path = Some entry /\ is_file entry = Ok false) ->
   convert_file env fs self sched file_path w
   = (Raise (mk_exn FileNotFoundError ("File not found: " ++ Path.to_str file_path)), w))
  /\
  (forall entry,
     fs file_path = Some entry -> is_file entry = Ok true ->
     Str.mem (Str.lower (Path.suffix file_path)) supported_suffixes = false ->
     convert_file env fs self sched file_path w
     = (Raise (mk_exn UnsupportedFileError
                 ("Unsupported file type: " ++ Path.to_str file_path)), w))
  /\
  (forall fs' entry entry',
     fs file_path = Some entry -> fs' file_path = Some entry' ->
     is_file entry = Ok true -> is_file entry' = Ok true ->
     (if Str.mem (Str.lower (Path.suffix file_path)) image_suffixes
      then open_image entry = open_image entry'
      else open_pdf entry = open_pdf entry') ->
     convert_file env fs self sched file_path w
     = convert_file env fs' self sched file_path w).
Proof.
  unfold convert_file. split; [|split].
  - intros [-> | [entry [-> ->]]]; reflexivity.
  - intros entry -> -> ->. reflexivity.
  - intros fs' entry entry' -> -> -> -> H. cbn [negb].
    destruct (Str.mem (Str.lower (Path.suffix file_path)) supported_suffixes);
      cbn [negb]; [|reflexivity].
    unfold convert_opened.
    destruct (Str.mem (Str.lower (Path.suffix file_path)) image_suffixes);
      rewrite H; reflexivity.
Qed.

Lemma convert_file_rejects_by_name_witness :
  let env := Demo.env_of Demo.echo in
  let self := Demo.parser 4 true in
  convert_file env Demo.files self (fun _ => []) "missing.pdf" (Demo.fresh true)
  = (Raise (mk_exn FileNotFoundError "File not found: missing.pdf"), Demo.fresh true) /\
  convert_file env Demo.files self (fun _ => []) "report.docx" (Demo.fresh true)
  = (Raise (mk_exn UnsupportedFileError "Unsupported file type: report.docx"),
     Demo.fresh true) /\
  calls_made (snd (convert_file env Demo.files self (fun _ => []) "report.docx"
                                (Demo.fresh true))) = 0%nat.
Proof.
  pose proof (convert_file_rejects_by_name (Demo.env_of Demo.echo) Demo.files
                (Demo.parser 4 true) (fun _ => []) "missing.pdf" (Demo.fresh true))
    as [Hmissing _].
  pose proof (convert_file_rejects_by_name (Demo.env_of Demo.echo) Demo.files
                (Demo.parser 4 true) (fun _ => []) "report.docx" (Demo.fresh true))
    as [_ [Hsuffix _]].
  split; [exact (Hmissing (or_introl eq_refl))|].
  split; [exact (Hsuffix _ eq_refl eq_refl eq_refl)|].
  rewrite (Hsuffix _ eq_refl eq_refl eq_refl). reflexivity.
Defined.
End ParserFacts.

(** ** Conversions that return *)

Module ReturnFacts.
Import LoopFacts WorldFacts TaskFacts SimpleFacts PoolFacts DriverFacts.

Lemma wp_weaken {A : Type} env (p : prog A) : forall off (Q Q' : bool -> A -> Prop) (E E' : bool -> exn -> Prop),
  (forall o a, Q o a -> Q' o a) -> (forall o e, E o e -> E' o e) ->
  wp env off p Q E -> wp env off p Q' E'.
Proof.
  induction p; intros off Q Q' E E' HQ HE; cbn [wp]; eauto.
  intros [H1 H2]. split; eauto.
Qed.

Lemma wp_bind {A B : Type} env (p : prog A) (f : A -> prog B) : forall off Q E,
  wp env off p (fun off' a => wp env off' (f a) Q E) E ->
  wp env off (bind p f) Q E.
Proof.
  induction p; intros off Q E; cbn [wp bind]; eauto.
  intros [H1 H2]. split; eauto.
Qed.

Lemma wp_on_raise {A : Type} env (p : prog A) h : forall off Q E,
  wp env off p Q (fun off' e => wp env off' (h e) Q E) ->
  wp env off (on_raise p h) Q E.
Proof.
  induction p; intros off Q E; cbn [wp on_raise]; eauto.
  intros [H1 H2]. split; eauto.
Qed.

Lemma wp_finally {A : Type} env (p : prog A) q : forall off Q E,
  wp env off p (fun off' a => wp env off' q (fun off'' _ => Q off'' a) E)
               (fun off' e => wp env off' q (fun off'' _ => E off'' e) E) ->
  wp env off (try_finally p q) Q E.
Proof.
  induction p; intros off Q E; cbn [wp try_finally]; eauto.
  - intros H. apply wp_bind. exact H.
  - intros H. apply wp_bind. exact H.
  - intros [H1 H2]. split; eauto.
Qed.

Section Sound.
Variable env : Env.
Hypothesis Hanswers : always_answers env.

Lemma wp_run_task {A : Type} o (p : prog A) : forall off Q E w,
  wp env off p Q E ->
  (off = true -> detailed_extraction w = false) ->
  match fst (run_task env o p w) with
  | Ok a => exists off', Q off' a
  | Raise e => exists off', E off' e
  end.
Proof.
  induction p as [a|e|k IH|k IH|async req k IH|pix mode pn k IH|secs k IH];
    intros off Q E w H Hoff; cbn [wp run_task fst] in *.
  - exists off. exact H.
  - exists off. exact H.
  - destruct H as [H1 H2].
    destruct (detailed_extraction w) eqn:Ew.
    + apply (IH true false); [|discriminate]. apply H2.
      destruct off; [specialize (Hoff eq_refl); discriminate | reflexivity].
    + apply (IH false true); [exact H1 | intros _; exact Ew].
  - apply (IH true); [exact H | reflexivity].
  - destruct (Hanswers (calls_made w) req) as [text Ht]. rewrite Ht.
    apply (IH (Ok text) off); [apply H | exact Hoff].
  - apply (IH _ off); [exact H | exact Hoff].
  - apply (IH off); [exact H | exact Hoff].
Qed.

Lemma wp_advance {A : Type} o (p : prog A) : forall off Q E w,
  wp env off p Q E ->
  (off = true -> detailed_extraction w = false) ->
  exists off',
    wp env off' (residual (fst (advance env o p w))) Q E /\
    (off' = true -> detailed_extraction (snd (advance env o p w)) = false).
Proof.
  induction p as [a|e|k IH|k IH|async req k IH|pix mode pn k IH|secs k IH];
    intros off Q E w H Hoff; cbn [wp advance fst snd residual] in *.
  - exists off. split; assumption.
  - exists off. split; assumption.
  - destruct H as [H1 H2].
    destruct (detailed_extraction w) eqn:Ew.
    + apply (IH true false); [|discriminate]. apply H2.
      destruct off; [specialize (Hoff eq_refl); discriminate | reflexivity].
    + apply (IH false true); [exact H1 | intros _; exact Ew].
  - apply (IH true); [exact H | reflexivity].
  - destruct (Hanswers (calls_made w) req) as [text Ht]. rewrite Ht.
    destruct async.
    + exists off. cbn [fst snd residual]. split; [apply H | exact Hoff].
    + apply (IH (Ok text) off); [apply H | exact Hoff].
  - apply (IH _ off); [exact H | exact Hoff].
  - exists off. split; [exact H | exact Hoff].
Qed.


Lemma wp_gemini self base64_encoded prompt structured off
    (Q : bool -> string -> Prop) E :
  (forall text, Q off text) ->
  wp env off (_gemini self base64_encoded prompt structured) Q E.
Proof.
  intros H. unfold _gemini, Tenacity.retry, _gemini_body, except_Exception.
  cbn. intros text. apply H.
Qed.

Hypothesis Hraise : collaborators_raise_exceptions env.

Lemma returns_assemble self base64_encoded off prompt extracted_images :
  (prompt = None -> off = true) ->
  wp env off
     (generate_and_assemble env self base64_encoded (Fell_through prompt extracted_images))
     (fun _ _ => True) (fun _ _ => False).
Proof.
  intros Hp. cbn [generate_and_assemble wp negb]. split.
  - apply wp_bind. apply wp_gemini. intros text. exact I.
  - intros Hoff. destruct prompt as [prompt'|].
    + apply wp_bind. apply wp_gemini. intros text. exact I.
    + rewrite Hp in Hoff by reflexivity. discriminate.
Qed.

Lemma returns_generate_markdown self base64_encoded pix page_number :
  returns env (generate_markdown env self base64_encoded pix page_number).
Proof.
  destruct Hraise as [Hdecode Hextract].
  unfold returns, generate_markdown. cbn [wp]. split.
  - cbn [bind]. now apply returns_assemble.
  - intros _. apply wp_bind. unfold except_Exception. apply wp_on_raise.
    unfold analyse. apply wp_bind. apply wp_gemini. intros text.
    apply wp_bind.
    destruct (model_validate_json env text) as [d|e] eqn:Ed; cbn [lift wp].
    + destruct (text_detected d); [|exact I].
      apply wp_bind.
      destruct (images_detected d);
        [|cbn [wp]; apply returns_assemble; discriminate].
      destruct (image_mode self) as [mode|];
        [|cbn [wp]; apply returns_assemble; discriminate].
      cbn [wp].
      destruct (extract_images env pix mode page_number) as [imgs|e] eqn:Ee; cbn [lift wp].
      * apply returns_assemble; discriminate.
      * rewrite (Hextract _ _ _ _ Ee). cbn [wp]. now apply returns_assemble.
    + rewrite (Hdecode _ _ Ed). cbn [wp]. now apply returns_assemble.
Qed.

Lemma returns_convert_page self page page_number :
  (forall m alpha cs annots,
     exists pix image,
       get_pixmap page m alpha cs annots = Ok pix /\ png_base64 pix = Ok image) ->
  returns env (_convert_page env self page page_number).
Proof.
  intros Hr. unfold returns, _convert_page.
  destruct (Hr (_calculate_matrix env (page_config self) page)
               (preserve_transparency (page_config self))
               (color_space (page_config self))
               (include_annotations (page_config self))) as (pix & image & -> & ->).
  apply wp_finally. unfold except_Exception. apply wp_on_raise.
  eapply wp_weaken; [| |apply returns_generate_markdown]; cbn; auto.
  intros _ e [].
Qed.

Lemma slot_returns_later {A : Type} w w' (t : task A) :
  (detailed_extraction w = false -> detailed_extraction w' = false) ->
  slot_returns env w t -> slot_returns env w' t.
Proof. intros Hm (off & H1 & H2). exists off. split; auto. Qed.

Lemma resume_returns {A : Type} start_idx i (P : pool A) :
  first_exc P = None -> Forall (slot_returns env (pool_world P)) (slots P) ->
  first_exc (resume env start_idx i P) = None /\
  Forall (slot_returns env (pool_world (resume env start_idx i P)))
         (slots (resume env start_idx i P)).
Proof.
  intros Hx Hs.
  destruct (resume_cases env start_idx i P) as [(p & Hp & ->) | ->]; [|now split].
  cbn [slots first_exc pool_world].
  assert (Hsp : slot_returns env (pool_world P) (Suspended p)).
  { apply nth_error_In in Hp. rewrite Forall_forall in Hs. exact (Hs _ Hp). }
  destruct Hsp as (off & Hwp & Hoff).
  destruct (wp_advance (Task (start_idx + i)) p off _ _ (pool_world P) Hwp Hoff)
    as (off' & Hwp' & Hoff').
  split.
  - rewrite Hx.
    destruct (fst (advance env (Task (start_idx + i)) p (pool_world P))) as [q|[a|e]];
      try reflexivity.
    cbn in Hwp'. contradiction.
  - apply Forall_set_slot.
    + eapply Forall_impl; [|exact Hs]. intros t. apply slot_returns_later.
      apply advance_flag.
    + exists off'. split; assumption.
Qed.

Lemma run_schedule_returns {A : Type} start_idx sched : forall (P : pool A),
  first_exc P = None -> Forall (slot_returns env (pool_world P)) (slots P) ->
  first_exc (run_schedule env start_idx sched P) = None /\
  Forall (slot_returns env (pool_world (run_schedule env start_idx sched P)))
         (slots (run_schedule env start_idx sched P)).
Proof.
  unfold run_schedule. induction sched as [|i sched IH]; intros P Hx Hs; cbn [fold_left].
  - now split.
  - destruct (resume_returns start_idx i P Hx Hs) as [H1 H2]. now apply IH.
Qed.

Lemma drain_returns {A : Type} : forall (ts : list (task A)) idx w,
  Forall (slot_returns env w) ts -> exists rs, fst (drain env idx ts w) = Ok rs.
Proof.
  induction ts as [|t ts IH]; intros idx w Hs; cbn [drain].
  - now exists [].
  - inversion Hs as [|? ? (off & Hwp & Hoff) Hs']; subst.
    assert (H1 : (exists a, fst (match t with
                               | Finished r => (r, w)
                               | Suspended p => run_task env (Task idx) p w
                               end) = Ok a) /\
                 (detailed_extraction w = false ->
                  detailed_extraction (snd (match t with
                               | Finished r => (r, w)
                               | Suspended p => run_task env (Task idx) p w
                               end)) = false)).
    { destruct t as [p|[a|e]]; cbn [residual wp fst snd] in *.
      - split; [|apply run_task_flag].
        pose proof (wp_run_task (Task idx) p off _ _ w Hwp Hoff) as H.
        destruct (fst (run_task env (Task idx) p w)) as [a|e]; [now exists a|].
        destruct H as [_ []].
      - split; [now exists a | auto].
      - contradiction. }
    destruct H1 as [[a Ha] Hm].
    destruct (match t with
              | Finished r => (r, w)
              | Suspended p => run_task env (Task idx) p w
              end) as [r w1]; cbn [fst snd] in *. subst r.
    destruct (IH (S idx) w1) as [rs Hrs].
    { eapply Forall_impl; [|exact Hs']. intros t'. now apply slot_returns_later. }
    destruct (drain env (S idx) ts w1) as [r2 w2]; cbn [fst] in *. subst r2.
    now exists (a :: rs).
Qed.

Lemma gather_returns {A : Type} start_idx sched (coros : list (prog A)) w :
  Forall (returns env) coros ->
  exists rs, fst (gather env start_idx sched coros w) = Ok rs.
Proof.
  intros Hc. unfold gather.
  destruct (run_schedule_returns start_idx (seq 0 (List.length coros) ++ sched)
              (mkPool (map Suspended coros) None w)) as [Hx Hs].
  - reflexivity.
  - cbn [slots pool_world]. rewrite Forall_map.
    eapply Forall_impl; [|exact Hc]. intros c Hr. exists false. split; [exact Hr|].
    discriminate.
  - rewrite Hx. now apply drain_returns.
Qed.


Lemma batch_returns self sched pages start_idx w :
  renders pages ->
  exists rs, fst (_convert_pages_batch env self sched pages start_idx w) = Ok rs.
Proof.
  intros Hr. unfold _convert_pages_batch.
  destruct (gather_returns start_idx sched (batch_tasks env self pages start_idx) w)
    as [rs Hrs].
  - clear w. revert start_idx. induction pages as [|page pages IH]; intros start_idx;
      cbn [batch_tasks]; constructor.
    + apply returns_convert_page. apply Hr. now left.
    + apply IH. intros pg Hpg. apply Hr. now right.
  - destruct (gather env start_idx sched _ w) as [r w1]. cbn [fst] in *. now exists rs.
Qed.

Lemma load_pages_ok doc : forall b c,
  (c + b <= List.length doc)%nat ->
  exists ps, load_pages doc (seq c b) = Ok ps /\ forall page, In page ps -> In page doc.
Proof.
  induction b as [|b IH]; intros c Hc; cbn [seq load_pages].
  - exists []. split; [reflexivity | intros page []].
  - destruct (nth_error doc c) as [page|] eqn:E.
    + destruct (IH (S c)) as (ps & Hps & Hin); [lia|]. rewrite Hps.
      exists (page :: ps). split; [reflexivity|].
      intros pg [<-|Hpg]; [eapply nth_error_In; eassumption | now apply Hin].
    + apply nth_error_None in E. lia.
Qed.

Lemma convert_each_returns self doc :
  renders doc ->
  forall n c acc w, (c + n <= List.length doc)%nat ->
  exists rs, fst (convert_each env self doc (seq c n) acc w) = Ok rs.
Proof.
  intros Hr. induction n as [|n IH]; intros c acc w Hc; cbn [seq convert_each].
  - now exists acc.
  - destruct (nth_error doc c) as [page|] eqn:E;
      [|apply nth_error_None in E; lia].
    pose proof (wp_run_task (Task c) (_convert_page env self page c) false _ _ w
                  (returns_convert_page self page c
                     (Hr page (nth_error_In _ _ E)))) as H.
    destruct (run_task env (Task c) (_convert_page env self page c) w) as [[text|e] w1];
      cbn [fst] in H.
    + apply IH. lia.
    + destruct H as [_ []]. discriminate.
Qed.

Lemma convert_batches_returns self sched doc :
  renders doc -> (1 <= num_workers self)%Z ->
  forall starts c acc w,
  batches_from (List.length doc) (Z.to_nat (num_workers self)) c starts ->
  exists rs, fst (convert_batches env self sched doc starts acc w) = Ok rs.
Proof.
  intros Hr Hnw.
  induction starts as [|i starts IH]; intros c acc w Hb;
    cbn [convert_batches batches_from] in *.
  - now exists acc.
  - destruct Hb as (Hi & Hic & Hcn & Hb).
    assert (Ei : i = Z.of_nat c) by lia. subst i.
    rewrite Nat2Z.id in *. rewrite batch_size_nat by assumption.
    set (b := Nat.min (Z.to_nat (num_workers self)) (List.length doc - c)) in *.
    destruct (load_pages_ok doc b c) as (ps & -> & Hin); [lia|].
    destruct (batch_returns self (sched c) ps c w) as [rs Hrs].
    { intros page Hp. apply Hr. now apply Hin. }
    destruct (_convert_pages_batch env self (sched c) ps c w) as [r w1].
    cbn [fst] in Hrs. subst r. eapply IH. exact Hb.
Qed.

Lemma convert_file_returns fs self sched file_path w entry :
  (1 <= num_workers self)%Z ->
  fs file_path = Some entry ->
  is_file entry = Ok true ->
  Str.mem (Str.lower (Path.suffix file_path)) supported_suffixes = true ->
  (if Str.mem (Str.lower (Path.suffix file_path)) image_suffixes
   then exists page, open_image entry = Ok page /\ renders [page]
   else exists doc, open_pdf entry = Ok doc /\ renders doc) ->
  exists results, fst (convert_file env fs self sched file_path w) = Ok results.
Proof.
  intros Hnw Hfs Hfile Hsup Hopen. unfold convert_file.
  rewrite Hfs, Hfile, Hsup. cbn [negb].
  assert (G : exists results,
            fst (convert_opened env self sched entry
                   (Str.lower (Path.suffix file_path)) w) = Ok results).
  { unfold convert_opened.
    destruct (Str.mem (Str.lower (Path.suffix file_path)) image_suffixes).
    - destruct Hopen as (page & -> & Hr).
      pose proof (wp_run_task (Task 0) (_convert_page env self page 0) false _ _ w
                    (returns_convert_page self page 0 (Hr page (or_introl eq_refl)))) as H.
      destruct (run_task env (Task 0) (_convert_page env self page 0) w)
        as [[text|e] w1]; cbn [fst] in *.
      + now exists [text].
      + destruct H as [_ []]. discriminate.
    - destruct Hopen as (doc & -> & Hr).
      destruct (enable_concurrency self).
      + destruct (range_step (Z.of_nat (List.length doc)) (num_workers self))
          as [starts|e] eqn:Er.
        * apply (convert_batches_returns self sched doc Hr Hnw starts 0%nat).
          now apply range_step_batches.
        * unfold range_step in Er.
          destruct (num_workers self =? 0)%Z eqn:E0; [apply Z.eqb_eq in E0; lia|].
          destruct (num_workers self <? 0)%Z; discriminate.
      + apply convert_each_returns; [exact Hr | lia]. }
  destruct G as [results Hres].
  destruct (convert_opened env self sched entry _ w) as [r w1]. cbn [fst] in Hres.
  subst r. now exists results.
Qed.

End Sound.
End ReturnFacts.

(** ** Whole conversions *)

Module ConversionFacts.
Import LoopFacts WorldFacts TaskFacts SimpleFacts PoolFacts DriverFacts ExtractionFacts.

Lemma convert_file_ok env fs self sched file_path w entry results w' :
  fs file_path = Some entry ->
  convert_file env fs self sched file_path w = (Ok results, w') ->
  convert_opened env self sched entry (Str.lower (Path.suffix file_path)) w
  = (Ok results, w').
Proof.
  unfold convert_file. intros -> H. cbv zeta in H.
  destruct (is_file entry) as [[|]|e0]; try discriminate.
  destruct (Str.mem _ supported_suffixes); cbn [negb] in H; [|discriminate].
  destruct (convert_opened _ _ _ _ _ _) as [[l|e] w1]; [exact H|].
  destruct (is_Exception e); discriminate.
Qed.

Lemma convert_file_order env fs self sched file_path w entry results w' :
  (1 <= num_workers self)%Z ->
  fs file_path = Some entry ->
  convert_file env fs self sched file_path w = (Ok results, w') ->
  let evs := new_events w w' in
  if Str.mem (Str.lower (Path.suffix file_path)) image_suffixes then
    exists page text,
      open_image entry = Ok page /\ results = [text] /\
      feed (_convert_page env self page 0) (events_of (Task 0) evs) = Some (Ret text)
  else
    exists pdf_document,
      open_pdf entry = Ok pdf_document /\
      List.length results = List.length pdf_document /\
      forall i page, nth_error pdf_document i = Some page ->
        exists text,
          nth_error results i = Some text /\
          feed (_convert_page env self page i) (events_of (Task i) evs) = Some (Ret text).
Proof.
  intros Hnw Hfs H. apply (convert_file_ok _ _ _ _ _ _ _ _ _ Hfs) in H.
  unfold convert_opened in H. cbv zeta.
  destruct (Str.mem (Str.lower (Path.suffix file_path)) image_suffixes).
  - destruct (open_image entry) as [page|e]; [|discriminate].
    destruct (run_task_feed env (Task 0) (_convert_page env self page 0) w)
      as (new & Hn & Hf).
    destruct (run_task env (Task 0) (_convert_page env self page 0) w)
      as [[text|e] w1]; [|discriminate].
    inversion H; subst. cbn [fst snd residual] in *.
    exists page, text. repeat split.
    rewrite (new_events_app _ _ _ Hn), events_of_tagged_same. exact Hf.
  - destruct (open_pdf entry) as [doc|e]; [|discriminate].
    exists doc. split; [reflexivity|].
    assert (G : exists evs, trace w' = (trace w ++ evs)%list /\
                  converted_upto env self doc (List.length doc) results evs).
    { destruct (enable_concurrency self).
      - destruct (range_step (Z.of_nat (List.length doc)) (num_workers self))
          as [starts|e] eqn:Er; [|discriminate].
        apply (convert_batches_replays env self doc sched w Hnw starts 0%nat [] w
                 results w' []).
        + now apply range_step_batches.
        + now rewrite app_nil_r.
        + apply converted_start.
        + exact H.
      - apply (convert_each_replays env self doc w (List.length doc) 0%nat [] w
                 results w' []).
        + now rewrite app_nil_r.
        + apply converted_start.
        + exact H. }
    destruct G as (evs & Ht & Hl & Hc & _).
    rewrite (new_events_app _ _ _ Ht).
    split; [exact Hl|].
    intros i page Hi. apply Hc; [|exact Hi].
    apply nth_error_Some. congruence.
Qed.

(** C1: for a worker count of at least 1, with concurrency on or off and
    under every order in which the event loop resumes the tasks of a batch:
    (a) when the service answers every call, the pages render and encode
    and the decoder and extractor fail only with [Exception]s, [convert_file]
    returns a list; (b) whenever it returns a list, that list has one entry
    per page of the PDF (exactly one for a PNG/JPEG image), and entry [i] is
    the markdown that the conversion of page [i] returned: the coroutine
    [_convert_page(pdf_document[i], i)] replayed on the effects of its own
    task ends in that entry. *)
Theorem convert_file_keeps_page_order env fs self sched file_path w entry :
  (1 <= num_workers self)%Z ->
  fs file_path = Some entry ->
  (is_file entry = Ok true ->
   Str.mem (Str.lower (Path.suffix file_path)) supported_suffixes = true ->
   always_answers env ->
   collaborators_raise_exceptions env ->
   (if Str.mem (Str.lower (Path.suffix file_path)) image_suffixes
    then exists page, open_image entry = Ok page /\ renders [page]
    else exists doc, open_pdf entry = Ok doc /\ renders doc) ->
   exists results, fst (convert_file env fs self sched file_path w) = Ok results)
  /\
  (forall results w',
     convert_file env fs self sched file_path w = (Ok results, w') ->
     let evs := new_events w w' in
     if Str.mem (Str.lower (Path.suffix file_path)) image_suffixes then
       exists page text,
         open_image entry = Ok page /\ results = [text] /\
         feed (_convert_page env self page 0) (events_of (Task 0) evs) = Some (Ret text)
     else
       exists pdf_document,
         open_pdf entry = Ok pdf_document /\
         List.length results = List.length pdf_document /\
         forall i page, nth_error pdf_document i = Some page ->
           exists text,
             nth_error results i = Some text /\
             feed (_convert_page env self page i) (events_of (Task i) evs)
             = Some (Ret text)).
Proof.
  intros Hnw Hfs. split.
  - intros Hfile Hsup Hans Hraise Hopen.
    now apply (ReturnFacts.convert_file_returns env Hans Hraise fs self sched
                 file_path w entry).
  - intros results w' H. now apply (convert_file_order env fs self sched file_path w entry).
Qed.

Lemma demo_collaborators service :
  collaborators_raise_exceptions (Demo.env_of service).
Proof.
  split.
  - intros s e. cbn. unfold Demo.decode.
    destruct (String.eqb s "{no text}"); [discriminate|].
    destruct (String.eqb s "{images}"); [discriminate|].
    intros H. inversion H. reflexivity.
  - intros pix mode n e. cbn. discriminate.
Defined.

Lemma demo_renders : renders Demo.ten_pages.
Proof.
  intros page Hin m alpha cs annots.
  repeat (destruct Hin as [<-|Hin]; [eexists; eexists; split; reflexivity|]).
  destruct Hin.
Defined.

Lemma convert_file_keeps_page_order_witness :
  let env := Demo.env_of Demo.echo in
  let self := Demo.parser 4 true in
  let sched := fun _ : nat => [3; 1; 0; 2; 1]%nat in
  let r := convert_file env Demo.files self sched "ten.pdf" (Demo.fresh false) in
  (exists results, fst r = Ok results) /\
  fst r = Ok ["# p0"; "# p1"; "# p2"; "# p3"; "# p4"; "# p5"; "# p6"; "# p7"; "# p8"; "# p9"]
  /\ exists pdf_document,
      Ok Demo.ten_pages = Ok pdf_document /\
      10%nat = List.length pdf_document /\
      forall i page, nth_error pdf_document i = Some page ->
        exists text,
          nth_error ["# p0"; "# p1"; "# p2"; "# p3"; "# p4";
                     "# p5"; "# p6"; "# p7"; "# p8"; "# p9"] i = Some text /\
          feed (_convert_page env self page i)
               (events_of (Task i) (new_events (Demo.fresh false) (snd r)))
          = Some (Ret text).
Proof.
  pose proof (convert_file_keeps_page_order (Demo.env_of Demo.echo) Demo.files
                (Demo.parser 4 true) (fun _ : nat => [3; 1; 0; 2; 1]%nat) "ten.pdf"
                (Demo.fresh false)
                (mkFileEntry (Ok true) (Ok Demo.ten_pages) (Ok (Demo.page "img")))
                (proj1 (Z.leb_le 1 4) eq_refl) eq_refl) as [Hreturns Horder].
  split; [|split].
  - apply (Hreturns eq_refl eq_refl).
    + intros n req. eexists. reflexivity.
    + apply demo_collaborators.
    + exists Demo.ten_pages. split; [reflexivity | apply demo_renders].
  - vm_compute. reflexivity.
  - assert (Hrun : convert_file (Demo.env_of Demo.echo) Demo.files (Demo.parser 4 true)
                     (fun _ : nat => [3; 1; 0; 2; 1]%nat) "ten.pdf" (Demo.fresh false)
                   = (Ok ["# p0"; "# p1"; "# p2"; "# p3"; "# p4";
                          "# p5"; "# p6"; "# p7"; "# p8"; "# p9"],
                      snd (convert_file (Demo.env_of Demo.echo) Demo.files
                             (Demo.parser 4 true)
                             (fun _ : nat => [3; 1; 0; 2; 1]%nat) "ten.pdf"
                             (Demo.fresh false))))
      by (vm_compute; reflexivity).
    exact (Horder _ _ Hrun).
Defined.





Section SimpleDriver.
Variables (env : Env) (self : VisionParser).

Lemma batch_simple sched pages start_idx w :
  detailed_extraction w = false ->
  simple_since env (llm self) w
    (snd (_convert_pages_batch env self sched pages start_idx w)).
Proof.
  intros Hw. unfold _convert_pages_batch.
  pose proof (gather_simple env (llm self) start_idx sched
                (batch_tasks env self pages start_idx) w
                (batch_tasks_simple env self pages start_idx) Hw) as H.
  destruct (gather env start_idx sched _ w) as [r w1]. cbn [snd] in *.
  eapply simple_since_trans; [exact H|].
  apply simple_since_log; [exact (proj1 H) | exact I].
Qed.

Lemma convert_batches_simple sched doc : forall starts acc w,
  detailed_extraction w = false ->
  simple_since env (llm self) w (snd (convert_batches env self sched doc starts acc w)).
Proof.
  induction starts as [|i starts IH]; intros acc w Hw; cbn [convert_batches].
  - now apply simple_since_refl.
  - destruct (load_pages doc _) as [batch_pages|e]; [|now apply simple_since_refl].
    pose proof (batch_simple (sched (Z.to_nat i)) batch_pages (Z.to_nat i) w Hw) as H.
    destruct (_convert_pages_batch env self _ batch_pages _ w) as [[rs|e] w1];
      cbn [snd] in *; [|exact H].
    eapply simple_since_trans; [exact H|]. apply IH. exact (proj1 H).
Qed.

Lemma convert_each_simple doc : forall page_numbers acc w,
  detailed_extraction w = false ->
  simple_since env (llm self) w (snd (convert_each env self doc page_numbers acc w)).
Proof.
  induction page_numbers as [|n page_numbers IH]; intros acc w Hw; cbn [convert_each].
  - now apply simple_since_refl.
  - destruct (nth_error doc n) as [page|]; [|now apply simple_since_refl].
    pose proof (run_task_simple env (llm self) (Task n) (_convert_page env self page n)
                  (simple_convert_page env self page n) w Hw) as H.
    destruct (run_task env (Task n) _ w) as [[text|e] w1]; cbn [snd] in *; [|exact H].
    eapply simple_since_trans; [exact H|]. apply IH. exact (proj1 H).
Qed.

Lemma convert_opened_simple sched entry suffix w :
  detailed_extraction w = false ->
  simple_since env (llm self) w (snd (convert_opened env self sched entry suffix w)).
Proof.
  intros Hw. unfold convert_opened.
  destruct (Str.mem suffix image_suffixes).
  - destruct (open_image entry) as [page|e]; [|now apply simple_since_refl].
    pose proof (run_task_simple env (llm self) (Task 0) (_convert_page env self page 0)
                  (simple_convert_page env self page 0) w Hw) as H.
    destruct (run_task env (Task 0) _ w) as [[text|e] w1]; exact H.
  - destruct (open_pdf entry) as [doc|e]; [|now apply simple_since_refl].
    destruct (enable_concurrency self).
    + destruct (range_step _ _) as [starts|e]; [|now apply simple_since_refl].
      now apply convert_batches_simple.
    + now apply convert_each_simple.
Qed.

Lemma convert_file_simple fs sched file_path w :
  detailed_extraction w = false ->
  simple_since env (llm self) w (snd (convert_file env fs self sched file_path w)).
Proof.
  intros Hw. unfold convert_file. cbv zeta.
  destruct (fs file_path) as [entry|]; [|now apply simple_since_refl].
  destruct (is_file entry) as [[|]|e0]; try now apply simple_since_refl.
  destruct (Str.mem _ supported_suffixes); cbn [negb]; [|now apply simple_since_refl].
  pose proof (convert_opened_simple sched entry
                (Str.lower (Path.suffix file_path)) w Hw) as H.
  destruct (convert_opened env self sched entry _ w) as [[l|e] w1]; cbn [snd] in *;
    [exact H|].
  destruct (is_Exception e); exact H.
Qed.

End SimpleDriver.

(** C5 (as the code runs it): a page that fails outside the analysis does
    end the conversion, but not with a [VisionParserError] naming the page.
    When its markdown call fails, [_convert_page] lets the bare [LLMError]
    through: it derives from [BaseException], so [except Exception] does not
    wrap it (nor does the one of [convert_file]).  When the page cannot be
    rendered, the [finally] clause reads the unbound [pix]; the
    [UnboundLocalError] replaces the [VisionParserError] that named the
    page, and [convert_file] wraps it without a page number. *)
Theorem page_failure_escapes_unwrapped env self page page_number o w :
  (forall px image e,
     rendered self env page = Ok px ->
     png_base64 px = Ok image ->
     detailed_extraction w = false ->
     backend env (calls_made w) (simple_request env (llm self) image) = Raise e ->
     is_Exception e = true ->
     fst (run_task env o (_convert_page env self page page_number) w)
     = Raise (mk_exn LLMError ("Gemini Model processing failed: " ++ str_exn e)))
  /\
  (forall e,
     rendered self env page = Raise e ->
     run_task env o (_convert_page env self page page_number) w
     = (Raise (mk_exn UnboundLocalError
          "cannot access local variable 'pix' where it is not associated with a value"),
        w)).
Proof.
  unfold rendered, _convert_page. split.
  - intros px image e -> -> Hflag Hcall He.
    rewrite run_task_finally, run_task_except.
    unfold generate_markdown, generate_and_assemble, _get_response, simple_request in *.
    cbn [run_task]. rewrite Hflag. cbn [bind run_task].
    rewrite flag_log, Hflag. cbn [negb].
    rewrite run_task_bind, run_gemini.
    rewrite !calls_made_log. cbn [is_call snd]. rewrite !Nat.add_0_r.
    cbv zeta. rewrite Hcall, He. cbn [is_Exception exn_cls run_task fst]. reflexivity.
  - intros e ->.
    rewrite run_task_finally, run_task_except. cbn [run_task].
    destruct (is_Exception e); reflexivity.
Qed.

Lemma page_failure_escapes_unwrapped_witness :
  let self := Demo.parser 4 false in
  fst (run_task (Demo.env_of (Demo.fails_on "p1")) (Task 1)
         (_convert_page (Demo.env_of (Demo.fails_on "p1")) self (Demo.page "p1") 1)
         (Demo.fresh false))
  = Raise (mk_exn LLMError "Gemini Model processing failed: 503 unavailable")
  /\
  fst (convert_file (Demo.env_of (Demo.fails_on "p1")) Demo.files self (fun _ => [])
                    "two.pdf" (Demo.fresh false))
  = Raise (mk_exn LLMError "Gemini Model processing failed: 503 unavailable")
  /\
  calls_made (snd (convert_file (Demo.env_of (Demo.fails_on "p1")) Demo.files self
                                (fun _ => []) "two.pdf" (Demo.fresh false))) = 2%nat
  /\
  run_task (Demo.env_of Demo.echo) (Task 0)
    (_convert_page (Demo.env_of Demo.echo) self Demo.broken_page 0) (Demo.fresh false)
  = (Raise (mk_exn UnboundLocalError
       "cannot access local variable 'pix' where it is not associated with a value"),
     Demo.fresh false)
  /\
  fst (convert_file (Demo.env_of Demo.echo) Demo.files self (fun _ => [])
                    "broken.pdf" (Demo.fresh false))
  = Raise (mk_exn VisionParserError
      ("Failed to convert PDF file into markdown content: "
       ++ "cannot access local variable 'pix' where it is not associated with a value")).
Proof.
  split; [|split; [|split; [|split]]].
  - exact (proj1 (page_failure_escapes_unwrapped (Demo.env_of (Demo.fails_on "p1"))
                    (Demo.parser 4 false) (Demo.page "p1") 1 (Task 1) (Demo.fresh false))
             (mkPixmap (Ok "p1")) "p1" (mk_exn RuntimeError "503 unavailable")
             eq_refl eq_refl eq_refl eq_refl eq_refl).
  - reflexivity.
  - reflexivity.
  - exact (proj2 (page_failure_escapes_unwrapped (Demo.env_of Demo.echo)
                    (Demo.parser 4 false) Demo.broken_page 0 (Task 0) (Demo.fresh false))
             (mk_exn RuntimeError "cannot render") eq_refl).
  - reflexivity.
Defined.

(** An [Exception] of the encoding is raised inside the [try] with [pix]
    bound: it is the failure that [_convert_page] reports with the page
    number, before anything was asked of the service. *)
Remark encoding_failure_names_the_page env self page page_number o w pix e :
  rendered self env page = Ok pix ->
  png_base64 pix = Raise e ->
  is_Exception e = true ->
  run_task env o (_convert_page env self page page_number) w
  = (Raise (mk_exn VisionParserError
       ("Failed to convert page " ++ Str.of_nat (page_number + 1)
        ++ " to base64-encoded PNG: " ++ str_exn e)), w).
Proof.
  unfold rendered, _convert_page. intros -> -> He.
  rewrite run_task_finally, run_task_except. cbn [run_task]. now rewrite He.
Qed.

Remark blank_page_is_named :
  fst (convert_file (Demo.env_of Demo.echo)
         (fun _ => Some (mkFileEntry (Ok true) (Ok [Demo.page "p0"; Demo.blank_page])
                                     (Raise (mk_exn RuntimeError "not an image"))))
         (Demo.parser 4 false) (fun _ => []) "scan.pdf" (Demo.fresh false))
  = Raise (mk_exn VisionParserError
             "Failed to convert page 2 to base64-encoded PNG: cannot encode").
Proof. reflexivity. Qed.

End ConversionFacts.

(** ** More on the regex *)

Module UnfencingFacts.
Import Str StrFacts Fence FenceFacts Text.

Lemma occurs_tail p c s : occurs p (String c s) = false -> occurs p s = false.
Proof.
  cbn [occurs]. destruct (strip_prefix p (String c s)); [discriminate|]. auto.
Qed.

Lemma occurs_suffix p q : forall s r,
  strip_prefix q s = Some r -> occurs p s = false -> occurs p r = false.
Proof.
  induction q as [|a q IH]; intros s r H Ho; cbn [strip_prefix] in H.
  - now inversion H; subst.
  - destruct s as [|b s]; [discriminate|].
    destruct (Ascii.eqb a b); [|discriminate].
    apply (IH s r H). now apply occurs_tail in Ho.
Qed.

Lemma split_close_none s : occurs closing s = false -> split_close s = None.
Proof.
  induction s as [|c s IH]; intros H.
  - reflexivity.
  - pose proof (occurs_tail _ _ _ H) as Ht.
    cbn [occurs] in H. cbn [split_close].
    destruct (strip_prefix closing (String c s)); [discriminate|].
    now rewrite (IH Ht).
Qed.

Lemma after_newline_none r : occurs closing r = false -> after_newline r = None.
Proof.
  intros H. unfold after_newline.
  destruct (strip_prefix nl r) as [body|] eqn:E; [|reflexivity].
  apply split_close_none. exact (occurs_suffix _ _ _ _ E H).
Qed.

Lemma match_here_none s : occurs closing s = false -> match_here s = None.
Proof.
  intros H. unfold match_here.
  destruct (strip_prefix opening s) as [r|] eqn:E; [|reflexivity].
  pose proof (occurs_suffix _ _ _ _ E H) as Hr.
  destruct (strip_prefix "markdown" r) as [r1|] eqn:E1.
  - rewrite (after_newline_none r1 (occurs_suffix _ _ _ _ E1 Hr)).
    now apply after_newline_none.
  - now apply after_newline_none.
Qed.

(** X1: the regex of [_gemini] leaves a text unchanged when no line of it
    begins with three backticks after a newline, that is when the closing
    fence does not occur in it; backticks elsewhere do not matter. *)
Theorem text_without_closing_fence_is_kept s :
  occurs closing s = false -> strip_fences s = s.
Proof.
  induction s as [|c s IH]; intros H; [reflexivity|].
  rewrite strip_fences_skip by now apply match_here_none.
  f_equal. apply IH. now apply occurs_tail in H.
Qed.

Lemma text_without_closing_fence_is_kept_witness :
  strip_fences "Run `make` and ```see```." = "Run `make` and ```see```.".
Proof. exact (text_without_closing_fence_is_kept "Run `make` and ```see```." eq_refl). Defined.

(** A match is at least eight characters longer than its group. *)
Lemma match_here_shrinks s g rest :
  match_here s = Some (g, rest) ->
  (String.length g + String.length rest + 8 <= String.length s)%nat.
Proof.
  unfold match_here; intros H.
  destruct (strip_prefix opening s) as [r|] eqn:E; [|discriminate].
  apply strip_prefix_length in E.
  assert (A : forall x, after_newline x = Some (g, rest) ->
              (String.length g + String.length rest + 5 <= String.length x)%nat).
  { intros x Hx. unfold after_newline in Hx.
    destruct (strip_prefix nl x) as [body|] eqn:Eb; [|discriminate].
    apply strip_prefix_length in Eb. apply split_close_length in Hx.
    rewrite Eb, Hx. simpl. lia. }
  simpl in E.
  destruct (strip_prefix "markdown" r) as [r1|] eqn:E1.
  - apply strip_prefix_length in E1.
    destruct (after_newline r1) as [m|] eqn:E2.
    + inversion H; subst. apply A in E2. lia.
    + apply A in H. lia.
  - apply A in H. lia.
Qed.

(** X2: the regex of [_gemini] only removes text: its result is never
    longer than the answer of the service. *)
Theorem strip_fences_never_lengthens s :
  (String.length (strip_fences s) <= String.length s)%nat.
Proof.
  unfold strip_fences. generalize (String.length s) at 1 as fuel. intros fuel. revert s.
  induction fuel as [|fuel IH]; intros s; [reflexivity|].
  cbn [sub_fences]. destruct s as [|c s]; [reflexivity|].
  destruct (match_here (String c s)) as [[g rest]|] eqn:E.
  - apply match_here_shrinks in E. rewrite length_append.
    specialize (IH rest). lia.
  - simpl. specialize (IH s). lia.
Qed.








End UnfencingFacts.

(** ** Answers and the regex *)

Module AnswerFacts.
Import Str StrFacts Fence FenceFacts Text LoopFacts WorldFacts UnfencingFacts.


















End AnswerFacts.

(** ** Edge cases of the driver *)

Module DriverEdgeFacts.
Import DriverFacts.

(** X4: with concurrency on, a worker count of 0 makes [convert_file] fail
    on every PDF with a [VisionParserError] around the [ValueError] of
    [range], and a negative worker count makes it return the empty list;
    either way no page is rendered and the service is never called. *)
Theorem nonpositive_worker_count env fs self sched file_path w entry doc :
  fs file_path = Some entry -> is_file entry = Ok true ->
  Str.lower (Path.suffix file_path) = ".pdf" ->
  open_pdf entry = Ok doc ->
  enable_concurrency self = true ->
  (num_workers self <= 0)%Z ->
  convert_file env fs self sched file_path w
  = (if (num_workers self =? 0)%Z
     then Raise (mk_exn VisionParserError
            "Failed to convert PDF file into markdown content: range() arg 3 must not be zero")
     else Ok [], w).
Proof.
  intros Hfs Hfile Hsuf Hopen Hc Hnw.
  unfold convert_file. rewrite Hfs, Hfile, Hsuf. cbn [negb Str.mem].
  unfold convert_opened. replace (Str.mem ".pdf" image_suffixes) with false by reflexivity.
  replace (Str.mem ".pdf" supported_suffixes) with true by reflexivity. cbn [negb].
  rewrite Hopen, Hc. unfold range_step.
  destruct (num_workers self =? 0)%Z eqn:E0; [reflexivity|].
  apply Z.eqb_neq in E0.
  assert (E1 : (num_workers self <? 0)%Z = true) by (apply Z.ltb_lt; lia).
  rewrite E1. reflexivity.
Qed.

Lemma nonpositive_worker_count_witness :
  convert_file (Demo.env_of Demo.echo) Demo.files (Demo.parser (-2) true) (fun _ => [])
               "two.pdf" (Demo.fresh false) = (Ok [], Demo.fresh false) /\
  convert_file (Demo.env_of Demo.echo) Demo.files (Demo.parser 0 true) (fun _ => [])
               "two.pdf" (Demo.fresh false)
  = (Raise (mk_exn VisionParserError
      "Failed to convert PDF file into markdown content: range() arg 3 must not be zero"),
     Demo.fresh false).
Proof.
  split.
  - exact (nonpositive_worker_count (Demo.env_of Demo.echo) Demo.files
             (Demo.parser (-2) true) (fun _ => []) "two.pdf" (Demo.fresh false) _ _
             eq_refl eq_refl eq_refl eq_refl eq_refl ltac:(cbn; lia)).
  - exact (nonpositive_worker_count (Demo.env_of Demo.echo) Demo.files
             (Demo.parser 0 true) (fun _ => []) "two.pdf" (Demo.fresh false) _ _
             eq_refl eq_refl eq_refl eq_refl eq_refl ltac:(cbn; lia)).
Defined.

(** X5: a PDF without pages converts to the empty list, and nothing
    happens, unless concurrency is on with a worker count of 0. *)
Theorem empty_pdf_converts_to_nothing env fs self sched file_path w entry :
  fs file_path = Some entry -> is_file entry = Ok true ->
  Str.lower (Path.suffix file_path) = ".pdf" ->
  open_pdf entry = Ok [] ->
  (enable_concurrency self = true -> num_workers self <> 0%Z) ->
  convert_file env fs self sched file_path w = (Ok [], w).
Proof.
  intros Hfs Hfile Hsuf Hopen Hnw.
  unfold convert_file. rewrite Hfs, Hfile, Hsuf. cbn [negb Str.mem].
  unfold convert_opened. replace (Str.mem ".pdf" image_suffixes) with false by reflexivity.
  replace (Str.mem ".pdf" supported_suffixes) with true by reflexivity. cbn [negb].
  rewrite Hopen. cbn [List.length seq convert_each].
  destruct (enable_concurrency self); [|reflexivity].
  specialize (Hnw eq_refl). unfold range_step.
  apply Z.eqb_neq in Hnw. rewrite Hnw.
  destruct (num_workers self <? 0)%Z eqn:E1; [reflexivity|].
  apply Z.ltb_ge in E1. apply Z.eqb_neq in Hnw.
  rewrite Z.div_small by (cbn; lia).
  reflexivity.
Qed.

Lemma empty_pdf_converts_to_nothing_witness :
  convert_file (Demo.env_of Demo.echo) (fun _ => Some DemoHost.no_pages)
               (Demo.parser 4 true) (fun _ => []) "empty.pdf" (Demo.fresh true)
  = (Ok [], Demo.fresh true).
Proof.
  exact (empty_pdf_converts_to_nothing (Demo.env_of Demo.echo)
           (fun _ => Some DemoHost.no_pages) (Demo.parser 4 true) (fun _ => [])
           "empty.pdf" (Demo.fresh true) DemoHost.no_pages eq_refl eq_refl eq_refl eq_refl
           ltac:(cbn; discriminate)).
Defined.

Lemma batches_partition n nw : forall starts c,
  (1 <= nw)%Z -> (c <= n)%nat ->
  batches_from n (Z.to_nat nw) c starts ->
  flat_map (batch_range (Z.of_nat n) nw) starts = seq c (n - c) /\
  Forall (fun i => (1 <= List.length (batch_range (Z.of_nat n) nw i) <= Z.to_nat nw)%nat)
         starts.
Proof.
  induction starts as [|i rest IH]; intros c HW Hc H; cbn [batches_from flat_map] in *.
  - subst c. now rewrite Nat.sub_diag.
  - destruct H as (Hi & Hic & Hlt & Hrest).
    destruct (IH (c + Nat.min (Z.to_nat nw) (n - c))%nat HW ltac:(lia) Hrest) as [IH1 IH2].
    assert (Hb : batch_range (Z.of_nat n) nw i = seq c (Nat.min (Z.to_nat nw) (n - c))).
    { unfold batch_range. rewrite Hic. f_equal. lia. }
    split.
    + rewrite IH1, Hb, <- seq_app. f_equal. lia.
    + constructor; [|exact IH2]. rewrite Hb, length_seq. lia.
Qed.

(** X6: for a worker count of at least 1, the batches of [convert_file] cut
    the page numbers [0 .. n) into consecutive runs: together they are
    every page once, in order; each batch has at least one page and at most
    [num_workers]; there are [ceil(n / num_workers)] of them. *)
Theorem batches_cover_the_document n nw starts :
  (1 <= nw)%Z ->
  range_step (Z.of_nat n) nw = Ok starts ->
  flat_map (batch_range (Z.of_nat n) nw) starts = seq 0 n /\
  Forall (fun i => (1 <= List.length (batch_range (Z.of_nat n) nw i) <= Z.to_nat nw)%nat)
         starts /\
  List.length starts = Z.to_nat ((Z.of_nat n + nw - 1) / nw).
Proof.
  intros Hnw Hr.
  pose proof (range_step_batches n nw starts Hnw Hr) as Hb.
  destruct (batches_partition n nw starts 0%nat Hnw ltac:(lia) Hb) as [H1 H2].
  rewrite Nat.sub_0_r in H1.
  split; [exact H1|]. split; [exact H2|].
  unfold range_step in Hr.
  destruct (nw =? 0)%Z eqn:E0; [apply Z.eqb_eq in E0; lia|].
  destruct (nw <? 0)%Z eqn:E1; [apply Z.ltb_lt in E1; lia|].
  inversion Hr. now rewrite length_map, length_seq.
Qed.

Lemma batches_cover_the_document_witness :
  flat_map (batch_range 10 4) [0; 4; 8]%Z = seq 0 10 /\
  Forall (fun i => (1 <= List.length (batch_range 10 4 i) <= 4)%nat) [0; 4; 8]%Z /\
  List.length [0; 4; 8]%Z = 3%nat.
Proof.
  exact (batches_cover_the_document 10 4 [0; 4; 8]%Z ltac:(lia) eq_refl).
Defined.

(** What [convert_file] raises once the path check passed is no
    [Exception]. *)
Lemma checked_file_raises_no_exception env fs self sched file_path w entry e w' :
  fs file_path = Some entry -> is_file entry = Ok true ->
  convert_file env fs self sched file_path w = (Raise e, w') ->
  is_Exception e = false.
Proof.
  unfold convert_file. intros -> -> H. cbv zeta in H.
  destruct (Str.mem _ supported_suffixes); cbn [negb] in H.
  - destruct (convert_opened _ _ _ _ _ _) as [[l|e0] w1]; [discriminate|].
    destruct (is_Exception e0) eqn:E; inversion H; subst; [reflexivity | exact E].
  - inversion H; reflexivity.
Qed.

(** X7: whatever [convert_file] raises either comes from the path check
    that precedes the [try], with nothing done (the [FileNotFoundError] of a
    path that is missing or no regular file, or the [OSError] that
    [os.stat] raised), or is no [Exception]: every [Exception] of the
    conversion is wrapped in a [VisionParserError], which derives from
    [BaseException], so an [except Exception] around [convert_file] catches
    nothing but a failed path check. *)
Theorem convert_file_errors_are_not_exceptions env fs self sched file_path w e w' :
  convert_file env fs self sched file_path w = (Raise e, w') ->
  (w' = w /\
   match fs file_path with
   | None => exn_cls e = FileNotFoundError
   | Some entry =>
       match is_file entry with
       | Ok true => False
       | Ok false => exn_cls e = FileNotFoundError
       | Raise e0 => e = e0
       end
   end)
  \/ is_Exception e = false.
Proof.
  intros H.
  destruct (fs file_path) as [entry|] eqn:Hfs.
  - destruct (is_file entry) as [[|]|e0] eqn:Hfile.
    + right. exact (checked_file_raises_no_exception _ _ _ _ _ _ _ _ _ Hfs Hfile H).
    + left. unfold convert_file in H. rewrite Hfs, Hfile in H.
      inversion H; subst. split; reflexivity.
    + left. unfold convert_file in H. rewrite Hfs, Hfile in H.
      inversion H; subst. split; reflexivity.
  - left. unfold convert_file in H. rewrite Hfs in H.
    inversion H; subst. split; reflexivity.
Qed.

Lemma convert_file_errors_are_not_exceptions_witness :
  let e := mk_exn VisionParserError
             ("Failed to convert PDF file into markdown content: "
              ++ "cannot access local variable 'pix' where it is not associated with a value") in
  (Demo.fresh false = Demo.fresh false /\
   match Demo.files "broken.pdf" with
   | None => exn_cls e = FileNotFoundError
   | Some entry =>
       match is_file entry with
       | Ok true => False
       | Ok false => exn_cls e = FileNotFoundError
       | Raise e0 => e = e0
       end
   end)
  \/ is_Exception e = false.
Proof.
  exact (convert_file_errors_are_not_exceptions (Demo.env_of Demo.echo) Demo.files
           (Demo.parser 4 false) (fun _ => []) "broken.pdf" (Demo.fresh false) _ _ eq_refl).
Defined.

End DriverEdgeFacts.

(** ** Quarter turns *)

Module MatrixFacts.

Lemma quarter_turn (theta : Z) :
  (theta mod 90 = 0)%Z ->
  norm_angle theta = 0%Z \/ norm_angle theta = 90%Z \/
  norm_angle theta = 180%Z \/ norm_angle theta = 270%Z.
Proof. unfold norm_angle. intros H. Z.to_euclidean_division_equations. lia. Qed.

(** X8: for a page rotated by a multiple of 90 degrees the matrix has no
    translation, its determinant is the square of the zoom [2 * dpi / 72]
    (the rotation does not change the scale), and it does not depend on
    [math.cos] or [math.sin]. *)
Theorem quarter_turns_are_exact env cfg page :
  (rotation page mod 90 = 0)%Z ->
  let s := 2 * (inject_Z (dpi cfg) / 72) in
  let m := _calculate_matrix env cfg page in
  det m == s * s /\ me m == 0 /\ mf m == 0 /\
  forall env', _calculate_matrix env' cfg page = m.
Proof.
  intros H s m. subst m. unfold _calculate_matrix.
  destruct (rotation page =? 0)%Z; cbn [negb].
  - unfold det; cbn. subst s. repeat split; try ring.
  - unfold prerotate.
    destruct (quarter_turn _ H) as [E|[E|[E|E]]]; rewrite E; cbn [Z.eqb Pos.eqb];
      unfold det; cbn; subst s; repeat split; try ring.
Qed.

Lemma quarter_turns_are_exact_witness :
  let turned := mkPage 270 (fun _ _ _ _ => Ok (mkPixmap (Ok "p"))) in
  det (_calculate_matrix (Demo.env_of Demo.echo) default_page_config turned)
  == (25 # 6) * (25 # 6).
Proof.
  intros turned.
  destruct (quarter_turns_are_exact (Demo.env_of Demo.echo) default_page_config turned
              eq_refl) as [H _].
  rewrite H. reflexivity.
Defined.
End MatrixFacts.

(** ** Construction *)

Module ConstructionFacts.

(** X9: [LLM.__init__] accepts the three model names of
    [SUPPORTED_MODELS] and no other.  Any other name raises
    [UnsupportedModelError], with a message that lists the three, before the
    Gemini package is imported; for a listed name the provider check of
    [_init_llm] passes, and the outcome is that of the import and of the
    client. *)
Theorem only_listed_models_are_constructed genai model_name api_key temperature top_p
    image_mode custom_prompt detailed_extraction enable_concurrency :
  (~ In model_name (map fst SUPPORTED_MODELS) ->
   LLM_init genai model_name api_key temperature top_p image_mode custom_prompt
            detailed_extraction enable_concurrency
   = Init_raised (mk_exn UnsupportedModelError
       ("Model '" ++ model_name ++ "' is not supported. Supported models are: "
        ++ "'gemini-1.5-flash' from gemini, 'gemini-2.0-flash-exp' from gemini, "
        ++ "'gemini-1.5-pro' from gemini")))
  /\
  (In model_name (map fst SUPPORTED_MODELS) ->
   LLM_init genai model_name api_key temperature top_p image_mode custom_prompt
            detailed_extraction enable_concurrency
   = if importable genai then
       match make_client genai api_key model_name with
       | Ok _ =>
           Built (mkLLM temperature top_p image_mode custom_prompt enable_concurrency,
                  detailed_extraction)
       | Raise e =>
           Init_raised
             (if is_Exception e
              then mk_exn LLMError ("Unable to initialize Gemini client: " ++ str_exn e)
              else e)
       end
     else Import_failed
       "Gemini is not installed. Please install it using pip install 'vision-parse[gemini]'.").
Proof.
  unfold LLM_init, _get_provider_name, SUPPORTED_MODELS.
  cbn [dict_get map fst snd In Str.join].
  split.
  - intros H.
    destruct (String.eqb_spec model_name "gemini-1.5-flash") as [E|_]; [subst; exfalso; apply H; auto|].
    destruct (String.eqb_spec model_name "gemini-2.0-flash-exp") as [E|_]; [subst; exfalso; apply H; auto|].
    destruct (String.eqb_spec model_name "gemini-1.5-pro") as [E|_]; [subst; exfalso; apply H; auto|].
    reflexivity.
  - intros H.
    assert (E : (if (model_name =? "gemini-1.5-flash")%string then Some "gemini"
                 else if (model_name =? "gemini-2.0-flash-exp")%string then Some "gemini"
                 else if (model_name =? "gemini-1.5-pro")%string then Some "gemini"
                 else None) = Some "gemini").
    { destruct H as [<-|[<-|[<-|[]]]]; reflexivity. }
    rewrite E. unfold _init_llm. cbn [String.eqb Ascii.eqb Bool.eqb negb].
    destruct (importable genai); cbn [negb]; [|reflexivity].
    destruct (make_client genai api_key model_name) as [u|e]; [reflexivity|].
    destruct (is_Exception e); reflexivity.
Qed.

Lemma only_listed_models_are_constructed_witness :
  LLM_init (mkGenai false (fun _ _ => Ok tt)) "gpt-4o" None (7 # 10) (7 # 10) None None
           false false
  = Init_raised (mk_exn UnsupportedModelError
      ("Model 'gpt-4o' is not supported. Supported models are: "
       ++ "'gemini-1.5-flash' from gemini, 'gemini-2.0-flash-exp' from gemini, "
       ++ "'gemini-1.5-pro' from gemini")).
Proof.
  apply (proj1 (only_listed_models_are_constructed (mkGenai false (fun _ _ => Ok tt))
                  "gpt-4o" None (7 # 10) (7 # 10) None None false false)).
  cbn. intros [H|[H|[H|[]]]]; discriminate H.
Defined.

Lemma dict_get_In d : forall key v, dict_get d key = Some v -> In key (map fst d).
Proof.
  induction d as [|[k v0] d IH]; intros key v H; cbn [dict_get] in H; [discriminate|].
  destruct (String.eqb_spec key k) as [->|_]; cbn; eauto.
Qed.

(** What a constructor that returned has built. *)
Lemma VisionParser_built genai workers cfg model_name api_key temperature top_p
    image_mode custom_prompt detailed_extraction enable_concurrency self flag :
  VisionParser_init genai workers cfg model_name api_key temperature top_p image_mode
                    custom_prompt detailed_extraction enable_concurrency
  = Built (self, flag) ->
  In model_name (map fst SUPPORTED_MODELS) /\
  flag = detailed_extraction /\
  self = mkVisionParser (match cfg with Some c => c | None => default_page_config end)
                        workers enable_concurrency
                        (mkLLM temperature top_p image_mode custom_prompt
                               enable_concurrency).
Proof.
  unfold VisionParser_init, LLM_init, _get_provider_name. intros H.
  destruct (dict_get SUPPORTED_MODELS model_name) as [provider|] eqn:Ed; [|discriminate].
  split; [exact (dict_get_In _ _ _ Ed)|].
  destruct (_init_llm genai provider model_name api_key); try discriminate.
  inversion H. split; reflexivity.
Qed.

(** The module-level parser of [main.py], once the import and the client
    succeed. *)
Lemma main_parser_built genai workers api_key :
  importable genai = true ->
  make_client genai api_key "gemini-1.5-flash" = Ok tt ->
  VisionParser_init genai workers None "gemini-1.5-flash" api_key (2 # 10) (4 # 10)
                    (Some "url") None true false
  = Built (main_parser workers, true).
Proof.
  intros Hi Hc. unfold VisionParser_init, LLM_init, _init_llm.
  cbn [_get_provider_name SUPPORTED_MODELS dict_get String.eqb Ascii.eqb Bool.eqb negb].
  now rewrite Hi, Hc.
Qed.

End ConstructionFacts.

(** ** Invariants of tasks *)

Module InvariantFacts.
Import LoopFacts WorldFacts TaskFacts PoolFacts DriverFacts.

Lemma stepped_advance {A : Type} env o (p : prog A) w :
  stepped o w (snd (advance env o p w)).
Proof.
  split.
  - destruct (advance_feed env o p w) as (evs & H & _). now exists evs.
  - apply advance_flag.
Qed.

Lemma stepped_run_task {A : Type} env o (p : prog A) w :
  stepped o w (snd (run_task env o p w)).
Proof.
  split.
  - destruct (run_task_feed env o p w) as (evs & H & _). now exists evs.
  - apply run_task_flag.
Qed.

Lemma stepped_log o ev w : stepped o w (log o ev w).
Proof. split; [now exists [ev] | auto]. Qed.

Section Pool.
Context {A : Type}.
Variables (env : Env) (G : nat -> World -> prog A -> Prop).
Hypothesis HG : task_invariant env G.

Lemma resume_holds Fr start_idx i (P : pool A) :
  closed_under start_idx (start_idx + List.length (slots P)) Fr ->
  pool_holds G Fr start_idx P ->
  pool_holds G Fr start_idx (resume env start_idx i P) /\
  List.length (slots (resume env start_idx i P)) = List.length (slots P).
Proof.
  intros Hcl (Hs & Hf & He).
  destruct (resume_cases env start_idx i P) as [(p & Hp & ->) | ->];
    [|now repeat split].
  unfold pool_holds. cbn [slots pool_world first_exc].
  assert (Hi : (i < List.length (slots P))%nat)
    by (apply nth_error_Some; congruence).
  pose proof (stepped_advance env (Task (start_idx + i)) p (pool_world P)) as Hst.
  split; [|apply length_set_slot].
  split; [|split].
  - intros j t Hj. destruct (Nat.eq_dec i j) as [<-|Hne].
    + rewrite (nth_error_set_slot_same _ _ _ _ Hp) in Hj. inversion Hj; subst.
      apply (inv_advance env G HG). exact (Hs _ _ Hp).
    + rewrite nth_error_set_slot_other in Hj by exact Hne.
      apply (inv_frame env G HG _ (Task (start_idx + i)) _ (pool_world P));
        [intros E; inversion E; lia | exact Hst | exact (Hs _ _ Hj)].
  - apply (Hcl (start_idx + i)%nat (pool_world P)); [lia | exact Hst | exact Hf].
  - intros e Hexc.
    destruct (first_exc P) as [e0|] eqn:E0.
    + inversion Hexc; subst. destruct (He e eq_refl) as (j & Hj).
      exists j. rewrite nth_error_set_slot_other; [exact Hj|].
      intros <-. rewrite Hp in Hj. discriminate.
    + destruct (fst (advance env (Task (start_idx + i)) p (pool_world P)))
        as [q|[a|e1]] eqn:Et; try discriminate.
      inversion Hexc; subst. exists i.
      apply (nth_error_set_slot_same _ _ _ _ Hp).
Qed.

Lemma run_schedule_holds Fr start_idx sched : forall (P : pool A),
  closed_under start_idx (start_idx + List.length (slots P)) Fr ->
  pool_holds G Fr start_idx P ->
  pool_holds G Fr start_idx (run_schedule env start_idx sched P) /\
  List.length (slots (run_schedule env start_idx sched P)) = List.length (slots P).
Proof.
  unfold run_schedule. induction sched as [|i sched IH]; intros P Hcl H; cbn [fold_left].
  - now split.
  - destruct (resume_holds Fr start_idx i P Hcl H) as [H1 H2].
    destruct (IH (resume env start_idx i P)) as [H3 H4];
      [now rewrite H2 | exact H1 |].
    split; [exact H3 | congruence].
Qed.

(** What holds once the tasks [ts] of pages [idx ..] were waited for. *)
Lemma drain_holds : forall (ts : list (task A)) idx w Fr,
  closed_under idx (idx + List.length ts) Fr ->
  Fr w ->
  (forall j t, nth_error ts j = Some t -> G (idx + j)%nat w (residual t)) ->
  Fr (snd (drain env idx ts w)) /\
  (forall j, (j < List.length ts)%nat ->
     exists p, G (idx + j)%nat (snd (drain env idx ts w)) p) /\
  match fst (drain env idx ts w) with
  | Ok rs =>
      List.length rs = List.length ts /\
      forall j a, nth_error rs j = Some a ->
        G (idx + j)%nat (snd (drain env idx ts w)) (Ret a)
  | Raise e =>
      exists j, (j < List.length ts)%nat /\
        G (idx + j)%nat (snd (drain env idx ts w)) (Throw e)
  end.
Proof.
  induction ts as [|t ts IH]; intros idx w Fr Hcl Hf Hs; cbn [drain].
  - cbn. repeat split; [exact Hf | intros j Hj; lia | ].
    intros [|j] a Hj; discriminate.
  - set (first := match t with
                  | Finished r => (r, w)
                  | Suspended p => run_task env (Task idx) p w
                  end).
    assert (H1 : G idx (snd first) (residual (Finished (fst first))) /\
                 (snd first = w \/ stepped (Task idx) w (snd first))).
    { pose proof (Hs 0%nat t eq_refl) as H0. rewrite Nat.add_0_r in H0.
      subst first. destruct t as [p|r]; cbn [fst snd residual] in *.
      - split; [apply (inv_run env G HG); exact H0 | right; apply stepped_run_task].
      - split; [exact H0 | now left]. }
    destruct H1 as [Hhead Hstep].
    assert (Hf1 : Fr (snd first)).
    { destruct Hstep as [->|Hstep]; [exact Hf|].
      apply (Hcl idx w); [cbn; lia | exact Hstep | exact Hf]. }
    assert (Hs1 : forall j t', nth_error ts j = Some t' ->
                    G (idx + S j)%nat (snd first) (residual t')).
    { intros j t' Hj. specialize (Hs (S j) t' Hj).
      destruct Hstep as [->|Hstep]; [exact Hs|].
      apply (inv_frame env G HG _ (Task idx) _ w);
        [intros E; inversion E; lia | exact Hstep | exact Hs]. }
    destruct first as [[a|e] w1]; cbn [fst snd residual] in *.
    + specialize (IH (S idx) w1 (fun w' => Fr w' /\ G idx w' (Ret a))).
      destruct IH as (IHf & IHall & IHr).
      * intros k w2 w3 Hk Hst [HF HGa]. split.
        -- apply (Hcl k w2); [cbn; lia | exact Hst | exact HF].
        -- apply (inv_frame env G HG _ (Task k) _ w2);
             [intros E; inversion E; lia | exact Hst | exact HGa].
      * split; assumption.
      * intros j t' Hj. replace (S idx + j)%nat with (idx + S j)%nat by lia.
        now apply Hs1.
      * destruct (drain env (S idx) ts w1) as [rs w2]; cbn [fst snd] in *.
        destruct IHf as [HF HGa].
        split; [exact HF|]. split.
        -- intros [|j] Hj.
           ++ exists (Ret a). now rewrite Nat.add_0_r.
           ++ destruct (IHall j) as (p & Hp); [cbn in Hj; lia|].
              exists p. now replace (idx + S j)%nat with (S idx + j)%nat by lia.
        -- destruct rs as [l|e].
           ++ destruct IHr as [Hl Hr]. split; [cbn; now rewrite Hl|].
              intros [|j] b Hb; cbn in Hb.
              ** inversion Hb; subst. now rewrite Nat.add_0_r.
              ** replace (idx + S j)%nat with (S idx + j)%nat by lia. now apply Hr.
           ++ destruct IHr as (j & Hj & Hr). exists (S j). split; [cbn; lia|].
              now replace (idx + S j)%nat with (S idx + j)%nat by lia.
    + split; [exact Hf1|]. split.
      * intros [|j] Hj.
        -- exists (Throw e). now rewrite Nat.add_0_r.
        -- cbn in Hj. destruct (nth_error ts j) as [t'|] eqn:Et.
           ++ exists (residual t'). now apply Hs1.
           ++ apply nth_error_None in Et. lia.
      * exists 0%nat. split; [cbn; lia | now rewrite Nat.add_0_r].
Qed.

Lemma gather_holds Fr start_idx sched (coros : list (prog A)) w :
  closed_under start_idx (start_idx + List.length coros) Fr ->
  Fr w ->
  (forall j c, nth_error coros j = Some c -> G (start_idx + j)%nat w c) ->
  Fr (snd (gather env start_idx sched coros w)) /\
  (forall j, (j < List.length coros)%nat ->
     exists p, G (start_idx + j)%nat (snd (gather env start_idx sched coros w)) p) /\
  match fst (gather env start_idx sched coros w) with
  | Ok rs =>
      List.length rs = List.length coros /\
      forall j a, nth_error rs j = Some a ->
        G (start_idx + j)%nat (snd (gather env start_idx sched coros w)) (Ret a)
  | Raise e =>
      exists j, (j < List.length coros)%nat /\
        G (start_idx + j)%nat (snd (gather env start_idx sched coros w)) (Throw e)
  end.
Proof.
  intros Hcl Hf Hs. unfold gather.
  set (P0 := mkPool (map Suspended coros) None w).
  destruct (run_schedule_holds Fr start_idx (seq 0 (List.length coros) ++ sched) P0)
    as [(HPs & HPf & HPe) HPl].
  { subst P0. cbn [slots]. now rewrite length_map. }
  { subst P0. split; [|split]; cbn [slots pool_world first_exc].
    - intros j t Hj. rewrite nth_error_map in Hj.
      destruct (nth_error coros j) as [c|] eqn:Ec; [|discriminate].
      inversion Hj; subst. cbn [residual]. now apply Hs.
    - exact Hf.
    - discriminate. }
  set (P := run_schedule env start_idx (seq 0 (List.length coros) ++ sched) P0) in *.
  assert (Hlen : List.length (slots P) = List.length coros).
  { rewrite HPl. subst P0. cbn [slots]. apply length_map. }
  destruct (first_exc P) as [e|] eqn:Ee; cbn [fst snd].
  - split; [exact HPf|]. split.
    + intros j Hj. destruct (nth_error (slots P) j) as [t|] eqn:Et.
      * exists (residual t). now apply HPs.
      * apply nth_error_None in Et. lia.
    + destruct (HPe e eq_refl) as (j & Hj). exists j. split.
      * rewrite <- Hlen. apply nth_error_Some. congruence.
      * exact (HPs _ _ Hj).
  - rewrite <- Hlen in *.
    exact (drain_holds (slots P) start_idx (pool_world P) Fr Hcl HPf HPs).
Qed.

End Pool.

Section Driver.
Variables (env : Env) (self : VisionParser) (doc : list Page).
Variables (G : nat -> World -> prog string -> Prop) (Fr : World -> Prop).
Hypothesis HG : task_invariant env G.
Hypothesis Fr_task : closed_under 0 (List.length doc) Fr.
Hypothesis Fr_pause : forall w, Fr w -> Fr (log Driver (EvSleep (1 # 2)) w).

Lemma pages_hold_done c acc w :
  pages_hold env self doc G Fr c acc w ->
  (c <= List.length doc)%nat ->
  pages_held doc G Fr (Ok acc, w).
Proof.
  intros (Hf & Hl & Hacc & Hdoc) Hc. split; [exact Hf|]. split.
  - intros i page Hi. specialize (Hdoc i page Hi).
    destruct (i <? c)%nat; [exact Hdoc | eauto].
  - cbn [fst snd]. split; [lia | exact Hacc].
Qed.

Lemma pages_hold_failed c acc w e :
  pages_hold env self doc G Fr c acc w -> pages_held doc G Fr (Raise e, w).
Proof.
  intros (Hf & Hl & Hacc & Hdoc). split; [exact Hf|]. split; [|exact I].
  intros i page Hi. specialize (Hdoc i page Hi).
  destruct (i <? c)%nat; [exact Hdoc | eauto].
Qed.

(** One page run on its own. *)
Lemma page_holds c acc w page :
  pages_hold env self doc G Fr c acc w ->
  nth_error doc c = Some page ->
  let out := run_task env (Task c) (_convert_page env self page c) w in
  match fst out with
  | Ok text => pages_hold env self doc G Fr (S c) (acc ++ [text])%list (snd out)
  | Raise e => pages_held doc G Fr (Raise e, snd out)
  end.
Proof.
  intros (Hf & Hl & Hacc & Hdoc) Hc out.
  assert (Hlt : (c < List.length doc)%nat) by (apply nth_error_Some; congruence).
  pose proof (stepped_run_task env (Task c) (_convert_page env self page c) w) as Hst.
  assert (Hme : G c (snd out) (residual (Finished (fst out)))).
  { apply (inv_run env G HG). specialize (Hdoc c page Hc).
    now rewrite Nat.ltb_irrefl in Hdoc. }
  assert (Hfr : Fr (snd out)) by (apply (Fr_task c w); [lia | exact Hst | exact Hf]).
  assert (Hother : forall i p, i <> c -> G i w p -> G i (snd out) p).
  { intros i p Hi Hp. apply (inv_frame env G HG _ (Task c) _ w);
      [intros E; inversion E; lia | exact Hst | exact Hp]. }
  assert (Hall : forall i pg, nth_error doc i = Some pg ->
            i <> c ->
            if (i <? c)%nat then exists p, G i (snd out) p
            else G i (snd out) (_convert_page env self pg i)).
  { intros i pg Hi Hne. specialize (Hdoc i pg Hi).
    destruct (i <? c)%nat; [destruct Hdoc as (p & Hp); exists p|]; now apply Hother. }
  fold out in Hst. destruct (fst out) as [text|e]; cbn [residual] in Hme.
  - split; [exact Hfr|]. split; [rewrite length_app; cbn; lia|]. split.
    + intros i t Hi. destruct (Nat.lt_ge_cases i c) as [Hlt'|Hge].
      * rewrite nth_error_app1 in Hi by lia. apply Hother; [lia | now apply Hacc].
      * rewrite nth_error_app2 in Hi by lia. rewrite Hl in Hi.
        destruct (i - c)%nat as [|d] eqn:Ed; cbn in Hi; [|destruct d; discriminate].
        inversion Hi as [Ht]. rewrite <- Ht. replace i with c by lia. exact Hme.
    + intros i pg Hi. destruct (Nat.eq_dec i c) as [Heq|Hne].
      * subst i. replace (c <? S c)%nat with true by (symmetry; apply Nat.ltb_lt; lia). eauto.
      * specialize (Hall i pg Hi Hne).
        destruct (i <? c)%nat eqn:E1.
        -- apply Nat.ltb_lt in E1.
           replace (i <? S c)%nat with true by (symmetry; apply Nat.ltb_lt; lia).
           exact Hall.
        -- apply Nat.ltb_ge in E1.
           replace (i <? S c)%nat with false by (symmetry; apply Nat.ltb_ge; lia).
           exact Hall.
  - split; [exact Hfr|]. split; [|exact I].
    intros i pg Hi. destruct (Nat.eq_dec i c) as [Heq|Hne]; [subst i; eauto|].
    specialize (Hall i pg Hi Hne). destruct (i <? c)%nat; [exact Hall | eauto].
Qed.

Lemma convert_each_holds : forall n c acc w,
  (c + n <= List.length doc)%nat ->
  pages_hold env self doc G Fr c acc w ->
  pages_held doc G Fr (convert_each env self doc (seq c n) acc w).
Proof.
  induction n as [|n IH]; intros c acc w Hc H; cbn [seq convert_each].
  - apply (pages_hold_done c); [exact H | lia].
  - destruct (nth_error doc c) as [page|] eqn:Ep.
    + pose proof (page_holds c acc w page H Ep) as Hp. cbv zeta in Hp.
      destruct (run_task env (Task c) (_convert_page env self page c) w)
        as [[text|e] w1]; cbn [fst snd] in Hp.
      * apply IH; [lia | exact Hp].
      * exact Hp.
    + now apply (pages_hold_failed c acc).
Qed.

(** One batch. *)
Lemma batch_holds sched c b acc w pages :
  (c + b <= List.length doc)%nat ->
  load_pages doc (seq c b) = Ok pages ->
  pages_hold env self doc G Fr c acc w ->
  let out := _convert_pages_batch env self sched pages c w in
  match fst out with
  | Ok rs => pages_hold env self doc G Fr (c + b) (acc ++ rs)%list (snd out)
  | Raise e => pages_held doc G Fr (Raise e, snd out)
  end.
Proof.
  intros Hcb Hload (Hf & Hl & Hacc & Hdoc) out.
  destruct (load_pages_spec _ _ _ _ Hload) as [Hlen Hnth].
  set (Fr' := fun w' =>
    Fr w' /\
    (forall i text, nth_error acc i = Some text -> G i w' (Ret text)) /\
    (forall i page, nth_error doc i = Some page -> (i < c \/ c + b <= i)%nat ->
       if (i <? c)%nat then exists p, G i w' p
       else G i w' (_convert_page env self page i))).
  assert (Hacc_lt : forall i text, nth_error acc i = Some text -> (i < c)%nat).
  { intros i text Hi. rewrite <- Hl. apply nth_error_Some. congruence. }
  assert (Hframe : forall o w1 w2, (forall i, (i < c \/ c + b <= i)%nat -> o <> Task i) ->
            (Fr w1 -> Fr w2) -> stepped o w1 w2 -> Fr' w1 -> Fr' w2).
  { intros o w1 w2 Ho HFr Hst (H1 & H2 & H3). split; [auto|]. split.
    - intros i text Hi.
      apply (inv_frame env G HG _ o _ w1); [apply Ho; left; eauto | exact Hst | auto].
    - intros i page Hi Hout. specialize (H3 i page Hi Hout).
      destruct (i <? c)%nat.
      + destruct H3 as (p & Hp). exists p.
        apply (inv_frame env G HG _ o _ w1); [now apply Ho | exact Hst | exact Hp].
      + apply (inv_frame env G HG _ o _ w1); [now apply Ho | exact Hst | exact H3]. }
  pose proof (gather_holds env G HG Fr' c sched (batch_tasks env self pages c) w) as Hg.
  rewrite batch_tasks_length, Hlen in Hg.
  destruct Hg as (Hg1 & Hg2 & Hg3).
  { intros k w1 w2 Hk Hst. apply (Hframe (Task k)); [| |exact Hst].
    - intros i Hi E. inversion E. lia.
    - apply (Fr_task k); [lia | exact Hst]. }
  { split; [exact Hf|]. split; [exact Hacc|]. intros i page Hi _. now apply Hdoc. }
  { intros j cj Hj. rewrite batch_tasks_nth in Hj.
    destruct (nth_error pages j) as [page|] eqn:Ej; [|discriminate].
    cbn [option_map] in Hj. injection Hj as <-.
    assert (Hjb : (j < b)%nat) by (rewrite <- Hlen; apply nth_error_Some; congruence).
    destruct (Hnth j Hjb) as (pg & H1 & H2).
    assert (Epg : pg = page) by congruence. subst pg.
    specialize (Hdoc _ _ H2).
    replace (c + j <? c)%nat with false in Hdoc by (symmetry; apply Nat.ltb_ge; lia).
    exact Hdoc. }
  subst out. unfold _convert_pages_batch.
  destruct (gather env c sched (batch_tasks env self pages c) w) as [r w1];
    cbn [fst snd] in *.
  pose proof (stepped_log Driver (EvSleep (1 # 2)) w1) as Hst.
  assert (Hfr' : Fr' (log Driver (EvSleep (1 # 2)) w1)).
  { apply (Hframe Driver w1); [discriminate | apply Fr_pause | exact Hst | exact Hg1]. }
  assert (Hin : forall j, (j < b)%nat ->
            exists p, G (c + j)%nat (log Driver (EvSleep (1 # 2)) w1) p).
  { intros j Hj. destruct (Hg2 j Hj) as (p & Hp). exists p.
    apply (inv_frame env G HG _ Driver _ w1); [discriminate | exact Hst | exact Hp]. }
  destruct Hfr' as (HF & HA & HD).
  assert (Hevery : forall i page, nth_error doc i = Some page ->
            if (i <? c + b)%nat
            then exists p, G i (log Driver (EvSleep (1 # 2)) w1) p
            else G i (log Driver (EvSleep (1 # 2)) w1) (_convert_page env self page i)).
  { intros i page Hi.
    destruct (Nat.lt_ge_cases i c) as [H1|H1].
    - specialize (HD i page Hi (or_introl H1)).
      replace (i <? c)%nat with true in HD by (symmetry; apply Nat.ltb_lt; lia).
      replace (i <? c + b)%nat with true by (symmetry; apply Nat.ltb_lt; lia).
      exact HD.
    - destruct (Nat.lt_ge_cases i (c + b)) as [H2|H2].
      + replace (i <? c + b)%nat with true by (symmetry; apply Nat.ltb_lt; lia).
        replace i with (c + (i - c))%nat by lia. apply Hin. lia.
      + specialize (HD i page Hi (or_intror H2)).
        replace (i <? c)%nat with false in HD by (symmetry; apply Nat.ltb_ge; lia).
        replace (i <? c + b)%nat with false by (symmetry; apply Nat.ltb_ge; lia).
        exact HD. }
  destruct r as [rs|e]; cbn [fst snd].
  - destruct Hg3 as [Hrl Hrs].
    split; [exact HF|]. split; [rewrite length_app; lia|]. split; [|exact Hevery].
    intros i text Hi. destruct (Nat.lt_ge_cases i c) as [H1|H1].
    + rewrite nth_error_app1 in Hi by lia. now apply HA.
    + rewrite nth_error_app2 in Hi by lia. rewrite Hl in Hi.
      replace i with (c + (i - c))%nat by lia.
      apply (inv_frame env G HG _ Driver _ w1); [discriminate | exact Hst |].
      now apply Hrs.
  - split; [exact HF|]. split; [|exact I].
    intros i page Hi. specialize (Hevery i page Hi).
    destruct (i <? c + b)%nat; [exact Hevery | eauto].
Qed.

Lemma convert_batches_holds sched :
  (1 <= num_workers self)%Z ->
  forall starts c acc w,
  batches_from (List.length doc) (Z.to_nat (num_workers self)) c starts ->
  pages_hold env self doc G Fr c acc w ->
  pages_held doc G Fr (convert_batches env self sched doc starts acc w).
Proof.
  intros Hnw.
  induction starts as [|i starts IH]; intros c acc w Hb H;
    cbn [convert_batches batches_from] in *.
  - apply (pages_hold_done c); [exact H | lia].
  - destruct Hb as (Hi & Hic & Hcn & Hb).
    assert (Ei : i = Z.of_nat c) by lia. subst i.
    rewrite Nat2Z.id in *.
    rewrite batch_size_nat by assumption.
    set (b := Nat.min (Z.to_nat (num_workers self)) (List.length doc - c)) in *.
    destruct (load_pages doc (seq c b)) as [batch_pages|e] eqn:El;
      [|now apply (pages_hold_failed c acc)].
    pose proof (batch_holds (sched c) c b acc w batch_pages ltac:(lia) El H) as Hbatch.
    cbv zeta in Hbatch.
    destruct (_convert_pages_batch env self (sched c) batch_pages c w)
      as [[batch_results|e] w1]; cbn [fst snd] in Hbatch.
    + apply (IH (c + b)%nat); assumption.
    + exact Hbatch.
Qed.

(** A conversion keeps an invariant of its tasks. *)
Lemma convert_opened_holds sched entry suffix w :
  opened_pages entry suffix = Ok doc ->
  pages_hold env self doc G Fr 0 [] w ->
  pages_held doc G Fr (convert_opened env self sched entry suffix w).
Proof.
  unfold opened_pages, convert_opened. intros Hopen H.
  destruct (Str.mem suffix image_suffixes).
  - destruct (open_image entry) as [page|e]; [|discriminate].
    assert (Hdoc : doc = [page]) by congruence.
    pose proof (page_holds 0 [] w page H) as Hp. rewrite Hdoc in Hp at 1.
    specialize (Hp eq_refl). cbv zeta in Hp.
    destruct (run_task env (Task 0) (_convert_page env self page 0) w)
      as [[text|e] w1]; cbn [fst snd app] in Hp.
    + apply (pages_hold_done 1); [exact Hp | rewrite Hdoc; cbn; lia].
    + exact Hp.
  - rewrite Hopen.
    destruct (enable_concurrency self).
    + destruct (range_step (Z.of_nat (List.length doc)) (num_workers self))
        as [starts|e] eqn:Er; [|now apply (pages_hold_failed 0 [])].
      destruct (Z.le_gt_cases 1 (num_workers self)) as [Hnw|Hnw].
      * apply (convert_batches_holds sched Hnw starts 0%nat); [|exact H].
        now apply range_step_batches.
      * unfold range_step in Er.
        destruct (num_workers self =? 0)%Z eqn:E0; [discriminate|].
        apply Z.eqb_neq in E0.
        replace (num_workers self <? 0)%Z with true in Er
          by (symmetry; apply Z.ltb_lt; lia).
        inversion Er; subst. cbn [convert_batches].
        apply (pages_hold_done 0); [exact H | lia].
    + apply (convert_each_holds (List.length doc) 0%nat); [lia | exact H].
Qed.

Lemma convert_file_pages_held fs sched file_path w entry :
  fs file_path = Some entry ->
  opened_pages entry (Str.lower (Path.suffix file_path)) = Ok doc ->
  pages_hold env self doc G Fr 0 [] w ->
  pages_held doc G Fr (convert_file env fs self sched file_path w).
Proof.
  intros Hfs Hopen H. unfold convert_file. rewrite Hfs. cbv zeta.
  destruct (is_file entry) as [[|]|e0]; try now apply (pages_hold_failed 0 []).
  destruct (Str.mem _ supported_suffixes); cbn [negb];
    [|now apply (pages_hold_failed 0 [])].
  pose proof (convert_opened_holds sched entry _ w Hopen H) as Hc.
  destruct (convert_opened env self sched entry _ w) as [[results|e] w1]; [exact Hc|].
  destruct Hc as (H1 & H2 & _).
  destruct (is_Exception e); (split; [exact H1|]; split; [exact H2 | exact I]).
Qed.

End Driver.

(** *** The logic of tasks *)

Lemma holds_inv {A : Type} env off evs (p : prog A) I Q :
  holds env off evs p I Q -> I evs.
Proof. destruct p; cbn [holds]; tauto. Qed.

Lemma holds_weaken {A : Type} env (p : prog A) :
  forall off evs (I I' : list event -> Prop) (Q Q' : bool -> list event -> result A -> Prop),
  (forall l, I l -> I' l) ->
  (forall b l r, I l -> Q b l r -> Q' b l r) ->
  holds env off evs p I Q -> holds env off evs p I' Q'.
Proof.
  induction p as [a|e|k IH|k IH|async req k IH|pix mode pn k IH|secs k IH];
    intros off evs I I' Q Q' HI HQ; cbn [holds]; intros [Hi H];
    (split; [now apply HI|]).
  - now apply HQ.
  - now apply HQ.
  - destruct H as [H1 H2]. split; [eauto|]. intros E. eauto.
  - eauto.
  - intros n. eauto.
  - eauto.
  - eauto.
Qed.

Lemma holds_bind {A B : Type} env (p : prog A) (f : A -> prog B) :
  forall off evs I Q,
  holds env off evs p I
        (fun off' evs' r =>
           match r with
           | Ok a => holds env off' evs' (f a) I Q
           | Raise e => Q off' evs' (Raise e)
           end) ->
  holds env off evs (bind p f) I Q.
Proof.
  induction p as [a|e|k IH|k IH|async req k IH|pix mode pn k IH|secs k IH];
    intros off evs I Q; cbn [holds bind]; intros [Hi H].
  - exact H.
  - now split.
  - destruct H as [H1 H2]. split; [exact Hi|]. split; eauto.
  - split; [exact Hi|]. eauto.
  - split; [exact Hi|]. eauto.
  - split; [exact Hi|]. eauto.
  - split; [exact Hi|]. eauto.
Qed.

Lemma holds_on_raise {A : Type} env (p : prog A) h :
  forall off evs I Q,
  holds env off evs p I
        (fun off' evs' r =>
           match r with
           | Ok a => Q off' evs' (Ok a)
           | Raise e => holds env off' evs' (h e) I Q
           end) ->
  holds env off evs (on_raise p h) I Q.
Proof.
  induction p as [a|e|k IH|k IH|async req k IH|pix mode pn k IH|secs k IH];
    intros off evs I Q; cbn [holds on_raise]; intros [Hi H].
  - now split.
  - exact H.
  - destruct H as [H1 H2]. split; [exact Hi|]. split; eauto.
  - split; [exact Hi|]. eauto.
  - split; [exact Hi|]. eauto.
  - split; [exact Hi|]. eauto.
  - split; [exact Hi|]. eauto.
Qed.

Lemma holds_finally {A : Type} env (p : prog A) q :
  forall off evs I Q,
  holds env off evs p I
        (fun off' evs' r =>
           holds env off' evs' q I
                 (fun off'' evs'' rq =>
                    match rq with
                    | Ok _ => Q off'' evs'' r
                    | Raise e => Q off'' evs'' (Raise e)
                    end)) ->
  holds env off evs (try_finally p q) I Q.
Proof.
  induction p as [a|e|k IH|k IH|async req k IH|pix mode pn k IH|secs k IH];
    intros off evs I Q; cbn [holds try_finally]; intros [Hi H].
  - apply holds_bind.
    eapply holds_weaken; [| |exact H]; [auto|].
    intros b l [u|e] Hl Hq; cbn [holds]; auto.
  - apply holds_bind.
    eapply holds_weaken; [| |exact H]; [auto|].
    intros b l [u|e'] Hl Hq; cbn [holds]; auto.
  - destruct H as [H1 H2]. split; [exact Hi|]. split; eauto.
  - split; [exact Hi|]. eauto.
  - split; [exact Hi|]. eauto.
  - split; [exact Hi|]. eauto.
  - split; [exact Hi|]. eauto.
Qed.

(** The decorated call: one call, whatever the answer. *)
Lemma holds_gemini env self base64_encoded prompt structured off evs I
    (Q : bool -> list event -> result string -> Prop) :
  I evs ->
  (forall n,
     let req := generation_request self base64_encoded prompt structured in
     let out := backend env n req in
     let evs' := (evs ++ [EvCall (llm_enable_concurrency self) req out])%list in
     I evs' /\
     Q off evs'
       (match out with
        | Ok text => Ok (Fence.strip_fences text)
        | Raise e =>
            Raise (if is_Exception e
                   then mk_exn LLMError ("Gemini Model processing failed: " ++ str_exn e)
                   else e)
        end)) ->
  holds env off evs (_gemini self base64_encoded prompt structured) I Q.
Proof.
  intros Hi H. unfold _gemini, Tenacity.retry, _gemini_body, except_Exception.
  cbn [Nat.sub Tenacity.attempts on_raise holds].
  split; [exact Hi|]. intros n. destruct (H n) as [Hi' Hq].
  destruct (backend env n _) as [text|e]; cbn [on_raise holds]; [now split|].
  destruct (is_Exception e) eqn:E; cbn [on_raise holds].
  - now split.
  - unfold Tenacity.retry_if_exception_type. rewrite E. cbn [holds]. now split.
Qed.

Section Sound.
Variable env : Env.

Lemma holds_advance {A : Type} o (p : prog A) :
  forall off own I Q w,
  holds env off own p I Q ->
  (off = true -> detailed_extraction w = false) ->
  exists new off',
    trace (snd (advance env o p w)) = (trace w ++ tagged o new)%list /\
    holds env off' (own ++ new) (residual (fst (advance env o p w))) I Q /\
    (off' = true -> detailed_extraction (snd (advance env o p w)) = false).
Proof.
  induction p as [a|e|k IH|k IH|async req k IH|pix mode pn k IH|secs k IH];
    intros off own I Q w H Hoff.
  - exists [], off. cbn [advance fst snd residual tagged map].
    rewrite !app_nil_r. auto.
  - exists [], off. cbn [advance fst snd residual tagged map].
    rewrite !app_nil_r. auto.
  - cbn [advance]. cbn [holds] in H. destruct H as (Hi & H1 & H2).
    destruct (detailed_extraction w) eqn:Ew.
    + assert (E : off = false) by (destruct off; [now specialize (Hoff eq_refl)|reflexivity]).
      destruct (IH true false (own ++ [EvReadFlag true])%list I Q
                   (log o (EvReadFlag true) w) (H2 E)) as (new & off' & Ht & Hh & Hf);
        [discriminate|].
      exists (EvReadFlag true :: new), off'. split; [|split].
      * rewrite Ht. cbn. now rewrite <- app_assoc.
      * now rewrite <- app_assoc in Hh.
      * exact Hf.
    + destruct (IH false true (own ++ [EvReadFlag false])%list I Q
                   (log o (EvReadFlag false) w) H1) as (new & off' & Ht & Hh & Hf);
        [auto|].
      exists (EvReadFlag false :: new), off'. split; [|split].
      * rewrite Ht. cbn. now rewrite <- app_assoc.
      * now rewrite <- app_assoc in Hh.
      * exact Hf.
  - cbn [advance]. cbn [holds] in H. destruct H as (Hi & H).
    destruct (IH true (own ++ [EvClearFlag])%list I Q (log o EvClearFlag (clear_flag w)) H)
      as (new & off' & Ht & Hh & Hf); [reflexivity|].
    exists (EvClearFlag :: new), off'. split; [|split].
    + rewrite Ht. cbn. now rewrite <- app_assoc.
    + now rewrite <- app_assoc in Hh.
    + exact Hf.
  - cbn [advance]. cbn [holds] in H. destruct H as (Hi & H).
    specialize (H (calls_made w)).
    set (out := backend env (calls_made w) req) in *.
    destruct async.
    + exists [EvCall true req out], off. cbn [fst snd residual]. auto.
    + destruct (IH out off (own ++ [EvCall false req out])%list I Q
                   (log o (EvCall false req out) w) H Hoff)
        as (new & off' & Ht & Hh & Hf).
      exists (EvCall false req out :: new), off'. split; [|split].
      * rewrite Ht. cbn. now rewrite <- app_assoc.
      * now rewrite <- app_assoc in Hh.
      * exact Hf.
  - cbn [advance]. cbn [holds] in H. destruct H as (Hi & H).
    set (out := extract_images env pix mode pn) in *.
    destruct (IH out off (own ++ [EvExtract mode pn out])%list I Q
                 (log o (EvExtract mode pn out) w) H Hoff)
      as (new & off' & Ht & Hh & Hf).
    exists (EvExtract mode pn out :: new), off'. split; [|split].
    + rewrite Ht. cbn. now rewrite <- app_assoc.
    + now rewrite <- app_assoc in Hh.
    + exact Hf.
  - cbn [advance]. cbn [holds] in H. destruct H as (Hi & H).
    exists [EvSleep secs], off. cbn [fst snd residual]. auto.
Qed.

Lemma holds_run_task {A : Type} o (p : prog A) :
  forall off own I Q w,
  holds env off own p I Q ->
  (off = true -> detailed_extraction w = false) ->
  exists new off',
    trace (snd (run_task env o p w)) = (trace w ++ tagged o new)%list /\
    holds env off' (own ++ new) (residual (Finished (fst (run_task env o p w)))) I Q /\
    (off' = true -> detailed_extraction (snd (run_task env o p w)) = false).
Proof.
  induction p as [a|e|k IH|k IH|async req k IH|pix mode pn k IH|secs k IH];
    intros off own I Q w H Hoff.
  - exists [], off. cbn [run_task fst snd residual tagged map].
    rewrite !app_nil_r. auto.
  - exists [], off. cbn [run_task fst snd residual tagged map].
    rewrite !app_nil_r. auto.
  - cbn [run_task]. cbn [holds] in H. destruct H as (Hi & H1 & H2).
    destruct (detailed_extraction w) eqn:Ew.
    + assert (E : off = false) by (destruct off; [now specialize (Hoff eq_refl)|reflexivity]).
      destruct (IH true false (own ++ [EvReadFlag true])%list I Q
                   (log o (EvReadFlag true) w) (H2 E)) as (new & off' & Ht & Hh & Hf);
        [discriminate|].
      exists (EvReadFlag true :: new), off'. split; [|split].
      * rewrite Ht. cbn. now rewrite <- app_assoc.
      * now rewrite <- app_assoc in Hh.
      * exact Hf.
    + destruct (IH false true (own ++ [EvReadFlag false])%list I Q
                   (log o (EvReadFlag false) w) H1) as (new & off' & Ht & Hh & Hf);
        [auto|].
      exists (EvReadFlag false :: new), off'. split; [|split].
      * rewrite Ht. cbn. now rewrite <- app_assoc.
      * now rewrite <- app_assoc in Hh.
      * exact Hf.
  - cbn [run_task]. cbn [holds] in H. destruct H as (Hi & H).
    destruct (IH true (own ++ [EvClearFlag])%list I Q (log o EvClearFlag (clear_flag w)) H)
      as (new & off' & Ht & Hh & Hf); [reflexivity|].
    exists (EvClearFlag :: new), off'. split; [|split].
    + rewrite Ht. cbn. now rewrite <- app_assoc.
    + now rewrite <- app_assoc in Hh.
    + exact Hf.
  - cbn [run_task]. cbn [holds] in H. destruct H as (Hi & H).
    specialize (H (calls_made w)).
    set (out := backend env (calls_made w) req) in *.
    destruct (IH out off (own ++ [EvCall async req out])%list I Q
                 (log o (EvCall async req out) w) H Hoff)
      as (new & off' & Ht & Hh & Hf).
    exists (EvCall async req out :: new), off'. split; [|split].
    + rewrite Ht. cbn. now rewrite <- app_assoc.
    + now rewrite <- app_assoc in Hh.
    + exact Hf.
  - cbn [run_task]. cbn [holds] in H. destruct H as (Hi & H).
    set (out := extract_images env pix mode pn) in *.
    destruct (IH out off (own ++ [EvExtract mode pn out])%list I Q
                 (log o (EvExtract mode pn out) w) H Hoff)
      as (new & off' & Ht & Hh & Hf).
    exists (EvExtract mode pn out :: new), off'. split; [|split].
    + rewrite Ht. cbn. now rewrite <- app_assoc.
    + now rewrite <- app_assoc in Hh.
    + exact Hf.
  - cbn [run_task]. cbn [holds] in H. destruct H as (Hi & H).
    destruct (IH off (own ++ [EvSleep secs])%list I Q (log o (EvSleep secs) w) H Hoff)
      as (new & off' & Ht & Hh & Hf).
    exists (EvSleep secs :: new), off'. split; [|split].
    + rewrite Ht. cbn. now rewrite <- app_assoc.
    + now rewrite <- app_assoc in Hh.
    + exact Hf.
Qed.

(** The logic gives an invariant of tasks. *)
Lemma task_holds_invariant {A : Type} w0 I (Q : nat -> bool -> list event -> result A -> Prop) :
  task_invariant env (task_holds env w0 I Q).
Proof.
  constructor.
  - intros i p w (off & evs & Ht & Hh & Hoff).
    destruct (holds_advance (Task i) p off _ _ _ w Hh Hoff) as (new & off' & Ht' & Hh' & Hf).
    exists off', (evs ++ tagged (Task i) new)%list. split; [|split].
    + now rewrite Ht', Ht, app_assoc.
    + now rewrite events_of_app, events_of_tagged_same.
    + exact Hf.
  - intros i p w (off & evs & Ht & Hh & Hoff).
    destruct (holds_run_task (Task i) p off _ _ _ w Hh Hoff) as (new & off' & Ht' & Hh' & Hf).
    exists off', (evs ++ tagged (Task i) new)%list. split; [|split].
    + now rewrite Ht', Ht, app_assoc.
    + now rewrite events_of_app, events_of_tagged_same.
    + exact Hf.
  - intros i o p w w' Ho [(new & Ht') Hflag] (off & evs & Ht & Hh & Hoff).
    exists off, (evs ++ tagged o new)%list. split; [|split].
    + now rewrite Ht', Ht, app_assoc.
    + rewrite events_of_app, (events_of_tagged_other (Task i) o) by congruence.
      now rewrite app_nil_r.
    + auto.
Qed.

Lemma only_pages_task w0 n : closed_under 0 n (only_pages w0 n).
Proof.
  intros k w w' Hk [(new & Ht') _] (evs & Ht & Hall).
  exists (evs ++ tagged (Task k) new)%list. split; [now rewrite Ht', Ht, app_assoc|].
  apply Forall_app. split; [exact Hall|].
  unfold tagged. rewrite Forall_map. apply Forall_forall. intros ev _. cbn. lia.
Qed.

Lemma only_pages_pause w0 n w :
  only_pages w0 n w -> only_pages w0 n (log Driver (EvSleep (1 # 2)) w).
Proof.
  intros (evs & Ht & Hall). exists (evs ++ [(Driver, EvSleep (1 # 2))])%list.
  split; [cbn; now rewrite Ht, app_assoc|].
  apply Forall_app. split; [exact Hall|]. now repeat constructor.
Qed.

End Sound.

(** What [convert_file] keeps of the logic: nothing but the tasks of the
    pages and the pauses of the driver happens; the effects of every task
    satisfy its invariant; what a task returned satisfies its
    postcondition. *)
Lemma convert_file_holds env fs self sched file_path w entry doc off
    (I : nat -> list event -> Prop) (Q : nat -> bool -> list event -> result string -> Prop) :
  fs file_path = Some entry ->
  opened_pages entry (Str.lower (Path.suffix file_path)) = Ok doc ->
  (off = true -> detailed_extraction w = false) ->
  (forall i page, nth_error doc i = Some page ->
     holds env off [] (_convert_page env self page i) (I i) (Q i)) ->
  let out := convert_file env fs self sched file_path w in
  let evs := new_events w (snd out) in
  trace (snd out) = (trace w ++ evs)%list /\
  Forall (page_task_or_pause (List.length doc)) evs /\
  (forall i, (i < List.length doc)%nat -> I i (events_of (Task i) evs)) /\
  match fst out with
  | Ok results =>
      (List.length results <= List.length doc)%nat /\
      forall i text, nth_error results i = Some text ->
        exists off', Q i off' (events_of (Task i) evs) (Ok text)
  | Raise _ => True
  end.
Proof.
  intros Hfs Hopen Hoff Hpages out evs.
  pose proof (convert_file_pages_held env self doc (task_holds env w I Q)
                (only_pages w (List.length doc))
                (task_holds_invariant env w I Q)
                (only_pages_task w (List.length doc))
                (only_pages_pause w (List.length doc))
                fs sched file_path w entry Hfs Hopen) as H.
  destruct H as ((all & Ht & Hall) & Hevery & Hres).
  { split; [|split; [reflexivity|split]].
    - exists []. split; [now rewrite app_nil_r | constructor].
    - intros [|i] text Hi; discriminate.
    - intros i page Hi. cbn [Nat.ltb Nat.leb].
      exists off, []. split; [now rewrite app_nil_r|]. split; [|exact Hoff].
      now apply Hpages. }
  fold out in Ht, Hevery, Hres.
  assert (Eevs : evs = all) by (subst evs; now apply new_events_app).
  assert (Hsame : forall evs', trace (snd out) = (trace w ++ evs')%list -> evs' = evs).
  { intros evs' Ht'. rewrite Eevs. rewrite Ht in Ht'. now apply app_inv_head in Ht'. }
  split; [now rewrite Eevs|]. split; [now rewrite Eevs|]. split.
  - intros i Hi. destruct (nth_error doc i) as [page|] eqn:Ep;
      [|apply nth_error_None in Ep; lia].
    destruct (Hevery i page Ep) as (p & off' & evs' & Ht' & Hh & _).
    rewrite (Hsame _ Ht') in Hh. exact (holds_inv _ _ _ _ _ _ Hh).
  - destruct (fst out) as [results|e]; [|trivial].
    destruct Hres as [Hlen Hres]. split; [exact Hlen|].
    intros i text Hi. destruct (Hres i text Hi) as (off' & evs' & Ht' & Hh & _).
    rewrite (Hsame _ Ht') in Hh. cbn [holds] in Hh. exists off'. exact (proj2 Hh).
Qed.

End InvariantFacts.

(** ** The effects of a page *)

Module EffectFacts.
Import LoopFacts WorldFacts TaskFacts PoolFacts DriverFacts InvariantFacts.

Lemma calls_in_app l1 l2 : calls_in (l1 ++ l2) = (calls_in l1 + calls_in l2)%nat.
Proof. unfold calls_in. now rewrite filter_app, length_app. Qed.

Lemma nonexception_stays e msg :
  is_Exception (if is_Exception e then mk_exn LLMError msg else e) = false.
Proof. destruct (is_Exception e) eqn:E; [reflexivity | exact E]. Qed.

Section Page.
Variables (env : Env) (self : LLM) (base64_encoded : string) (pix : Pixmap)
         (page_number : nat).

Local Notation "'run'" := (page_run env self base64_encoded page_number).

Lemma page_run_nil limit : run limit [].
Proof. split; [constructor | cbn; lia]. Qed.

Lemma page_run_le k k' evs : run k evs -> (k <= k')%nat -> run k' evs.
Proof. intros [H1 H2] Hk. split; [exact H1 | lia]. Qed.

Lemma page_run_flag k evs b : run k evs -> run k (evs ++ [EvReadFlag b]).
Proof.
  intros [H1 H2]. split.
  - apply Forall_app. split; [exact H1 | repeat constructor].
  - rewrite calls_in_app. cbn. lia.
Qed.

Lemma page_run_clear k evs : run k evs -> run k (evs ++ [EvClearFlag]).
Proof.
  intros [H1 H2]. split.
  - apply Forall_app. split; [exact H1 | repeat constructor].
  - rewrite calls_in_app. cbn. lia.
Qed.

Lemma page_run_extract k evs mode out :
  run k evs -> image_mode self = Some mode ->
  run k (evs ++ [EvExtract mode page_number out]).
Proof.
  intros [H1 H2] Hm. split.
  - apply Forall_app. split; [exact H1|].
    constructor; [split; [exact Hm | reflexivity] | constructor].
  - rewrite calls_in_app. cbn. lia.
Qed.

Lemma page_run_call k evs req out :
  run k evs ->
  (req = analysis_request env self base64_encoded \/
   req = simple_request env self base64_encoded \/
   exists d, req = generation_request self base64_encoded (detailed_prompt env self d) false) ->
  run (S k) (evs ++ [EvCall (llm_enable_concurrency self) req out]).
Proof.
  intros [H1 H2] Hreq. split.
  - apply Forall_app. split; [exact H1|].
    constructor; [split; [reflexivity | exact Hreq] | constructor].
  - rewrite calls_in_app. cbn. lia.
Qed.

(** What follows the [try]: at most one more call. *)
Lemma assemble_run off evs prompt imgs :
  run 1 evs ->
  (forall pr, prompt = Some pr -> exists d, pr = detailed_prompt env self d) ->
  holds env off evs
        (generate_and_assemble env self base64_encoded (Fell_through prompt imgs))
        (run 2) (fun _ _ _ => True).
Proof.
  intros Hrun Hprompt. cbn [generate_and_assemble holds].
  split; [apply (page_run_le 1); [exact Hrun | lia]|]. split.
  - cbn [negb]. apply holds_bind. unfold _get_response. apply holds_gemini.
    + apply (page_run_le 1); [now apply page_run_flag | lia].
    + intros n. cbv zeta.
      assert (H2 : run 2 ((evs ++ [EvReadFlag false]) ++
                     [EvCall (llm_enable_concurrency self)
                        (generation_request self base64_encoded (simple_prompt env self) false)
                        (backend env n (generation_request self base64_encoded
                                          (simple_prompt env self) false))])).
      { apply page_run_call; [now apply page_run_flag | right; left; reflexivity]. }
      split; [exact H2|].
      destruct (backend env n _); cbn [holds]; auto.
  - intros _. cbn [negb]. destruct prompt as [pr|].
    + destruct (Hprompt pr eq_refl) as [d ->].
      apply holds_bind. unfold _get_response. apply holds_gemini.
      * apply (page_run_le 1); [now apply page_run_flag | lia].
      * intros n. cbv zeta.
        assert (H2 : run 2 ((evs ++ [EvReadFlag true]) ++
                       [EvCall (llm_enable_concurrency self)
                          (generation_request self base64_encoded
                             (detailed_prompt env self d) false)
                          (backend env n (generation_request self base64_encoded
                                            (detailed_prompt env self d) false))])).
        { apply page_run_call; [now apply page_run_flag | right; right; now exists d]. }
        split; [exact H2|].
        destruct (backend env n _); cbn [holds]; auto.
    + cbn [holds]. split; [|trivial].
      apply (page_run_le 1); [now apply page_run_flag | lia].
Qed.

(** What the handler of the [try] leaves to do. *)
Lemma fallback_run off evs e :
  run 1 evs ->
  holds env off evs
    (if is_Exception e then ClearFlag (Ret (Fell_through None [])) else Throw e)
    (run 2)
    (fun off' evs' r =>
       match r with
       | Ok a => holds env off' evs' (generate_and_assemble env self base64_encoded a)
                       (run 2) (fun _ _ _ => True)
       | Raise _ => True
       end).
Proof.
  intros Hrun. assert (H2 : run 2 evs) by (apply (page_run_le 1); [exact Hrun | lia]).
  destruct (is_Exception e); cbn [holds]; [|now split].
  split; [exact H2|]. split; [apply (page_run_le 1); [now apply page_run_clear | lia]|].
  apply assemble_run; [now apply page_run_clear | discriminate].
Qed.

Lemma generate_markdown_run :
  holds env false [] (generate_markdown env self base64_encoded pix page_number)
        (run 2) (fun _ _ _ => True).
Proof.
  unfold generate_markdown. cbn [holds]. split; [apply page_run_nil|]. split.
  - cbn [bind]. apply assemble_run; [|discriminate].
    apply (page_run_flag 1 []), page_run_nil.
  - intros _. apply holds_bind. unfold except_Exception. apply holds_on_raise.
    unfold analyse. apply holds_bind. unfold _get_response. apply holds_gemini.
    + apply (page_run_flag 2 []), page_run_nil.
    + intros n. cbv zeta.
      set (req := generation_request self base64_encoded (image_analysis_prompt env) true).
      set (evs := (([] ++ [EvReadFlag true]) ++
                   [EvCall (llm_enable_concurrency self) req (backend env n req)])%list).
      assert (H1 : run 1 evs).
      { apply (page_run_call 0); [apply page_run_flag, page_run_nil | now left]. }
      assert (H2 : run 2 evs) by (apply (page_run_le 1); [exact H1 | lia]).
      split; [exact H2|].
      destruct (backend env n req) as [text|e].
      * apply holds_bind.
        destruct (model_validate_json env (Fence.strip_fences text)) as [d|e];
          cbn [lift holds]; (split; [exact H2|]); [|now apply fallback_run].
        destruct (text_detected d).
        -- apply holds_bind.
           assert (Hdone : forall evs' imgs, run 1 evs' ->
                     holds env false evs'
                       (Ret (Fell_through (Some (detailed_prompt env self d)) imgs))
                       (run 2)
                       (fun off' evs'' r =>
                          match r with
                          | Ok a => holds env off' evs''
                                      (generate_and_assemble env self base64_encoded a)
                                      (run 2) (fun _ _ _ => True)
                          | Raise e => holds env off' evs''
                                         (if is_Exception e
                                          then ClearFlag (Ret (Fell_through None []))
                                          else Throw e)
                                         (run 2)
                                         (fun off'' evs''' r' =>
                                            match r' with
                                            | Ok a => holds env off'' evs'''
                                                (generate_and_assemble env self
                                                   base64_encoded a)
                                                (run 2) (fun _ _ _ => True)
                                            | Raise _ => True
                                            end)
                          end)).
           { intros evs' imgs Hr. cbn [holds].
             split; [apply (page_run_le 1); [exact Hr | lia]|].
             apply assemble_run; [exact Hr|]. intros pr Hpr. inversion Hpr. now exists d. }
           destruct (images_detected d);
             [|cbn [holds]; split; [exact H2 | now apply Hdone]].
           destruct (image_mode self) as [mode|] eqn:Em;
             [|cbn [holds]; split; [exact H2 | now apply Hdone]].
           cbn [holds]. split; [exact H2|].
           assert (H1' : run 1 (evs ++ [EvExtract mode page_number
                                          (extract_images env pix mode page_number)])).
           { now apply page_run_extract. }
           destruct (extract_images env pix mode page_number) as [imgs|e];
             cbn [lift holds].
           ++ split; [apply (page_run_le 1); [exact H1' | lia] | now apply Hdone].
           ++ split; [apply (page_run_le 1); [exact H1' | lia] | now apply fallback_run].
        -- cbn [holds generate_and_assemble]. auto.
      * rewrite nonexception_stays. cbn [holds]. auto.
Qed.

(** The simple path: one call, and the unfenced answer is the markdown. *)
Lemma generate_markdown_simple_run :
  holds env true [] (generate_markdown env self base64_encoded pix page_number)
        (run 1)
        (fun _ _ r =>
           forall text, r = Ok text ->
             exists n answer,
               backend env n (simple_request env self base64_encoded) = Ok answer /\
               text = Fence.strip_fences answer).
Proof.
  unfold generate_markdown. cbn [holds bind generate_and_assemble negb].
  split; [apply page_run_nil|]. split; [|discriminate].
  split; [apply (page_run_flag 1 []), page_run_nil|]. split; [|discriminate].
  apply holds_bind. unfold _get_response. apply holds_gemini.
  - apply (page_run_flag 1 ([] ++ [EvReadFlag false])), (page_run_flag 1 []), page_run_nil.
  - intros n. cbv zeta.
    assert (H1 : run 1 ((([] ++ [EvReadFlag false]) ++ [EvReadFlag false]) ++
                   [EvCall (llm_enable_concurrency self)
                      (generation_request self base64_encoded (simple_prompt env self) false)
                      (backend env n (generation_request self base64_encoded
                                        (simple_prompt env self) false))])).
    { apply (page_run_call 0); [|right; left; reflexivity].
      apply page_run_flag, page_run_flag, page_run_nil. }
    split; [exact H1|].
    destruct (backend env n _) as [answer|e] eqn:E; cbn [holds append_references].
    + split; [exact H1|]. intros text Ht. inversion Ht. now exists n, answer.
    + discriminate.
Qed.

End Page.

(** [_convert_page] around [generate_markdown]. *)
Lemma holds_convert_page env self page page_number off I
    (Q : bool -> list event -> result string -> Prop) :
  I [] ->
  (forall e, rendered self env page = Raise e ->
     Q off []
       (Raise (mk_exn UnboundLocalError
          "cannot access local variable 'pix' where it is not associated with a value"))) ->
  (forall pix e, rendered self env page = Ok pix -> png_base64 pix = Raise e ->
     Q off []
       (Raise (if is_Exception e
               then mk_exn VisionParserError
                      ("Failed to convert page " ++ Str.of_nat (page_number + 1)
                       ++ " to base64-encoded PNG: " ++ str_exn e)
               else e))) ->
  (forall pix image, rendered self env page = Ok pix -> png_base64 pix = Ok image ->
     holds env off [] (generate_markdown env (llm self) image pix page_number) I
       (fun off' evs r =>
          Q off' evs
            (match r with
             | Ok text => Ok text
             | Raise e =>
                 Raise (if is_Exception e
                        then mk_exn VisionParserError
                               ("Failed to convert page " ++ Str.of_nat (page_number + 1)
                                ++ " to base64-encoded PNG: " ++ str_exn e)
                        else e)
             end))) ->
  holds env off [] (_convert_page env self page page_number) I Q.
Proof.
  intros Hnil Hfail Hbytes Hok. unfold _convert_page. fold (rendered self env page).
  destruct (rendered self env page) as [pix|e] eqn:Er.
  - destruct (png_base64 pix) as [image|e] eqn:Eb.
    + apply holds_finally. unfold except_Exception. apply holds_on_raise.
      eapply holds_weaken; [| |exact (Hok pix image eq_refl Eb)]; [auto|].
      intros b l [text|e] Hl Hq; cbn [holds]; [now split|].
      destruct (is_Exception e); cbn [holds]; auto.
    + specialize (Hbytes pix e eq_refl Eb).
      unfold except_Exception. cbn [on_raise].
      destruct (is_Exception e); cbn [try_finally bind holds]; auto.
  - unfold except_Exception. cbn [on_raise].
    destruct (is_Exception e); cbn [try_finally bind holds]; split; eauto.
Qed.

End EffectFacts.

(** ** The effects of a conversion *)

Module ConversionEffects.
Import LoopFacts WorldFacts TaskFacts PoolFacts DriverFacts InvariantFacts EffectFacts.

Lemma convert_page_run env self doc i page :
  nth_error doc i = Some page ->
  holds env false [] (_convert_page env self page i)
        (page_task_run env self doc 2 i) (fun _ _ _ => True).
Proof.
  intros Hp. apply holds_convert_page.
  - intros page' Hp'. destruct (page_image self env page'); [apply page_run_nil | reflexivity].
  - trivial.
  - trivial.
  - intros pix image Hr Hb.
    eapply holds_weaken; [| |apply generate_markdown_run]; [|auto].
    intros l Hl page' Hp'. assert (page' = page) by congruence. subst page'.
    unfold page_image. now rewrite Hr, Hb.
Qed.

Lemma convert_page_simple_run env self doc i page :
  nth_error doc i = Some page ->
  holds env true [] (_convert_page env self page i)
        (page_task_run env self doc 1 i)
        (fun _ _ r => forall text, r = Ok text -> simple_markdown env self page text).
Proof.
  intros Hp. apply holds_convert_page.
  - intros page' Hp'. destruct (page_image self env page'); [apply page_run_nil | reflexivity].
  - discriminate.
  - discriminate.
  - intros pix image Hr Hb.
    eapply holds_weaken; [| |apply generate_markdown_simple_run].
    + intros l Hl page' Hp'. assert (page' = page) by congruence. subst page'.
      unfold page_image. rewrite Hr, Hb. exact Hl.
    + intros b l [text|e] _ H text' Ht; [|destruct (is_Exception e); discriminate].
      inversion Ht; subst. destruct (H text' eq_refl) as (n & answer & Hn & Hs).
      exists image, n, answer. unfold page_image. now rewrite Hr, Hb.
Qed.

Lemma in_events_of o x evs :
  In x evs -> fst x = o -> In (snd x) (events_of o evs).
Proof.
  intros Hin Ho. unfold events_of. apply in_map, filter_In. split; [exact Hin|].
  rewrite Ho. apply owner_eqb_refl.
Qed.

(** What every conversion keeps: its effects are those of the tasks of its
    pages and the pauses of the driver, and the task of a page has the
    effects of that page, with two calls at most. *)
Lemma conversion_runs env fs self sched file_path w entry doc :
  fs file_path = Some entry ->
  opened_pages entry (Str.lower (Path.suffix file_path)) = Ok doc ->
  let evs := new_events w (snd (convert_file env fs self sched file_path w)) in
  trace (snd (convert_file env fs self sched file_path w)) = (trace w ++ evs)%list /\
  Forall (page_task_or_pause (List.length doc)) evs /\
  forall i page, nth_error doc i = Some page ->
    match page_image self env page with
    | Ok image => page_run env (llm self) image i 2 (events_of (Task i) evs)
    | Raise _ => events_of (Task i) evs = []
    end.
Proof.
  intros Hfs Hopen evs.
  destruct (convert_file_holds env fs self sched file_path w entry doc false
              (page_task_run env self doc 2)
              (fun _ _ _ _ => True) Hfs Hopen ltac:(discriminate)
              (fun i page Hp => convert_page_run env self doc i page Hp))
    as (Ht & Hown & Hrun & _).
  split; [exact Ht|]. split; [exact Hown|].
  intros i page Hp. apply Hrun; [|exact Hp].
  apply nth_error_Some. congruence.
Qed.

(** X10: whatever [convert_file] does and however it ends, under every
    schedule: every effect is that of the task of a page of the document or
    a half-second pause of the driver.  A task only reads or clears the
    flag, calls the service and extracts images; each of its calls carries
    the image of its own page, goes through the client method chosen by
    [enable_concurrency], and is the structured analysis request (with
    temperature 0 and top_p 0.4), the default request or a request built
    from a decoded description; each extraction is for its own page number
    in the configured image mode.  No task ever sleeps: the back-off of the
    retry decorator never happens. *)
Theorem every_effect_belongs_to_its_page env fs self sched file_path w entry doc :
  fs file_path = Some entry ->
  opened_pages entry (Str.lower (Path.suffix file_path)) = Ok doc ->
  Forall (footprint env self doc)
         (new_events w (snd (convert_file env fs self sched file_path w))).
Proof.
  intros Hfs Hopen.
  destruct (conversion_runs env fs self sched file_path w entry doc Hfs Hopen)
    as (_ & Hown & Hrun).
  apply Forall_forall. intros [o ev] Hin. rewrite Forall_forall in Hown.
  pose proof (Hown _ Hin) as Ho. unfold page_task_or_pause, footprint in *.
  cbn [fst snd] in *. destruct o as [i|]; [|exact Ho].
  destruct (nth_error doc i) as [page|] eqn:Ep; [|apply nth_error_None in Ep; lia].
  pose proof (Hrun i page Ep) as Hi.
  pose proof (in_events_of (Task i) _ _ Hin eq_refl) as Hev. cbn [snd] in Hev.
  destruct (page_image self env page) as [image|e] eqn:Er.
  - exists page, image. split; [reflexivity|]. split; [exact Er|].
    destruct Hi as [Hall _]. rewrite Forall_forall in Hall. now apply Hall.
  - rewrite Hi in Hev. destruct Hev.
Qed.

Lemma every_effect_belongs_to_its_page_witness :
  Forall (footprint (Demo.env_of (Demo.describing "{images}"))
                    (Demo.parser 2 true) Demo.ten_pages)
         (new_events (Demo.fresh true)
            (snd (convert_file (Demo.env_of (Demo.describing "{images}")) Demo.files
                               (Demo.parser 2 true) (fun _ => [1; 0; 1]%nat) "ten.pdf"
                               (Demo.fresh true)))).
Proof.
  exact (every_effect_belongs_to_its_page (Demo.env_of (Demo.describing "{images}"))
           Demo.files (Demo.parser 2 true) (fun _ => [1; 0; 1]%nat) "ten.pdf"
           (Demo.fresh true) _ Demo.ten_pages eq_refl eq_refl).
Defined.

Lemma list_sum_const_zero {A : Type} (l : list A) : list_sum (map (fun _ => 0%nat) l) = 0%nat.
Proof. induction l; cbn; auto. Qed.

Lemma list_sum_cons x l : list_sum (x :: l) = (x + list_sum l)%nat.
Proof. reflexivity. Qed.

Lemma list_sum_bump (f : nat -> nat) k c : forall n a,
  (a <= k < a + n)%nat ->
  list_sum (map (fun i => (f i + (if Nat.eqb k i then c else 0))%nat) (seq a n))
  = (list_sum (map f (seq a n)) + c)%nat.
Proof.
  induction n as [|n IH]; intros a Hk; [lia|]. cbn [seq map].
  rewrite !list_sum_cons.
  destruct (Nat.eqb_spec k a) as [->|Hne].
  - assert (E : map (fun i => (f i + (if Nat.eqb a i then c else 0))%nat) (seq (S a) n)
                = map f (seq (S a) n)).
    { apply map_ext_in. intros i Hi. apply in_seq in Hi.
      destruct (Nat.eqb_spec a i); lia. }
    rewrite E. lia.
  - rewrite IH by lia. lia.
Qed.

Lemma list_sum_bound (f : nat -> nat) B : forall n a,
  (forall i, (a <= i < a + n)%nat -> (f i <= B)%nat) ->
  (list_sum (map f (seq a n)) <= B * n)%nat.
Proof.
  induction n as [|n IH]; intros a H; cbn [seq map]; [cbn; lia|].
  rewrite list_sum_cons.
  specialize (IH (S a)). specialize (H a) as Ha.
  assert (list_sum (map f (seq (S a) n)) <= B * n)%nat by (apply IH; intros; apply H; lia).
  assert (f a <= B)%nat by (apply Ha; lia). lia.
Qed.

(** The calls of a conversion are those of its tasks. *)
Lemma calls_by_task n evs :
  Forall (page_task_or_pause n) evs ->
  List.length (filter is_call evs)
  = list_sum (map (fun i => calls_in (events_of (Task i) evs)) (seq 0 n)).
Proof.
  induction evs as [|[o ev] evs IH]; intros H.
  - cbn. symmetry. apply (list_sum_const_zero (seq 0 n)).
  - inversion H as [|? ? Hx Hrest]; subst. specialize (IH Hrest).
    unfold page_task_or_pause in Hx. cbn [fst snd] in Hx.
    destruct o as [k|].
    + assert (E : map (fun i => calls_in (events_of (Task i) ((Task k, ev) :: evs)))
                      (seq 0 n)
                  = map (fun i => (calls_in (events_of (Task i) evs)
                                   + (if Nat.eqb k i then calls_in [ev] else 0))%nat)
                        (seq 0 n)).
      { apply map_ext. intros i. unfold events_of. cbn [filter fst owner_eqb].
        destruct (Nat.eqb k i); cbn [map snd]; [|lia].
        change (ev :: ?l) with ([ev] ++ l)%list at 1.
        rewrite (calls_in_app [ev]). lia. }
      rewrite E, list_sum_bump by lia. rewrite <- IH.
      cbn [filter]. unfold is_call at 1. cbn [snd].
      destruct ev; cbn; lia.
    + assert (E : map (fun i => calls_in (events_of (Task i) ((Driver, ev) :: evs)))
                      (seq 0 n)
                  = map (fun i => calls_in (events_of (Task i) evs)) (seq 0 n)).
      { apply map_ext. intros i. reflexivity. }
      rewrite E, <- IH. cbn in Hx. subst ev. reflexivity.
Qed.

(** X11: a conversion costs at most two calls of the service per page, and
    at most one per page when detailed extraction is off at the start,
    however it ends and whatever the schedule: no call is ever repeated. *)
Theorem conversion_call_budget env fs self sched file_path w entry doc :
  fs file_path = Some entry ->
  opened_pages entry (Str.lower (Path.suffix file_path)) = Ok doc ->
  (calls_made (snd (convert_file env fs self sched file_path w))
   <= calls_made w + (if detailed_extraction w then 2 else 1) * List.length doc)%nat.
Proof.
  intros Hfs Hopen.
  set (limit := if detailed_extraction w then 2%nat else 1%nat).
  assert (H : trace (snd (convert_file env fs self sched file_path w))
              = (trace w ++ new_events w (snd (convert_file env fs self sched file_path w)))%list
              /\ Forall (page_task_or_pause (List.length doc))
                   (new_events w (snd (convert_file env fs self sched file_path w)))
              /\ forall i, (i < List.length doc)%nat ->
                   page_task_run env self doc limit i
                     (events_of (Task i)
                        (new_events w (snd (convert_file env fs self sched file_path w))))).
  { subst limit. destruct (detailed_extraction w) eqn:Ew.
    - destruct (convert_file_holds env fs self sched file_path w entry doc false (page_task_run env self doc 2)
                  (fun _ _ _ _ => True) Hfs Hopen ltac:(discriminate)
                  (fun i page Hp => convert_page_run env self doc i page Hp))
        as (H1 & H2 & H3 & _). auto.
    - destruct (convert_file_holds env fs self sched file_path w entry doc true (page_task_run env self doc 1)
                  (fun i _ _ r => forall page text, nth_error doc i = Some page ->
                     r = Ok text -> simple_markdown env self page text)
                  Hfs Hopen (fun _ => Ew)) as (H1 & H2 & H3 & _); [|auto].
      intros i page Hp.
      eapply holds_weaken; [| |apply (convert_page_simple_run env self doc i page Hp)];
        [auto|].
      intros b l r _ Hr page' text Hp' Ht. assert (page' = page) by congruence.
      subst page'. now apply Hr. }
  destruct H as (Ht & Hown & Hrun).
  unfold calls_made. rewrite Ht, filter_app, length_app.
  rewrite (calls_by_task _ _ Hown).
  apply Nat.add_le_mono_l.
  apply (list_sum_bound _ limit (List.length doc) 0).
  intros i Hi. specialize (Hrun i ltac:(lia)).
  destruct (nth_error doc i) as [page|] eqn:Ep; [|apply nth_error_None in Ep; lia].
  specialize (Hrun page Ep).
  destruct (page_image self env page); [exact (proj2 Hrun)|]. rewrite Hrun. cbn. lia.
Qed.

Lemma conversion_call_budget_witness :
  (calls_made (snd (convert_file (Demo.env_of (Demo.describing "{images}")) Demo.files
                                 (Demo.parser 2 true) (fun _ => [1; 0; 1]%nat) "two.pdf"
                                 (Demo.fresh true)))
   <= calls_made (Demo.fresh true)
      + (if detailed_extraction (Demo.fresh true) then 2 else 1)
        * List.length [Demo.page "p0"; Demo.page "p1"])%nat.
Proof.
  exact (conversion_call_budget (Demo.env_of (Demo.describing "{images}")) Demo.files
           (Demo.parser 2 true) (fun _ => [1; 0; 1]%nat) "two.pdf" (Demo.fresh true)
           _ [Demo.page "p0"; Demo.page "p1"] eq_refl eq_refl).
Defined.

Lemma simple_results env fs self sched file_path w entry doc results w' :
  detailed_extraction w = false ->
  fs file_path = Some entry ->
  opened_pages entry (Str.lower (Path.suffix file_path)) = Ok doc ->
  convert_file env fs self sched file_path w = (Ok results, w') ->
  forall i text, nth_error results i = Some text ->
    exists page, nth_error doc i = Some page /\ simple_markdown env self page text.
Proof.
  intros Hw Hfs Hopen Hrun.
  destruct (convert_file_holds env fs self sched file_path w entry doc true (page_task_run env self doc 1)
              (fun i _ _ r => forall page text, nth_error doc i = Some page ->
                 r = Ok text -> simple_markdown env self page text)
              Hfs Hopen (fun _ => Hw)) as (_ & _ & _ & H).
  { intros i page Hp.
    eapply holds_weaken; [| |apply (convert_page_simple_run env self doc i page Hp)];
      [auto|].
    intros b l r _ Hr page' text Hp' Ht. assert (page' = page) by congruence.
    subst page'. now apply Hr. }
  rewrite Hrun in H. cbn [fst snd] in H. destruct H as [Hlen H].
  intros i text Hi. destruct (H i text Hi) as (_ & Hq).
  destruct (nth_error doc i) as [page|] eqn:Ep.
  - exists page. split; [reflexivity|]. now apply Hq.
  - apply nth_error_None in Ep.
    assert (i < List.length results)%nat by (apply nth_error_Some; congruence). lia.
Qed.

Lemma convert_each_length env self doc : forall page_numbers acc w results w',
  convert_each env self doc page_numbers acc w = (Ok results, w') ->
  List.length results = (List.length acc + List.length page_numbers)%nat.
Proof.
  induction page_numbers as [|n rest IH]; intros acc w results w' H; cbn [convert_each] in H.
  - inversion H. cbn. lia.
  - destruct (nth_error doc n) as [page|]; [|discriminate].
    destruct (run_task env (Task n) (_convert_page env self page n) w)
      as [[text|e] w1]; [|discriminate].
    rewrite (IH _ _ _ _ H), length_app. cbn. lia.
Qed.

Lemma results_length env fs self sched file_path w entry doc results w' :
  (enable_concurrency self = true -> (1 <= num_workers self)%Z) ->
  fs file_path = Some entry ->
  opened_pages entry (Str.lower (Path.suffix file_path)) = Ok doc ->
  convert_file env fs self sched file_path w = (Ok results, w') ->
  List.length results = List.length doc.
Proof.
  intros Hnw Hfs Hopen Hrun.
  destruct (enable_concurrency self) eqn:Ec.
  - pose proof (ConversionFacts.convert_file_order env fs self sched file_path w entry
                  results w' (Hnw eq_refl) Hfs Hrun) as H. cbv zeta in H.
    unfold opened_pages in Hopen.
    destruct (Str.mem (Str.lower (Path.suffix file_path)) image_suffixes).
    + destruct H as (page & text & Hp & -> & _). rewrite Hp in Hopen.
      inversion Hopen. reflexivity.
    + destruct H as (pdf & Hp & Hl & _). congruence.
  - apply (ConversionFacts.convert_file_ok _ _ _ _ _ _ _ _ _ Hfs) in Hrun.
    unfold convert_opened in Hrun. unfold opened_pages in Hopen.
    destruct (Str.mem (Str.lower (Path.suffix file_path)) image_suffixes).
    + destruct (open_image entry) as [page|e]; [|discriminate].
      destruct (run_task env (Task 0) (_convert_page env self page 0) w)
        as [[text|e] w1]; [|discriminate].
      inversion Hrun. inversion Hopen. reflexivity.
    + rewrite Hopen, Ec in Hrun.
      rewrite (convert_each_length _ _ _ _ _ _ _ _ Hrun), length_seq. reflexivity.
Qed.

(** X12: with detailed extraction off, what [convert_file] returns for page
    [i] is the unfenced answer to a call that carried the image of page [i]
    with the default prompt; no image reference is added, whatever
    [image_mode] is.  So when the answer of the service depends on the
    request alone, the list returned does not depend on the schedule, on
    the worker count (at least 1 when concurrency is on) or on
    [enable_concurrency]: two parsers with the same page settings and the
    same default request return the same list. *)
Theorem simple_conversion_is_determined env fs self sched file_path w entry doc results w' :
  detailed_extraction w = false ->
  fs file_path = Some entry ->
  opened_pages entry (Str.lower (Path.suffix file_path)) = Ok doc ->
  convert_file env fs self sched file_path w = (Ok results, w') ->
  (forall i text, nth_error results i = Some text ->
     exists page, nth_error doc i = Some page /\ simple_markdown env self page text)
  /\
  (stateless env ->
   (enable_concurrency self = true -> (1 <= num_workers self)%Z) ->
   forall self' sched' w2 results' w2',
     page_config self' = page_config self ->
     (forall base64_encoded,
        simple_request env (llm self') base64_encoded
        = simple_request env (llm self) base64_encoded) ->
     (enable_concurrency self' = true -> (1 <= num_workers self')%Z) ->
     detailed_extraction w2 = false ->
     convert_file env fs self' sched' file_path w2 = (Ok results', w2') ->
     results' = results).
Proof.
  intros Hw Hfs Hopen Hrun. split.
  - exact (simple_results env fs self sched file_path w entry doc results w'
             Hw Hfs Hopen Hrun).
  - intros Hst Hnw self' sched' w2 results' w2' Hcfg Hreq Hnw' Hw2 Hrun'.
    pose proof (results_length _ _ _ _ _ _ _ _ _ _ Hnw Hfs Hopen Hrun) as Hl.
    pose proof (results_length _ _ _ _ _ _ _ _ _ _ Hnw' Hfs Hopen Hrun') as Hl'.
    apply nth_error_ext. intros i.
    destruct (nth_error results i) as [text|] eqn:Ei.
    + destruct (nth_error results' i) as [text'|] eqn:Ei'.
      * destruct (simple_results _ _ _ _ _ _ _ _ _ _ Hw Hfs Hopen Hrun i text Ei)
          as (page & Hp & image & n & answer & Hr & Hb & ->).
        destruct (simple_results _ _ _ _ _ _ _ _ _ _ Hw2 Hfs Hopen Hrun' i text' Ei')
          as (page' & Hp' & image' & n' & answer' & Hr' & Hb' & ->).
        assert (page' = page) by congruence. subst page'.
        unfold page_image, rendered in Hr, Hr'. rewrite Hcfg in Hr'.
        assert (image' = image) by congruence. subst image'.
        rewrite Hreq, (Hst n' n) in Hb'. congruence.
      * apply nth_error_None in Ei'.
        assert (i < List.length results)%nat by (apply nth_error_Some; congruence). lia.
    + apply nth_error_None in Ei. apply nth_error_None. lia.
Qed.

Lemma echo_is_stateless : stateless (Demo.env_of Demo.echo).
Proof. intros n m req. reflexivity. Qed.

Lemma simple_conversion_is_determined_witness :
  exists results w' results2 w2',
    convert_file (Demo.env_of Demo.echo) Demo.files (Demo.parser 2 true)
                 (fun _ => [1; 0; 1]%nat) "two.pdf" (Demo.fresh false) = (Ok results, w') /\
    convert_file (Demo.env_of Demo.echo) Demo.files (Demo.parser 1 false)
                 (fun _ => []) "two.pdf" (Demo.fresh false) = (Ok results2, w2') /\
    results2 = results.
Proof.
  assert (Hrun : exists results w',
            convert_file (Demo.env_of Demo.echo) Demo.files (Demo.parser 2 true)
                         (fun _ => [1; 0; 1]%nat) "two.pdf" (Demo.fresh false)
            = (Ok results, w')) by (eexists; eexists; vm_compute; reflexivity).
  assert (Hrun2 : exists results2 w2',
            convert_file (Demo.env_of Demo.echo) Demo.files (Demo.parser 1 false)
                         (fun _ => []) "two.pdf" (Demo.fresh false)
            = (Ok results2, w2')) by (eexists; eexists; vm_compute; reflexivity).
  destruct Hrun as (results & w' & Hrun). destruct Hrun2 as (results2 & w2' & Hrun2).
  exists results, w', results2, w2'. split; [exact Hrun|]. split; [exact Hrun2|].
  exact (proj2 (simple_conversion_is_determined (Demo.env_of Demo.echo) Demo.files
                  (Demo.parser 2 true) (fun _ => [1; 0; 1]%nat) "two.pdf"
                  (Demo.fresh false) _ [Demo.page "p0"; Demo.page "p1"] results w'
                  eq_refl eq_refl eq_refl Hrun)
           echo_is_stateless ltac:(cbn; lia) (Demo.parser 1 false) (fun _ => [])
           (Demo.fresh false) results2 w2' eq_refl (fun _ => eq_refl)
           ltac:(cbn; discriminate) eq_refl Hrun2).
Defined.

(** X13: a parser that [VisionParser.__init__] returned was given a
    supported model name, holds the worker count of [get_device_config],
    and passed its own [enable_concurrency] on to its [LLM]; so every call
    of every conversion it makes goes through [generate_content_async] when
    concurrency is on and through [generate_content] when it is off. *)
Theorem constructed_parser_uses_one_client_method genai workers cfg model_name api_key
    temperature top_p image_mode custom_prompt detailed_extraction enable_concurrency
    self flag :
  VisionParser_init genai workers cfg model_name api_key temperature top_p image_mode
                    custom_prompt detailed_extraction enable_concurrency
  = Built (self, flag) ->
  In model_name (map fst SUPPORTED_MODELS) /\
  num_workers self = workers /\
  flag = detailed_extraction /\
  forall env fs sched file_path w entry doc,
    fs file_path = Some entry ->
    opened_pages entry (Str.lower (Path.suffix file_path)) = Ok doc ->
    Forall (fun x => match snd x with
                     | EvCall async _ _ => async = enable_concurrency
                     | _ => True
                     end)
           (new_events w (snd (convert_file env fs self sched file_path w))).
Proof.
  intros H.
  destruct (ConstructionFacts.VisionParser_built _ _ _ _ _ _ _ _ _ _ _ _ _ H)
    as (Hin & Hflag & Hself).
  split; [exact Hin|]. split; [now rewrite Hself|]. split; [exact Hflag|].
  intros env fs sched file_path w entry doc Hfs Hopen.
  destruct (conversion_runs env fs self sched file_path w entry doc Hfs Hopen)
    as (_ & Hown & Hrun).
  rewrite Forall_forall in *. intros [o ev] Hx.
  destruct ev as [b| |async req out|mode pn out|secs]; try exact I.
  pose proof (Hown _ Hx) as Ho. unfold page_task_or_pause in Ho. cbn [fst snd] in *.
  destruct o as [i|]; [|discriminate].
  destruct (nth_error doc i) as [page|] eqn:Ep; [|apply nth_error_None in Ep; lia].
  pose proof (Hrun i page Ep) as Hi.
  pose proof (in_events_of (Task i) _ _ Hx eq_refl) as Hev. cbn [snd] in Hev.
  destruct (page_image self env page) as [image|e].
  - destruct Hi as [Hall _]. rewrite Forall_forall in Hall.
    destruct (Hall _ Hev) as [Ha _]. rewrite Ha, Hself. reflexivity.
  - rewrite Hi in Hev. destruct Hev.
Qed.

Lemma constructed_parser_uses_one_client_method_witness :
  In "gemini-1.5-flash" (map fst SUPPORTED_MODELS) /\
  num_workers (main_parser 4) = 4%Z /\
  Forall (fun x => match snd x with
                   | EvCall async _ _ => async = false
                   | _ => True
                   end)
         (new_events (Demo.fresh true)
            (snd (convert_file (Demo.env_of Demo.echo) Demo.files (main_parser 4)
                               (fun _ => []) "two.pdf" (Demo.fresh true)))).
Proof.
  destruct (constructed_parser_uses_one_client_method DemoHost.installed 4 None
              "gemini-1.5-flash" None (2 # 10) (4 # 10) (Some "url") None true false
              (main_parser 4) true eq_refl) as (H1 & H2 & _ & H3).
  split; [exact H1|]. split; [exact H2|].
  exact (H3 (Demo.env_of Demo.echo) Demo.files (fun _ => []) "two.pdf" (Demo.fresh true)
            _ [Demo.page "p0"; Demo.page "p1"] eq_refl eq_refl).
Defined.

End ConversionEffects.

(** ** The fallback, once triggered *)

Module FallbackFacts.
Import LoopFacts WorldFacts TaskFacts PoolFacts DriverFacts ExtractionFacts InvariantFacts
       EffectFacts.


Section Page.
Variables (env : Env) (self : LLM) (base64_encoded : string) (pix : Pixmap)
         (page_number : nat).





End Page.





End FallbackFacts.

(** ** Pauses *)

Module PauseFacts.
Import LoopFacts WorldFacts TaskFacts PoolFacts DriverFacts InvariantFacts.

Lemma idle_invariant {A : Type} env :
  task_invariant env (fun (_ : nat) (_ : World) (_ : prog A) => True).
Proof. constructor; auto. Qed.

Lemma paused_task w0 k lo hi : closed_under lo hi (paused w0 k).
Proof.
  intros j w w' _ [(new & Ht') _] (evs & Ht & Hd).
  exists (evs ++ tagged (Task j) new)%list. split; [now rewrite Ht', Ht, app_assoc|].
  rewrite events_of_app, events_of_tagged_other by discriminate.
  now rewrite app_nil_r.
Qed.

Lemma paused_run {A : Type} env w0 k j (p : prog A) w :
  paused w0 k w -> paused w0 k (snd (run_task env (Task j) p w)).
Proof.
  intros H. apply (paused_task w0 k 0 (S j) j w); [lia | apply stepped_run_task | exact H].
Qed.

Lemma paused_batch env self sched pages start_idx w0 k w :
  paused w0 k w ->
  paused w0 (S k) (snd (_convert_pages_batch env self sched pages start_idx w)).
Proof.
  intros H. unfold _convert_pages_batch.
  destruct (gather_holds env _ (idle_invariant env) (paused w0 k) start_idx sched
              (batch_tasks env self pages start_idx) w
              (paused_task w0 k _ _) H (fun _ _ _ => I)) as ((evs & Ht & Hd) & _).
  destruct (gather env start_idx sched (batch_tasks env self pages start_idx) w)
    as [r w1]; cbn [fst snd] in *.
  exists (evs ++ [(Driver, EvSleep (1 # 2))])%list. split.
  - cbn. now rewrite Ht, app_assoc.
  - rewrite events_of_app, Hd. cbn. symmetry. apply repeat_cons.
Qed.

Lemma paused_batches env self sched doc w0 : forall starts acc k w,
  paused w0 k w ->
  match convert_batches env self sched doc starts acc w with
  | (Ok _, w') => paused w0 (k + List.length starts) w'
  | (Raise _, w') => exists j, (j <= List.length starts)%nat /\ paused w0 (k + j) w'
  end.
Proof.
  induction starts as [|i starts IH]; intros acc k w H; cbn [convert_batches List.length].
  - now rewrite Nat.add_0_r.
  - destruct (load_pages doc _) as [batch_pages|e].
    2:{ exists 0%nat. split; [lia | now rewrite Nat.add_0_r]. }
    pose proof (paused_batch env self (sched (Z.to_nat i)) batch_pages (Z.to_nat i) w0 k w H)
      as Hb.
    destruct (_convert_pages_batch env self (sched (Z.to_nat i)) batch_pages (Z.to_nat i) w)
      as [[batch_results|e] w1]; cbn [snd] in Hb.
    + specialize (IH (acc ++ batch_results)%list (S k) w1 Hb).
      destruct (convert_batches env self sched doc starts (acc ++ batch_results)%list w1)
        as [[rs|e] w2].
      * now replace (k + S (List.length starts))%nat with (S k + List.length starts)%nat by lia.
      * destruct IH as (j & Hj & Hp). exists (S j). split; [lia|].
        now replace (k + S j)%nat with (S k + j)%nat by lia.
    + exists 1%nat. split; [lia|]. now replace (k + 1)%nat with (S k) by lia.
Qed.

Lemma paused_each env self doc w0 k : forall page_numbers acc w,
  paused w0 k w -> paused w0 k (snd (convert_each env self doc page_numbers acc w)).
Proof.
  induction page_numbers as [|n rest IH]; intros acc w H; cbn [convert_each]; [exact H|].
  destruct (nth_error doc n) as [page|]; [|exact H].
  pose proof (paused_run env w0 k n (_convert_page env self page n) w H) as Hp.
  destruct (run_task env (Task n) (_convert_page env self page n) w) as [[text|e] w1];
    cbn [snd] in *; [now apply IH | exact Hp].
Qed.

(** X14: a conversion that returns paused once per batch, for half a
    second each time, and the driver did nothing else: an image or a
    sequential conversion never pauses, a concurrent one of [n] pages with
    [num_workers >= 1] pauses [ceil(n / num_workers)] times. *)
Theorem every_batch_pauses_once env fs self sched file_path w entry doc results w' :
  fs file_path = Some entry ->
  opened_pages entry (Str.lower (Path.suffix file_path)) = Ok doc ->
  convert_file env fs self sched file_path w = (Ok results, w') ->
  events_of Driver (new_events w w')
  = repeat (EvSleep (1 # 2))
      (if Str.mem (Str.lower (Path.suffix file_path)) image_suffixes then 0%nat
       else if enable_concurrency self && (0 <? num_workers self)%Z
            then Z.to_nat ((Z.of_nat (List.length doc) + num_workers self - 1)
                           / num_workers self)
            else 0%nat).
Proof.
  intros Hfs Hopen Hrun.
  apply (ConversionFacts.convert_file_ok _ _ _ _ _ _ _ _ _ Hfs) in Hrun.
  assert (H0 : paused w 0 w) by (exists []; split; [now rewrite app_nil_r | reflexivity]).
  assert (Hp : exists k,
             paused w k w' /\
             k = if Str.mem (Str.lower (Path.suffix file_path)) image_suffixes then 0%nat
                 else if enable_concurrency self && (0 <? num_workers self)%Z
                      then Z.to_nat ((Z.of_nat (List.length doc) + num_workers self - 1)
                                     / num_workers self)
                      else 0%nat).
  { unfold convert_opened in Hrun. unfold opened_pages in Hopen.
    destruct (Str.mem (Str.lower (Path.suffix file_path)) image_suffixes).
    - exists 0%nat. split; [|reflexivity].
      destruct (open_image entry) as [page|e]; [|discriminate].
      pose proof (paused_run env w 0 0 (_convert_page env self page 0) w H0) as Hp.
      destruct (run_task env (Task 0) (_convert_page env self page 0) w)
        as [[text|e] w1]; [|discriminate].
      inversion Hrun; subst. exact Hp.
    - rewrite Hopen in Hrun. destruct (enable_concurrency self); cbn [andb].
      + destruct (range_step (Z.of_nat (List.length doc)) (num_workers self))
          as [starts|e] eqn:Er; [|discriminate].
        pose proof (paused_batches env self sched doc w starts [] 0 w H0) as Hp.
        rewrite Hrun in Hp. exists (List.length starts). split; [exact Hp|].
        unfold range_step in Er.
        destruct (num_workers self =? 0)%Z eqn:E0; [discriminate|].
        apply Z.eqb_neq in E0.
        destruct (num_workers self <? 0)%Z eqn:E1.
        * apply Z.ltb_lt in E1.
          replace (0 <? num_workers self)%Z with false by (symmetry; apply Z.ltb_ge; lia).
          now inversion Er.
        * apply Z.ltb_ge in E1.
          replace (0 <? num_workers self)%Z with true by (symmetry; apply Z.ltb_lt; lia).
          inversion Er. now rewrite length_map, length_seq.
      + exists 0%nat. split; [|reflexivity].
        pose proof (paused_each env self doc w 0 (seq 0 (List.length doc)) [] w H0) as Hp.
        rewrite Hrun in Hp. exact Hp. }
  destruct Hp as (k & (evs & Ht & Hd) & ->). now rewrite (new_events_app _ _ _ Ht).
Qed.

Lemma every_batch_pauses_once_witness :
  exists results w',
    convert_file (Demo.env_of Demo.echo) Demo.files (Demo.parser 4 true)
                 (fun _ => [2; 0]%nat) "ten.pdf" (Demo.fresh false) = (Ok results, w') /\
    events_of Driver (new_events (Demo.fresh false) w')
    = [EvSleep (1 # 2); EvSleep (1 # 2); EvSleep (1 # 2)].
Proof.
  assert (Hrun : exists results w',
            convert_file (Demo.env_of Demo.echo) Demo.files (Demo.parser 4 true)
                         (fun _ => [2; 0]%nat) "ten.pdf" (Demo.fresh false)
            = (Ok results, w')) by (eexists; eexists; vm_compute; reflexivity).
  destruct Hrun as (results & w' & Hrun). exists results, w'. split; [exact Hrun|].
  exact (every_batch_pauses_once (Demo.env_of Demo.echo) Demo.files (Demo.parser 4 true)
           (fun _ => [2; 0]%nat) "ten.pdf" (Demo.fresh false) _ Demo.ten_pages results w'
           eq_refl eq_refl Hrun).
Defined.

End PauseFacts.

(** ** Failures *)

Module FailureFacts.
Import LoopFacts WorldFacts TaskFacts PoolFacts DriverFacts InvariantFacts.

Lemma task_replays_invariant {A : Type} env w0 start_idx (coros : list (prog A)) :
  task_invariant env (task_replays w0 start_idx coros).
Proof.
  constructor.
  - intros i p w (evs & c & Ht & Hc & Hf).
    destruct (advance_feed env (Task i) p w) as (new & Ht' & Hf').
    exists (evs ++ tagged (Task i) new)%list, c. split; [|split; [exact Hc|]].
    + now rewrite Ht', Ht, app_assoc.
    + rewrite events_of_app, events_of_tagged_same. now rewrite (feed_app _ _ _ _ Hf).
  - intros i p w (evs & c & Ht & Hc & Hf).
    destruct (run_task_feed env (Task i) p w) as (new & Ht' & Hf').
    exists (evs ++ tagged (Task i) new)%list, c. split; [|split; [exact Hc|]].
    + now rewrite Ht', Ht, app_assoc.
    + rewrite events_of_app, events_of_tagged_same. now rewrite (feed_app _ _ _ _ Hf).
  - intros i o p w w' Ho [(new & Ht') _] (evs & c & Ht & Hc & Hf).
    exists (evs ++ tagged o new)%list, c. split; [|split; [exact Hc|]].
    + now rewrite Ht', Ht, app_assoc.
    + rewrite events_of_app, (events_of_tagged_other (Task i) o) by congruence.
      now rewrite app_nil_r.
Qed.

Lemma only_tasks_closed w0 lo hi : closed_under lo hi (only_tasks w0 lo hi).
Proof.
  intros k w w' Hk [(new & Ht') _] (evs & Ht & Hout).
  exists (evs ++ tagged (Task k) new)%list. split; [now rewrite Ht', Ht, app_assoc|].
  intros o Ho. rewrite events_of_app, (Hout o Ho).
  apply events_of_tagged_other. intros E. exact (Ho k Hk E).
Qed.

(** A join that raises: the exception is what one of its tasks ended
    with. *)
Lemma gather_fails {A : Type} env start_idx sched (coros : list (prog A)) w e w' :
  gather env start_idx sched coros w = (Raise e, w') ->
  exists evs j c,
    trace w' = (trace w ++ evs)%list /\
    nth_error coros j = Some c /\
    feed c (events_of (Task (start_idx + j)) evs) = Some (Throw e) /\
    forall o, (forall k, (start_idx <= k < start_idx + List.length coros)%nat -> o <> Task k) ->
      events_of o evs = [].
Proof.
  intros H.
  destruct (gather_holds env _ (task_replays_invariant env w start_idx coros)
              (only_tasks w start_idx (start_idx + List.length coros)) start_idx sched
              coros w (only_tasks_closed w _ _)) as ((evs & Ht & Hout) & _ & Hr).
  - exists []. split; [now rewrite app_nil_r | reflexivity].
  - intros j c Hj. exists [], c. split; [now rewrite app_nil_r|]. split; [|reflexivity].
    now replace (start_idx + j - start_idx)%nat with j by lia.
  - rewrite H in Ht, Hr. cbn [fst snd] in *.
    destruct Hr as (j & Hj & evs' & c & Ht' & Hc & Hf).
    replace (start_idx + j - start_idx)%nat with j in Hc by lia.
    assert (evs' = evs) by (rewrite Ht in Ht'; now apply app_inv_head in Ht').
    subst evs'. exists evs, j, c. auto.
Qed.

Lemma batch_fails env self sched pages start_idx w e w' :
  _convert_pages_batch env self sched pages start_idx w = (Raise e, w') ->
  exists evs j page,
    trace w' = (trace w ++ evs)%list /\
    nth_error pages j = Some page /\
    feed (_convert_page env self page (start_idx + j))
         (events_of (Task (start_idx + j)) evs) = Some (Throw e) /\
    forall m, (m < start_idx \/ start_idx + List.length pages <= m)%nat ->
      events_of (Task m) evs = [].
Proof.
  unfold _convert_pages_batch. intros H.
  destruct (gather env start_idx sched (batch_tasks env self pages start_idx) w)
    as [r w1] eqn:E.
  inversion H; subst; clear H.
  destruct (gather_fails _ _ _ _ _ _ _ E) as (evs & j & c & Ht & Hc & Hf & Hout).
  rewrite batch_tasks_length in Hout. rewrite batch_tasks_nth in Hc.
  destruct (nth_error pages j) as [page|] eqn:Ej; [|discriminate].
  cbn [option_map] in Hc. injection Hc as <-.
  exists (evs ++ [(Driver, EvSleep (1 # 2))])%list, j, page.
  split; [cbn; now rewrite Ht, app_assoc|]. split; [exact Ej|]. split.
  - rewrite events_of_app. cbn. now rewrite app_nil_r.
  - intros m Hm. rewrite events_of_app. cbn. rewrite app_nil_r.
    apply Hout. intros k Hk E'. inversion E'. lia.
Qed.

Section Loops.
Variables (env : Env) (self : VisionParser) (doc : list Page) (w0 : World).

(** How a loop over the pages fails: in a page [k] of a window of [width]
    pages starting at [c]; the pages before [c] are converted, the pages
    after the window untouched. *)
Let failed (width : nat) (e : exn) (w' : World) : Prop :=
  exists evs c k page,
    trace w' = (trace w0 ++ evs)%list /\
    (c <= k < c + width)%nat /\
    nth_error doc k = Some page /\
    feed (_convert_page env self page k) (events_of (Task k) evs) = Some (Throw e) /\
    (forall i pg, (i < c)%nat -> nth_error doc i = Some pg ->
       exists text,
         feed (_convert_page env self pg i) (events_of (Task i) evs) = Some (Ret text)) /\
    (forall m, (c + width <= m)%nat -> events_of (Task m) evs = []).

Lemma failed_here width b c acc evs0 evs' j page e w' :
  converted_upto env self doc c acc evs0 ->
  trace w' = (trace w0 ++ evs0 ++ evs')%list ->
  (j < b)%nat -> (b <= width)%nat ->
  nth_error doc (c + j) = Some page ->
  feed (_convert_page env self page (c + j)) (events_of (Task (c + j)) evs') = Some (Throw e) ->
  (forall m, (m < c \/ c + b <= m)%nat -> events_of (Task m) evs' = []) ->
  failed_in_window env self doc w0 width e w'.
Proof.
  intros (Hl & Hold & Hlate) Ht Hj Hb Hp Hf Hout.
  exists (evs0 ++ evs')%list, c, (c + j)%nat, page.
  split; [exact Ht|]. split; [lia|]. split; [exact Hp|]. split; [|split].
  - rewrite events_of_app, Hlate by lia. exact Hf.
  - intros i pg Hi Hpg. destruct (Hold i pg Hi Hpg) as (text & _ & Hfi).
    exists text. rewrite events_of_app, (Hout i) by lia. now rewrite app_nil_r.
  - intros m Hm. rewrite events_of_app, Hlate, Hout by lia. reflexivity.
Qed.

Lemma convert_each_fails : forall n c acc w e w' evs0,
  (c + n <= List.length doc)%nat ->
  trace w = (trace w0 ++ evs0)%list ->
  converted_upto env self doc c acc evs0 ->
  convert_each env self doc (seq c n) acc w = (Raise e, w') ->
  failed_in_window env self doc w0 1 e w'.
Proof.
  induction n as [|n IH]; intros c acc w e w' evs0 Hc Ht Hinv H; cbn in H;
    [discriminate|].
  destruct (nth_error doc c) as [page|] eqn:Ep;
    [|apply nth_error_None in Ep; lia].
  destruct (run_task_feed env (Task c) (_convert_page env self page c) w)
    as (new & Hn & Hf).
  destruct (run_task env (Task c) (_convert_page env self page c) w)
    as [[text|e1] w1]; cbn [fst snd residual] in *.
  - apply (IH (S c) (acc ++ [text])%list w1 e w' (evs0 ++ tagged (Task c) new)%list);
      [lia | now rewrite Hn, Ht, app_assoc | | exact H].
    replace (S c) with (c + 1)%nat by lia.
    apply converted_extend; [exact Hinv | reflexivity | |].
    + intros j pg Hj Hpg. assert (j = 0)%nat by lia. subst j.
      rewrite Nat.add_0_r in *. rewrite Ep in Hpg. inversion Hpg; subst.
      exists text. split; [reflexivity|]. now rewrite events_of_tagged_same.
    + intros m Hm. apply events_of_tagged_other. intros E; inversion E; lia.
  - inversion H; subst.
    apply (failed_here 1 1 c acc evs0 (tagged (Task c) new) 0%nat page e w' Hinv).
    + now rewrite Hn, Ht, app_assoc.
    + lia.
    + lia.
    + now rewrite Nat.add_0_r.
    + rewrite Nat.add_0_r. now rewrite events_of_tagged_same.
    + intros m Hm. apply events_of_tagged_other. intros E; inversion E; lia.
Qed.

Lemma convert_batches_fails sched :
  (1 <= num_workers self)%Z ->
  forall starts c acc w e w' evs0,
  batches_from (List.length doc) (Z.to_nat (num_workers self)) c starts ->
  trace w = (trace w0 ++ evs0)%list ->
  converted_upto env self doc c acc evs0 ->
  convert_batches env self sched doc starts acc w = (Raise e, w') ->
  failed_in_window env self doc w0 (Z.to_nat (num_workers self)) e w'.
Proof.
  intros Hnw.
  induction starts as [|i starts IH]; intros c acc w e w' evs0 Hb Ht Hinv H;
    cbn [convert_batches batches_from] in *; [discriminate|].
  destruct Hb as (Hi & Hic & Hcn & Hb).
  assert (Ei : i = Z.of_nat c) by lia. subst i.
  rewrite Nat2Z.id in *.
  rewrite batch_size_nat in H by assumption.
  set (b := Nat.min (Z.to_nat (num_workers self)) (List.length doc - c)) in *.
  destruct (ReturnFacts.load_pages_ok doc b c ltac:(lia)) as (batch_pages & El & _).
  rewrite El in H.
  destruct (load_pages_spec _ _ _ _ El) as [Hlen Hnth].
  destruct (_convert_pages_batch env self (sched c) batch_pages c w)
    as [[batch_results|e1] w1] eqn:Eb.
  - destruct (batch_replays _ _ _ _ _ _ _ _ Eb) as (evs' & Ht' & Hl' & Hf' & Ho').
    apply (IH (c + b)%nat (acc ++ batch_results)%list w1 e w' (evs0 ++ evs')%list).
    + exact Hb.
    + now rewrite Ht', Ht, app_assoc.
    + apply converted_extend; [exact Hinv | congruence | |].
      * intros j page Hj Hpage.
        destruct (Hnth j Hj) as (pg & H1 & H2).
        rewrite H2 in Hpage. inversion Hpage; subst.
        exact (Hf' _ _ H1).
      * intros m Hm. apply Ho'. lia.
    + exact H.
  - inversion H; subst.
    destruct (batch_fails _ _ _ _ _ _ _ _ Eb) as (evs' & j & page & Ht' & Hj & Hf & Hout).
    assert (Hjb : (j < b)%nat) by (rewrite <- Hlen; apply nth_error_Some; congruence).
    destruct (Hnth j Hjb) as (pg & H1 & H2).
    assert (pg = page) by congruence. subst pg.
    apply (failed_here (Z.to_nat (num_workers self)) b c acc evs0 evs' j page e w' Hinv).
    + now rewrite Ht', Ht, app_assoc.
    + exact Hjb.
    + lia.
    + exact H2.
    + exact Hf.
    + intros m Hm. apply Hout. lia.
Qed.

End Loops.

(** X15: a conversion that fails after the file was opened failed in one
    page: the exception raised is what the conversion of some page [k]
    ended with, wrapped in a [VisionParserError] when it is an
    [Exception].  The pages before the batch of page [k] (before page [k]
    itself when concurrency is off) had all been converted, and their
    results are dropped; no page after that batch had any effect: none was
    sent to the service. *)
Theorem failure_stops_the_conversion env fs self sched file_path w entry doc e w' :
  fs file_path = Some entry ->
  is_file entry = Ok true ->
  Str.mem (Str.lower (Path.suffix file_path)) supported_suffixes = true ->
  opened_pages entry (Str.lower (Path.suffix file_path)) = Ok doc ->
  (enable_concurrency self = true -> (1 <= num_workers self)%Z) ->
  convert_file env fs self sched file_path w = (Raise e, w') ->
  exists e0,
    e = (if is_Exception e0
         then mk_exn VisionParserError
                ("Failed to convert PDF file into markdown content: " ++ str_exn e0)
         else e0) /\
    failed_in_window env self doc w
      (if enable_concurrency self
          && negb (Str.mem (Str.lower (Path.suffix file_path)) image_suffixes)
       then Z.to_nat (num_workers self) else 1%nat)
      e0 w'.
Proof.
  intros Hfs Hfile Hsup Hopen Hnw H. unfold convert_file in H.
  rewrite Hfs, Hfile, Hsup in H. cbn [negb] in H.
  destruct (convert_opened env self sched entry (Str.lower (Path.suffix file_path)) w)
    as [[l|e0] w1] eqn:Ec; [discriminate|].
  exists e0. split; [destruct (is_Exception e0); now inversion H|].
  assert (w1 = w') by (destruct (is_Exception e0); now inversion H). subst w1. clear H.
  assert (Hstart : converted_upto env self doc 0 [] []) by apply converted_start.
  unfold convert_opened in Ec. unfold opened_pages in Hopen.
  destruct (Str.mem (Str.lower (Path.suffix file_path)) image_suffixes).
  - rewrite andb_false_r.
    destruct (open_image entry) as [page|e1]; [|discriminate].
    assert (Hdoc : doc = [page]) by congruence. subst doc.
    apply (convert_each_fails env self [page] w 1 0%nat [] w e0 w' []);
      [cbn; lia | now rewrite app_nil_r | exact Hstart |].
    cbn [seq convert_each nth_error].
    destruct (run_task env (Task 0) (_convert_page env self page 0) w) as [[text|e1] w1];
      [discriminate | exact Ec].
  - rewrite Hopen in Ec. rewrite andb_true_r.
    destruct (enable_concurrency self).
    + specialize (Hnw eq_refl).
      destruct (range_step (Z.of_nat (List.length doc)) (num_workers self))
        as [starts|e1] eqn:Er.
      * apply (convert_batches_fails env self doc w sched Hnw starts 0%nat [] w e0 w' []);
          [now apply range_step_batches | now rewrite app_nil_r | exact Hstart | exact Ec].
      * unfold range_step in Er.
        replace (num_workers self =? 0)%Z with false in Er
          by (symmetry; apply Z.eqb_neq; lia).
        destruct (num_workers self <? 0)%Z; discriminate.
    + apply (convert_each_fails env self doc w (List.length doc) 0%nat [] w e0 w' []);
        [lia | now rewrite app_nil_r | exact Hstart | exact Ec].
Qed.

Lemma failure_stops_the_conversion_witness :
  exists e w' e0,
    convert_file (Demo.env_of (Demo.fails_on "p5")) Demo.files (Demo.parser 4 true)
                 (fun _ => [2; 0]%nat) "ten.pdf" (Demo.fresh false) = (Raise e, w') /\
    e = (if is_Exception e0
         then mk_exn VisionParserError
                ("Failed to convert PDF file into markdown content: " ++ str_exn e0)
         else e0) /\
    failed_in_window (Demo.env_of (Demo.fails_on "p5")) (Demo.parser 4 true) Demo.ten_pages
                     (Demo.fresh false) 4 e0 w'.
Proof.
  assert (Hrun : exists e w',
            convert_file (Demo.env_of (Demo.fails_on "p5")) Demo.files (Demo.parser 4 true)
                         (fun _ => [2; 0]%nat) "ten.pdf" (Demo.fresh false)
            = (Raise e, w')) by (eexists; eexists; vm_compute; reflexivity).
  destruct Hrun as (e & w' & Hrun).
  destruct (failure_stops_the_conversion (Demo.env_of (Demo.fails_on "p5")) Demo.files
              (Demo.parser 4 true) (fun _ => [2; 0]%nat) "ten.pdf" (Demo.fresh false)
              _ Demo.ten_pages e w' eq_refl eq_refl eq_refl eq_refl ltac:(cbn; lia) Hrun)
    as (e0 & He & Hf).
  exists e, w', e0. auto.
Defined.

End FailureFacts.

(** ** The upload view *)

Module ViewFacts.
Import Str StrFacts Text TaskFacts WorldFacts DriverFacts DriverEdgeFacts.

Lemma lower_append a b : lower (a ++ b) = lower a ++ lower b.
Proof. induction a as [|c a IH]; [reflexivity|]. cbn [append lower]. now rewrite IH. Qed.

Lemma lower_ascii_dot c : Ascii.eqb (lower_ascii c) "."%char = Ascii.eqb c "."%char.
Proof. destruct c as [[] [] [] [] [] [] [] []]; reflexivity. Qed.

Lemma lacks_dot_lower s : lacks "."%char (lower s) = lacks "."%char s.
Proof.
  induction s as [|c s IH]; [reflexivity|].
  cbn [lower lacks]. now rewrite lower_ascii_dot, IH.
Qed.

Lemma split_char_lacks sep s : Forall (fun x => lacks sep x = true) (split_char sep s).
Proof.
  induction s as [|c s IH]; cbn [split_char].
  - repeat constructor.
  - destruct (Ascii.eqb c sep) eqn:E.
    + constructor; [reflexivity | exact IH].
    + destruct (split_char sep s) as [|x l]; [repeat constructor; cbn; now rewrite E|].
      inversion IH; subst. constructor; [|assumption].
      cbn [lacks]. now rewrite E, H1.
Qed.

Lemma extension_lacks_dot name : lacks "."%char (extension name) = true.
Proof.
  unfold extension.
  pose proof (split_char_lacks "."%char name) as H.
  induction H as [|x l Hx Hl IH]; [reflexivity|].
  destruct l; [exact Hx | exact IH].
Qed.

Lemma ends_with_dotless e x :
  lacks "."%char e = true -> ends_with e (String "."%char x) = false.
Proof.
  induction e as [|c e IH]; intros H; [reflexivity|].
  cbn [lacks] in H. apply andb_true_iff in H as [Hc He].
  apply negb_true_iff in Hc.
  cbn [ends_with String.eqb]. rewrite Hc. cbn [orb]. now apply IH.
Qed.

(** Whether the temporary path ends with a dotted extension is decided by
    the text after the last dot of the upload's name. *)
Lemma temp_path_ends_with file x :
  ends_with (lower (temp_path file)) (String "."%char x)
  = String.eqb (lower (extension (filename file))) x.
Proof.
  unfold temp_path. rewrite lower_append.
  change (lower "temp.") with "temp.".
  cbn [append ends_with String.eqb Ascii.eqb Bool.eqb orb].
  destruct (String.eqb (lower (extension (filename file))) x); [reflexivity|].
  cbn [orb]. apply ends_with_dotless.
  rewrite lacks_dot_lower. apply extension_lacks_dot.
Qed.




Lemma process_saved env host workers file s fs1 :
  filename file <> "" ->
  file_save host (files s) (temp_path file) (content file) = (Ok tt, fs1) ->
  process_file_try env host workers (Some file) s
  = if String.eqb (lower (extension (filename file))) "pdf" then
      match convert_file env fs1 (main_parser workers) (fun _ => [])
                         (temp_path file) (world s) with
      | (Raise e, w') => (Raises e, mkServer fs1 w')
      | (Ok markdown_pages, w') =>
          match os_remove host fs1 (temp_path file) with
          | (Raise e, fs2) => (Raises e, mkServer fs2 w')
          | (Ok _, fs2) =>
              (Responds
                 (mkResponse 200
                    (Pages_body (map (fun ic => (fst ic + 1, snd ic))%nat
                                     (enumerate markdown_pages)))),
               mkServer fs2 w')
          end
      end
    else if Str.mem (lower (extension (filename file))) ["jpg"; "jpeg"; "png"] then
      (Raises_AttributeError "'VisionParser' object has no attribute 'convert_image'",
       mkServer fs1 (world s))
    else
      (Responds (mkResponse 400 (Error_body "Unsupported file type")),
       mkServer fs1 (world s)).
Proof.
  intros Hname Hsave. unfold process_file_try.
  apply String.eqb_neq in Hname. rewrite Hname, Hsave.
  cbn [existsb Str.mem]. rewrite !temp_path_ends_with. reflexivity.
Qed.

(** X16: an upload named [*.jpg], [*.jpeg] or [*.png] (in any case) is never
    converted: the view calls [parser.convert_image], which [VisionParser]
    does not define, so the answer is a 500 with the message of the
    [AttributeError]; the service is not called and the temporary file stays
    on disk. *)
Theorem image_uploads_are_never_converted env host workers file s fs1 :
  String.eqb (filename file) "" = false ->
  mem (lower (extension (filename file))) ["jpg"; "jpeg"; "png"] = true ->
  file_save host (files s) (temp_path file) (content file) = (Ok tt, fs1) ->
  process_file env host workers (Some file) s
  = (Ok (mkResponse 500
           (Error_body "'VisionParser' object has no attribute 'convert_image'")),
     mkServer fs1 (world s)).
Proof.
  intros Hname Hext Hsave. apply String.eqb_neq in Hname. unfold process_file.
  rewrite (process_saved env host workers file s fs1 Hname Hsave), Hext.
  cbn [mem] in Hext.
  destruct (String.eqb_spec (lower (extension (filename file))) "pdf") as [E|_];
    [rewrite E in Hext; discriminate | reflexivity].
Qed.

Lemma image_uploads_are_never_converted_witness :
  process_file (Demo.env_of Demo.echo) DemoHost.disk 4
               (Some (mkUpload "scan.JPG" DemoHost.picture)) DemoHost.started
  = (Ok (mkResponse 500
           (Error_body "'VisionParser' object has no attribute 'convert_image'")),
     mkServer (DemoHost.write DemoHost.nothing "temp.JPG" DemoHost.picture)
              (Demo.fresh true)).
Proof.
  exact (image_uploads_are_never_converted (Demo.env_of Demo.echo) DemoHost.disk 4
           (mkUpload "scan.JPG" DemoHost.picture) DemoHost.started _
           eq_refl eq_refl eq_refl).
Defined.

(** X17: the view answers 400 to a request without a file part and to a
    file part with an empty name, and touches nothing; it answers 400 to
    an upload whose name does not end in [.pdf], [.jpg], [.jpeg] or [.png]
    only after it wrote the upload to disk, where the file stays. *)
Theorem unsupported_uploads_are_left_on_disk env host workers s :
  process_file env host workers None s
  = (Ok (mkResponse 400 (Error_body "No file part")), s) /\
  (forall file, filename file = "" ->
     process_file env host workers (Some file) s
     = (Ok (mkResponse 400 (Error_body "No selected file")), s)) /\
  (forall file fs1,
     String.eqb (filename file) "" = false ->
     mem (lower (extension (filename file))) ["pdf"; "jpg"; "jpeg"; "png"] = false ->
     file_save host (files s) (temp_path file) (content file) = (Ok tt, fs1) ->
     process_file env host workers (Some file) s
     = (Ok (mkResponse 400 (Error_body "Unsupported file type")),
        mkServer fs1 (world s))).
Proof.
  split; [reflexivity|]. split.
  - intros file H. unfold process_file, process_file_try. now rewrite H.
  - intros file fs1 Hname Hext Hsave. apply String.eqb_neq in Hname.
    unfold process_file.
    rewrite (process_saved env host workers file s fs1 Hname Hsave).
    cbn [mem] in Hext. apply orb_false_iff in Hext as [Hpdf Hext].
    cbn [mem]. now rewrite Hpdf, Hext.
Qed.

Lemma unsupported_uploads_are_left_on_disk_witness :
  process_file (Demo.env_of Demo.echo) DemoHost.disk 4
               (Some (mkUpload "notes.txt" DemoHost.two_pages)) DemoHost.started
  = (Ok (mkResponse 400 (Error_body "Unsupported file type")),
     mkServer (DemoHost.write DemoHost.nothing "temp.txt" DemoHost.two_pages)
              (Demo.fresh true)).
Proof.
  exact (proj2 (proj2 (unsupported_uploads_are_left_on_disk (Demo.env_of Demo.echo)
                         DemoHost.disk 4 DemoHost.started))
           (mkUpload "notes.txt" DemoHost.two_pages) _ eq_refl eq_refl eq_refl).
Defined.









(** The flag of the module-level parser outlives the request. *)
Lemma process_file_simple env host workers file_part s :
  detailed_extraction (world s) = false ->
  simple_since env (llm (main_parser workers)) (world s)
    (world (snd (process_file env host workers file_part s))).
Proof.
  intros Hw.
  assert (Hrefl : forall fs, simple_since env (llm (main_parser workers)) (world s)
                               (world (mkServer fs (world s))))
    by (intros fs; now apply SimpleFacts.simple_since_refl).
  unfold process_file, process_file_try.
  destruct file_part as [file|]; [|now apply SimpleFacts.simple_since_refl].
  destruct (String.eqb (filename file) ""); [now apply SimpleFacts.simple_since_refl|].
  destruct (file_save host (files s) (temp_path file) (content file)) as [[u|e] fs1].
  2:{ destruct (is_Exception e); apply Hrefl. }
  destruct (ends_with (lower (temp_path file)) ".pdf").
  - pose proof (ConversionFacts.convert_file_simple env (main_parser workers) fs1
                  (fun _ => []) (temp_path file) (world s) Hw) as H.
    destruct (convert_file env fs1 (main_parser workers) (fun _ => []) (temp_path file)
                           (world s)) as [[l|e] w1]; cbn [snd] in H.
    + destruct (os_remove host fs1 (temp_path file)) as [[u'|e] fs2];
        [exact H | destruct (is_Exception e); exact H].
    + destruct (is_Exception e); exact H.
  - destruct (existsb _ _); apply Hrefl.
Qed.

(** X20: the fallback outlives the request.  The parser of [main.py] is a
    module-level object, so once its detailed extraction is off it is off
    for every later request: whatever is uploaded afterwards, the flag stays
    off and every call of the service asks for free text with the default
    prompt; no structured analysis and no image extraction happen again
    before the process restarts. *)
Theorem fallback_outlives_the_request env host workers requests s :
  detailed_extraction (world s) = false ->
  detailed_extraction (world (serve env host workers requests s)) = false /\
  Forall (simple_event env (llm (main_parser workers)))
         (new_events (world s) (world (serve env host workers requests s))).
Proof.
  intros Hw.
  assert (H : simple_since env (llm (main_parser workers)) (world s)
                (world (serve env host workers requests s))).
  { unfold serve. revert s Hw.
    induction requests as [|file_part requests IH]; intros s Hw; cbn [fold_left].
    - now apply SimpleFacts.simple_since_refl.
    - pose proof (process_file_simple env host workers file_part s Hw) as H1.
      eapply SimpleFacts.simple_since_trans; [exact H1|].
      apply IH. exact (proj1 H1). }
  destruct H as (Hflag & evs & Ht & Hall). split; [exact Hflag|].
  now rewrite (new_events_app _ _ _ Ht).
Qed.

Lemma fallback_outlives_the_request_witness :
  let s := mkServer DemoHost.nothing (Demo.fresh false) in
  let requests := [Some (mkUpload "a.pdf" DemoHost.two_pages); None;
                   Some (mkUpload "b.png" DemoHost.picture)] in
  detailed_extraction (world (serve (Demo.env_of Demo.echo) DemoHost.disk 4 requests s))
  = false /\
  Forall (simple_event (Demo.env_of Demo.echo) (llm (main_parser 4)))
         (new_events (world s)
            (world (serve (Demo.env_of Demo.echo) DemoHost.disk 4 requests s))).
Proof.
  exact (fallback_outlives_the_request (Demo.env_of Demo.echo) DemoHost.disk 4
           [Some (mkUpload "a.pdf" DemoHost.two_pages); None;
            Some (mkUpload "b.png" DemoHost.picture)]
           (mkServer DemoHost.nothing (Demo.fresh false)) eq_refl).
Defined.

End ViewFacts.
